(** * XZ_Search: a shallow embedding of [scraper.py], of [init_db.py] and
    of the parts of [app.py] that do not depend on the Unicode case tables
    or on the SQL engine's matching

    The scraper walks a range of article identifiers.  For each identifier a
    worker checks the SQLite table, renders the page in a headless browser,
    extracts title / author / category / body, filters empty articles,
    localises remote images into a cache directory keyed by the MD5 of the
    image URL, and hands a result dictionary back to the parent process,
    which classifies it and writes successful articles to the table.

    Python values are modelled as follows:
    - [str] is a list of Unicode code points ([list N]);
    - [int] is [Z];
    - exceptions are an explicit [Raise] result, threaded together with the
      shared mutable world (database file, image directory, clock, network
      log) through a small state-and-exception monad;
    - the [articles] table and the image directory are finite maps. *)

From Stdlib Require Import ZArith NArith Lia List Ascii String DecimalString
  DecimalZ.
From stdpp Require Import base option list gmap.
Import ListNotations.

(* stdpp's [set_solver] clears hypotheses it has already consumed. *)
#[local] Set Warnings "-clear-no-such-hyp".

(** ** Python strings *)

Module Py.

Definition str := list N.

(** An ASCII source literal as a Python string. *)
Definition lit (s : string) : str :=
  map N_of_ascii (list_ascii_of_string s).

Definition eqb (a b : str) : bool := bool_decide (a = b).

(** [str.isspace] on one code point: the ASCII table of CPython
    ([\t\n\v\f\r], [\x1c]-[\x1f], space) and the Unicode White_Space and
    bidirectional-separator code points above it. *)
Definition isspace (c : N) : bool :=
  ((9 <=? c) && (c <=? 13) || (28 <=? c) && (c <=? 32)
   || (c =? 133) || (c =? 160) || (c =? 5760)
   || (8192 <=? c) && (c <=? 8202)
   || (c =? 8232) || (c =? 8233) || (c =? 8239) || (c =? 8287)
   || (c =? 12288))%N.

Fixpoint lstrip (s : str) : str :=
  match s with
  | c :: s' => if isspace c then lstrip s' else s
  | [] => []
  end.

Definition rstrip (s : str) : str := rev (lstrip (rev s)).

(** [s.strip()] *)
Definition strip (s : str) : str := rstrip (lstrip s).

(** [s.startswith(p)] *)
Fixpoint startswith (p s : str) : bool :=
  match p, s with
  | [], _ => true
  | a :: p', b :: s' => (a =? b)%N && startswith p' s'
  | _ :: _, [] => false
  end.

(** [s.split(sep)[0]] for a one-character separator. *)
Fixpoint split_first (sep : N) (s : str) : str :=
  match s with
  | [] => []
  | c :: s' => if (c =? sep)%N then [] else c :: split_first sep s'
  end.

(** [s.rfind(c)] for a one-character needle: the last index, or -1. *)
Fixpoint rfind_from (c : N) (s : str) (i : Z) (found : Z) : Z :=
  match s with
  | [] => found
  | x :: s' => rfind_from c s' (i + 1) (if (x =? c)%N then i else found)
  end.

Definition rfind (c : N) (s : str) : Z := rfind_from c s 0 (-1).

(** [s[a:b]] for non-negative bounds. *)
Definition slice (s : str) (a b : Z) : str :=
  take (Z.to_nat (b - a)) (drop (Z.to_nat a) s).

(** [os.path.splitext(p)[-1]] (posixpath): the extension starts at the
    last dot, provided that dot comes after the last slash and is preceded
    in the file name by some character that is not a dot.  (ntpath gives
    the same unless a backslash follows the last slash.) *)
Definition splitext_ext (p : str) : str :=
  let sepIndex := rfind 47 p in
  let dotIndex := rfind 46 p in
  if (sepIndex <? dotIndex)%Z then
    if existsb (fun ch => negb (ch =? 46)%N) (slice p (sepIndex + 1) dotIndex)
    then drop (Z.to_nat dotIndex) p
    else []
  else [].

(** [str(n)] for an int. *)
Definition of_int (n : Z) : str :=
  lit (NilZero.string_of_int (Z.to_int n)).

(** [s.replace(old, new)], scanning left to right over non-overlapping
    occurrences; [skip] counts the characters of the occurrence just
    replaced that are still to be passed over. *)
Fixpoint replace_from (old new s : str) (skip : nat) : str :=
  match s with
  | [] => []
  | c :: s' =>
      match skip with
      | S k => replace_from old new s' k
      | O =>
          if startswith old s
          then new ++ replace_from old new s' (length old - 1)
          else c :: replace_from old new s' 0
      end
  end.

Definition replace (old new s : str) : str :=
  match old with
  | [] => new ++ flat_map (fun c => c :: new) s
  | _ :: _ => replace_from old new s 0
  end.

(** [s.encode()] : UTF-8.  Lone surrogates (and anything that is not a
    code point) raise [UnicodeEncodeError], rendered as [None]. *)
Definition encode_char (c : N) : option (list N) :=
  (if c <? 128 then Some [c]
   else if c <? 2048 then Some [192 + c / 64; 128 + c mod 64]
   else if (55296 <=? c) && (c <=? 57343) then None
   else if c <? 65536 then
     Some [224 + c / 4096; 128 + (c / 64) mod 64; 128 + c mod 64]
   else if c <? 1114112 then
     Some [240 + c / 262144; 128 + (c / 4096) mod 64;
           128 + (c / 64) mod 64; 128 + c mod 64]
   else None)%N.

Fixpoint encode (s : str) : option (list N) :=
  match s with
  | [] => Some []
  | c :: s' =>
      match encode_char c, encode s' with
      | Some b, Some bs => Some (b ++ bs)
      | _, _ => None
      end
  end.

End Py.

(** ** [hashlib.md5(...).hexdigest()] (RFC 1321) on a list of bytes *)

Module Md5.

Definition w32 (x : N) : N := (x mod 4294967296)%N.

Definition rotl (x : N) (c : N) : N :=
  w32 (N.lor (N.shiftl x c) (N.shiftr x (32 - c))).

Definition not32 (x : N) : N := N.lxor x 4294967295.

Definition shifts : list N :=
  [7; 12; 17; 22; 7; 12; 17; 22; 7; 12; 17; 22; 7; 12; 17; 22;
   5; 9; 14; 20; 5; 9; 14; 20; 5; 9; 14; 20; 5; 9; 14; 20;
   4; 11; 16; 23; 4; 11; 16; 23; 4; 11; 16; 23; 4; 11; 16; 23;
   6; 10; 15; 21; 6; 10; 15; 21; 6; 10; 15; 21; 6; 10; 15; 21]%N.

(** [floor (2^32 * |sin (i + 1)|)] for [i = 0 .. 63]. *)
Definition sines : list N :=
  [3614090360; 3905402710; 606105819; 3250441966; 4118548399; 1200080426;
   2821735955; 4249261313; 1770035416; 2336552879; 4294925233; 2304563134;
   1804603682; 4254626195; 2792965006; 1236535329; 4129170786; 3225465664;
   643717713; 3921069994; 3593408605; 38016083; 3634488961; 3889429448;
   568446438; 3275163606; 4107603335; 1163531501; 2850285829; 4243563512;
   1735328473; 2368359562; 4294588738; 2272392833; 1839030562; 4259657740;
   2763975236; 1272893353; 4139469664; 3200236656; 681279174; 3936430074;
   3572445317; 76029189; 3654602809; 3873151461; 530742520; 3299628645;
   4096336452; 1126891415; 2878612391; 4237533241; 1700485571; 2399980690;
   4293915773; 2240044497; 1873313359; 4264355552; 2734768916; 1309151649;
   4149444226; 3174756917; 718787259; 3951481745]%N.

Definition le_bytes (n : nat) (x : N) : list N :=
  map (fun i => (N.shiftr x (8 * N.of_nat i) mod 256)%N) (seq 0 n).

Fixpoint le_word (bs : list N) : N :=
  match bs with
  | [] => 0
  | b :: bs' => (b + 256 * le_word bs')%N
  end.

(** Padding: a 1 bit, zeros up to 56 mod 64, then the bit length on 64
    bits, little-endian. *)
Definition pad (msg : list N) : list N :=
  let n := length msg in
  let zeros := (64 + 55 - n mod 64) mod 64 in
  msg ++ [128%N] ++ repeat 0%N zeros
      ++ le_bytes 8 ((8 * N.of_nat n) mod 18446744073709551616)%N.

Fixpoint chunks (k : nat) (bs : list N) (fuel : nat) : list (list N) :=
  match fuel with
  | O => []
  | S f =>
      match bs with
      | [] => []
      | _ => take k bs :: chunks k (drop k bs) f
      end
  end.

Definition words (chunk : list N) : list N :=
  map le_word (chunks 4 chunk 16).

Definition round (m : list N) (st : N * N * N * N) (i : nat)
  : N * N * N * N :=
  let '(a, b, c, d) := st in
  let '(f, g) :=
    if i <? 16 then (N.lor (N.land b c) (N.land (not32 b) d), i)
    else if i <? 32 then
      (N.lor (N.land d b) (N.land (not32 d) c), (5 * i + 1) mod 16)
    else if i <? 48 then (N.lxor (N.lxor b c) d, (3 * i + 5) mod 16)
    else (N.lxor c (N.lor b (not32 d)), (7 * i) mod 16) in
  let f' := w32 (f + a + nth i sines 0%N + nth g m 0%N) in
  (d, w32 (b + rotl f' (nth i shifts 0%N)), b, c).

Definition compress (h : N * N * N * N) (chunk : list N) : N * N * N * N :=
  let '(a0, b0, c0, d0) := h in
  let '(a, b, c, d) := fold_left (round (words chunk)) (seq 0 64) h in
  (w32 (a0 + a), w32 (b0 + b), w32 (c0 + c), w32 (d0 + d)).

Definition digest (msg : list N) : list N :=
  let p := pad msg in
  let '(a, b, c, d) :=
    fold_left compress (chunks 64 p (length p))
              (1732584193, 4023233417, 2562383102, 271733878)%N in
  le_bytes 4 a ++ le_bytes 4 b ++ le_bytes 4 c ++ le_bytes 4 d.

Definition hex_digit (n : N) : N :=
  (if n <? 10 then 48 + n else 87 + n)%N.

Definition hexdigest (msg : list N) : Py.str :=
  flat_map (fun b => [hex_digit (b / 16); hex_digit (b mod 16)]%N)
           (digest msg).

End Md5.

(** ** The regular expressions of the scraper

    Each pattern is embedded as a matcher that, at one position of the
    subject, either returns what the match consumed (and the rest of the
    subject) or fails; [re.sub] and [re.search] then try the positions from
    left to right.  None of the patterns can match the empty string. *)

Module Re.
Import Py.

(** The longest prefix whose characters satisfy [p], and what follows. *)
Fixpoint span (p : N -> bool) (s : str) : str * str :=
  match s with
  | c :: s' =>
      if p c then let '(a, b) := span p s' in (c :: a, b) else ([], s)
  | [] => ([], [])
  end.

Definition strip_prefix (p s : str) : option str :=
  if startswith p s then Some (drop (length p) s) else None.

Definition quote : N := 34.
Definition is_quote (c : N) : bool := ((c =? 34) || (c =? 39))%N.

(** [<img[^>]+>] at the head of [s]: the tag and the rest. *)
Definition match_img (s : str) : option (str * str) :=
  match strip_prefix (lit "<img") s with
  | Some r =>
      match span (fun c => negb (c =? 62)%N) r with
      | ((_ :: _) as attrs, gt :: rest) =>
          Some (lit "<img" ++ attrs ++ [gt], rest)
      | _ => None
      end
  | None => None
  end.

(** What [re.sub(r'<img[^>]+>', f, s)] sees: the successive
    non-overlapping matches and the characters between them. *)
Inductive piece := Lit (c : N) | Img (tag : str).

Fixpoint finditer_img (fuel : nat) (s : str) : list piece :=
  match fuel, s with
  | S f, c :: s' =>
      match match_img s with
      | Some (tag, rest) => Img tag :: finditer_img f rest
      | None => Lit c :: finditer_img f s'
      end
  | _, _ => []
  end.

(** The pattern of [replace_img] at the head of [s]: [src=], a quote of
    either kind, one or more characters that are not quotes (group 1),
    and a quote of either kind.  Group 1 is returned. *)
Definition match_src (s : str) : option str :=
  match strip_prefix (lit "src=") s with
  | Some (q :: r) =>
      if is_quote q then
        match span (fun c => negb (is_quote c)) r with
        | ((_ :: _) as v, _ :: _) => Some v
        | _ => None
        end
      else None
  | _ => None
  end.

(** [re.search] of that pattern: group 1 of the leftmost match. *)
Fixpoint search_src (s : str) : option str :=
  match match_src s with
  | Some v => Some v
  | None =>
      match s with
      | [] => None
      | _ :: s' => search_src s'
      end
  end.

(** [display:\s*none;?] at the head of [v]: what follows it. *)
Definition match_display_none (v : str) : option str :=
  match strip_prefix (lit "display:") v with
  | Some r =>
      match strip_prefix (lit "none") (lstrip r) with
      | Some (59%N :: r') => Some r'
      | Some r' => Some r'
      | None => None
      end
  | None => None
  end.

(** The lazy group 1 grows until [display:\s*none] matches: groups 1
    and 2 inside a style value [v]. *)
Fixpoint find_display_none (v : str) : option (str * str) :=
  match match_display_none v with
  | Some g2 => Some ([], g2)
  | None =>
      match v with
      | [] => None
      | c :: v' =>
          match find_display_none v' with
          | Some (g1, g2) => Some (c :: g1, g2)
          | None => None
          end
      end
  end.

Definition empty_style : str := lit "style=" ++ [quote; quote].

(** The first pattern of the modern path at the head of [s]: [style=],
    a double quote, a lazy run without double quotes (group 1),
    [display:\s*none;?], a lazy run without double quotes (group 2) and a
    double quote.  The replacement is the style attribute rebuilt from
    the two groups, from which an attribute left empty is erased. *)
Definition match_hidden_style (s : str) : option (str * str) :=
  match strip_prefix (lit "style=" ++ [quote]) s with
  | Some r =>
      match span (fun c => negb (c =? quote)%N) r with
      | (v, _ :: rest) =>
          match find_display_none v with
          | Some (g1, g2) =>
              Some (replace empty_style []
                      (lit "style=" ++ [quote] ++ g1 ++ g2 ++ [quote]),
                    rest)
          | None => None
          end
      | (_, []) => None
      end
  | None => None
  end.

(** The second pattern of the modern path at the head of [s]: [\s*]
    followed by an empty style attribute; replaced by the empty string. *)
Definition match_empty_style (s : str) : option (str * str) :=
  match strip_prefix empty_style (lstrip s) with
  | Some rest => Some ([], rest)
  | None => None
  end.

(** [re.sub] for a matcher that yields the replacement text itself. *)
Fixpoint sub_from (fuel : nat) (m : str -> option (str * str)) (s : str)
  : str :=
  match fuel, s with
  | S f, c :: s' =>
      match m s with
      | Some (out, rest) => out ++ sub_from f m rest
      | None => c :: sub_from f m s'
      end
  | _, _ => []
  end.

Definition sub (m : str -> option (str * str)) (s : str) : str :=
  sub_from (length s) m s.

End Re.

(** ** Results, exceptions and the shared world *)

(** What a call returns: a value, or an exception carrying [str(e)]. *)
Inductive res (A : Type) : Type :=
| Ok (a : A)
| Raise (e : Py.str).
Arguments Ok {A} a.
Arguments Raise {A} e.

(** A DOM element handle and a rendered page, as seen through
    [query_selector], [inner_text] and [inner_html]. *)
Record Element := { inner_text : Py.str; inner_html : Py.str }.

Record Page := { query_selector : Py.str -> option Element }.

(** The two scripts passed to [page.evaluate]. *)
Inductive Script := AutoScroll | RevealHidden.

Record Response := { status_code : Z; content : list N }.

(** The dictionary built on the success path of [scrape_single_article]
    (its ['status'] key is the constructor [R_success] below). *)
Record Article := {
  art_id : Z;
  title : Py.str;
  author : Py.str;
  url : Py.str;
  category : Py.str;
  content_html : Py.str
}.

(** The four dictionaries [scrape_single_article] returns, by ['status']. *)
Inductive Result :=
| R_exists (id : Z)
| R_skip (id : Z)
| R_error (id : Z) (error : Py.str)
| R_success (article_data : Article).

(** One row of [articles]; [id INTEGER PRIMARY KEY] is the key of the table
    and [created_at] defaults to the time of the insertion. *)
Record Row := {
  row_title : Py.str;
  row_author : Py.str;
  row_url : Py.str;
  row_category : Py.str;
  row_content_html : Py.str;
  row_created_at : nat
}.

(** The file at [DB_PATH]: it cannot be opened, or it opens but has no
    [articles] table ([init_db] was not run on it), or it has the table. *)
Inductive Database :=
| Unopenable
| NoTable
| Table (rows : gmap Z Row).

Inductive Event :=
| HttpGet (img_url : Py.str)
| PageGoto (page_url : Py.str)
| FileWrite (local_filename : Py.str).

(** Everything the processes share and mutate: the database file, the
    files of [STATIC_DIR] by name, a logical clock that advances at every
    call to the outside, and the log of those calls (newest first). *)
Record State := {
  db : Database;
  images : gmap Py.str (list N);
  now : nat;
  trace : list Event
}.

(** The outside: the browser, the HTTP client, the file system and the
    database engine answer as they please, possibly differently at every
    moment of the clock. *)
Record World := {
  playwright_start : nat -> res unit;
  chromium_launch : nat -> res unit;
  page_goto : nat -> Py.str -> Z -> res Page;
  page_evaluate : nat -> Script -> Page -> res Page;
  browser_close : nat -> res unit;
  playwright_stop : nat -> res unit;
  requests_get : nat -> Py.str -> res Response;
  open_wb : nat -> Py.str -> res unit;
  file_write : nat -> Py.str -> res unit;
  sqlite_write : nat -> res unit
}.

(** ** The state-and-exception monad *)

Definition M (A : Type) : Type := State -> res A * State.

Definition ret {A} (a : A) : M A := fun st => (Ok a, st).

Definition raise {A} (e : Py.str) : M A := fun st => (Raise e, st).

Definition bind {A B} (m : M A) (k : A -> M B) : M B :=
  fun st =>
    match m st with
    | (Ok a, st') => k a st'
    | (Raise e, st') => (Raise e, st')
    end.

(** [try: body / except Exception as e: handler e] *)
Definition try_except {A} (body : M A) (handler : Py.str -> M A) : M A :=
  fun st =>
    match body st with
    | (Ok a, st') => (Ok a, st')
    | (Raise e, st') => handler e st'
    end.

Declare Scope py_scope.
Delimit Scope py_scope with py.
Notation "'let*' x := m 'in' k" := (bind m (fun x => k))
  (at level 10, x name, m at level 100, k at level 200) : py_scope.
Open Scope py_scope.

Fixpoint mapM {A B} (f : A -> M B) (l : list A) : M (list B) :=
  match l with
  | [] => ret []
  | a :: l' =>
      let* b := f a in
      let* bs := mapM f l' in
      ret (b :: bs)
  end.

Definition tick (ev : list Event) (st : State) : State :=
  {| db := db st; images := images st; now := S (now st);
     trace := ev ++ trace st |}.

(** A call to the outside: the world answers for the current moment and
    the clock advances. *)
Definition outside {A} (answer : nat -> res A) (ev : list Event) : M A :=
  fun st => (answer (now st), tick ev st).

(** ** The scraper *)

Definition ARTICLE_VERSION_THRESHOLD : Z := 16567.

(** The literals of the source that are not ASCII, as code points:
    the title placeholder prefix, the unknown-author sentinel and the
    no-content paragraph. *)
Definition title_prefix : Py.str := [25991; 31456; 32]%N.
Definition unknown_author : Py.str := [26410; 30693; 20316; 32773]%N.
Definition no_content : Py.str :=
  (Py.lit "<p>" ++ [26080; 20869; 23481] ++ Py.lit "</p>")%N.

(** The f-string that stands for a missing title. *)
Definition title_placeholder (article_id : Z) : Py.str :=
  title_prefix ++ Py.of_int article_id.

Definition article_url (article_id : Z) : Py.str :=
  Py.lit "https://xz.aliyun.com/news/" ++ Py.of_int article_id.

Section Scraper.

Variable w : World.

(** *** The database *)

(** [sqlite3.connect(DB_PATH)] *)
Definition sqlite3_connect : M unit :=
  fun st =>
    match db st with
    | Unopenable => (Raise (Py.lit "unable to open database file"), st)
    | _ => (Ok tt, st)
    end.

(** [SELECT 1 FROM articles WHERE id = ? LIMIT 1] and
    [fetchone() is not None], for an identifier that can be bound: a
    signed 64-bit integer.  For any other the binding raises
    [OverflowError], which is not modelled. *)
Definition select_one (article_id : Z) : M bool :=
  fun st =>
    match db st with
    | Table rows => (Ok (bool_decide (is_Some (rows !! article_id))), st)
    | _ => (Raise (Py.lit "no such table: articles"), st)
    end.

(** The connection is opened before the [try]; the [try] has a
    [finally] that closes it and no [except]. *)
Definition article_exists (article_id : Z) : M bool :=
  let* _ := sqlite3_connect in
  select_one article_id.

Definition row_of (article_data : Article) (t : nat) : Row :=
  {| row_title := title article_data;
     row_author := author article_data;
     row_url := url article_data;
     row_category := category article_data;
     row_content_html := content_html article_data;
     row_created_at := t |}.

(** [INSERT OR REPLACE] on a table with a primary key [id] and a
    [UNIQUE] column [url]: the rows in conflict on either are deleted,
    then the new row is inserted with the default [created_at]. *)
Definition replace_row (article_data : Article) (t : nat)
    (rows : gmap Z Row) : gmap Z Row :=
  <[art_id article_data := row_of article_data t]>
    (filter (fun kv => row_url kv.2 <> url article_data) rows).

(** [cursor.execute('INSERT OR REPLACE ...')] and [conn.commit()].
    [sqlite_write] answers for the two together: whatever makes either
    raise, a value that cannot be bound included, is its [Raise]. *)
Definition insert_or_replace (article_data : Article) : M unit :=
  fun st =>
    match db st with
    | Table rows =>
        match sqlite_write w (now st) with
        | Ok _ =>
            (Ok tt,
             {| db := Table (replace_row article_data (now st) rows);
                images := images st;
                now := S (now st);
                trace := trace st |})
        | Raise e => (Raise e, tick [] st)
        end
    | _ => (Raise (Py.lit "no such table: articles"), st)
    end.

Definition save_article (article_data : Article) : M bool :=
  let* _ := sqlite3_connect in
  try_except
    (let* _ := insert_or_replace article_data in
     ret true)
    (fun e => ret false).

(** *** Images *)

Definition encode_utf8 (s : Py.str) : M (list N) :=
  match Py.encode s with
  | Some bytes => ret bytes
  | None => raise (Py.lit "'utf-8' codec can't encode character")
  end.

(** [os.path.exists(os.path.join(STATIC_DIR, local_filename))] *)
Definition path_exists (local_filename : Py.str) : M bool :=
  fun st => (Ok (bool_decide (is_Some (images st !! local_filename))), st).

(** [with open(local_path, 'wb') as f: f.write(data)]: opening creates
    the file, empty; a write that fails leaves it so. *)
Definition write_file (local_filename : Py.str) (data : list N) : M unit :=
  fun st =>
    match open_wb w (now st) local_filename with
    | Ok _ =>
        match file_write w (S (now st)) local_filename with
        | Ok _ =>
            (Ok tt,
             {| db := db st;
                images := <[local_filename := data]> (images st);
                now := S (S (now st));
                trace := FileWrite local_filename :: trace st |})
        | Raise e =>
            (Raise e,
             {| db := db st;
                images := <[local_filename := []]> (images st);
                now := S (S (now st));
                trace := FileWrite local_filename :: trace st |})
        end
    | Raise e => (Raise e, tick [] st)
    end.

Definition local_name (img_url : Py.str) (bytes : list N) : Py.str :=
  let filename := Md5.hexdigest bytes in
  let ext :=
    match Py.splitext_ext (Py.split_first 63 img_url) with
    | [] => Py.lit ".png"
    | e => e
    end in
  filename ++ ext.

Definition static_path (local_filename : Py.str) : Py.str :=
  Py.lit "/static/images/" ++ local_filename.

Definition download_image (img_url : Py.str) : M (option Py.str) :=
  try_except
    (let* bytes := encode_utf8 img_url in
     let local_filename := local_name img_url bytes in
     let* cached := path_exists local_filename in
     if cached then ret (Some (static_path local_filename))
     else
       let* resp := outside (fun t => requests_get w t img_url)
                            [HttpGet img_url] in
       if (status_code resp =? 200)%Z then
         let* _ := write_file local_filename (content resp) in
         ret (Some (static_path local_filename))
       else ret None)
    (fun e => ret None).

Definition replace_img (img_tag : Py.str) : M Py.str :=
  match Re.search_src img_tag with
  | Some original_src =>
      if Py.startswith (Py.lit "http") original_src then
        let* local_path := download_image original_src in
        match local_path with
        | Some ((_ :: _) as p) => ret (Py.replace original_src p img_tag)
        | _ => ret img_tag
        end
      else ret img_tag
  | None => ret img_tag
  end.

Definition sub_piece (p : Re.piece) : M Py.str :=
  match p with
  | Re.Lit c => ret [c]
  | Re.Img tag => replace_img tag
  end.

(** [re.sub(r'<img[^>]+>', replace_img, html_content)] *)
Definition process_images_in_html (html_content : Py.str) : M Py.str :=
  let* parts := mapM sub_piece
                  (Re.finditer_img (length html_content) html_content) in
  ret (concat parts).

(** *** One article *)

(** [title == f'...{article_id}' or not title or title.strip() == ''] *)
Definition is_empty_article (title : Py.str) (article_id : Z) : bool :=
  Py.eqb title (title_placeholder article_id)
  || match title with [] => true | _ => false end
  || Py.eqb (Py.strip title) [].

Definition sel_title : Py.str := Py.lit ".detail_title".
Definition sel_author : Py.str := Py.lit ".username".
Definition sel_category : Py.str := Py.lit ".cates_span".
Definition sel_legacy_body : Py.str :=
  Py.lit ".detail_content, #markdown-body".
Definition sel_modern_body : Py.str := Py.lit ".ne-viewer-body".

(** The three header fields, read the same way on both paths. *)
Definition extract_header (page : Page) (article_id : Z)
  : Py.str * Py.str * Py.str :=
  let title_elem := query_selector page sel_title in
  let title :=
    match title_elem with
    | Some e => Py.strip (inner_text e)
    | None => title_placeholder article_id
    end in
  let author_elem := query_selector page sel_author in
  let author :=
    match author_elem with
    | Some e => Py.strip (inner_text e)
    | None => unknown_author
    end in
  let category_elem := query_selector page sel_category in
  let category :=
    match category_elem with
    | Some e => Py.strip (inner_text e)
    | None => []
    end in
  (title, author, category).

(** The branch [article_id <= ARTICLE_VERSION_THRESHOLD], once the page
    is loaded. *)
Definition extract_legacy (page : Page) (article_id : Z)
  : Py.str * Py.str * Py.str * Py.str :=
  let content_elem := query_selector page sel_legacy_body in
  let content_html :=
    match content_elem with
    | Some e => inner_html e
    | None => no_content
    end in
  (extract_header page article_id, content_html).

(** The [else] branch, once the page is loaded, scrolled and revealed. *)
Definition extract_modern (page : Page) (article_id : Z)
  : Py.str * Py.str * Py.str * Py.str :=
  let content_elem :=
    match query_selector page sel_modern_body with
    | Some e => Some e
    | None => query_selector page sel_legacy_body
    end in
  let content_html :=
    match content_elem with
    | Some e => inner_html e
    | None => no_content
    end in
  let content_html := Re.sub Re.match_hidden_style content_html in
  let content_html := Re.sub Re.match_empty_style content_html in
  (extract_header page article_id, content_html).

(** Navigation and extraction on the old layout.  Here and below the
    sleeps, the logging and the [query_selector_all] whose result is
    only logged are left out. *)
Definition render_legacy (article_id : Z) (url : Py.str)
  : M (Py.str * Py.str * Py.str * Py.str) :=
  let* page := outside (fun t => page_goto w t url 30000) [PageGoto url] in
  ret (extract_legacy page article_id).

(** Navigation, scrolling, revealing and extraction on the new layout. *)
Definition render_modern (article_id : Z) (url : Py.str)
  : M (Py.str * Py.str * Py.str * Py.str) :=
  let* page := outside (fun t => page_goto w t url 60000) [PageGoto url] in
  let* page := outside (fun t => page_evaluate w t AutoScroll page) [] in
  let* page := outside (fun t => page_evaluate w t RevealHidden page) [] in
  ret (extract_modern page article_id).

(** The [if]/[else] on the threshold. *)
Definition render (article_id : Z) (url : Py.str)
  : M (Py.str * Py.str * Py.str * Py.str) :=
  if (article_id <=? ARTICLE_VERSION_THRESHOLD)%Z
  then render_legacy article_id url
  else render_modern article_id url.

(** [with sync_playwright() as p: body]: the driver is started, the body
    runs, and the driver is stopped whether the body returned or raised; an
    exception of the stop takes the place of what the body gave. *)
Definition with_playwright {A} (body : M A) : M A :=
  let* _ := outside (playwright_start w) [] in
  fun st =>
    let '(r, st1) := body st in
    match playwright_stop w (now st1) with
    | Ok _ => (r, tick [] st1)
    | Raise e => (Raise e, tick [] st1)
    end.

(** The body of the [with] block of [scrape_single_article]. *)
Definition scrape_page (article_id : Z) (url : Py.str) : M Result :=
  let* _ := outside (chromium_launch w) [] in
  let* fields := render article_id url in
  let '(title, author, category, content_html) := fields in
  let* _ := outside (browser_close w) [] in
  if is_empty_article title article_id then ret (R_skip article_id)
  else
    let* content_html := process_images_in_html content_html in
    ret (R_success
           {| art_id := article_id;
              title := title;
              author := author;
              url := url;
              category := category;
              content_html := content_html |}).

Definition scrape_single_article (article_id : Z) : M Result :=
  let* found := article_exists article_id in
  if found then ret (R_exists article_id)
  else
    let url := article_url article_id in
    try_except
      (with_playwright (scrape_page article_id url))
      (fun e => ret (R_error article_id e)).

(** *** The parent process *)

Record Counters := {
  success_count : nat;
  skip_count : nat;
  fail_count : nat;
  exists_count : nat
}.

Definition no_counts : Counters :=
  {| success_count := 0; skip_count := 0; fail_count := 0;
     exists_count := 0 |}.

Definition add_success (c : Counters) : Counters :=
  {| success_count := S (success_count c); skip_count := skip_count c;
     fail_count := fail_count c; exists_count := exists_count c |}.
Definition add_skip (c : Counters) : Counters :=
  {| success_count := success_count c; skip_count := S (skip_count c);
     fail_count := fail_count c; exists_count := exists_count c |}.
Definition add_fail (c : Counters) : Counters :=
  {| success_count := success_count c; skip_count := skip_count c;
     fail_count := S (fail_count c); exists_count := exists_count c |}.
Definition add_exists (c : Counters) : Counters :=
  {| success_count := success_count c; skip_count := skip_count c;
     fail_count := fail_count c; exists_count := S (exists_count c) |}.

(** [future.result()]: the task's return value, or its exception. *)
Definition future_result (fut : res Result) : M Result :=
  match fut with
  | Ok r => ret r
  | Raise e => raise e
  end.

(** The body of the [for future in as_completed(...)] loop. *)
Definition collect (fut : res Result) (c : Counters) : M Counters :=
  try_except
    (let* result := future_result fut in
     match result with
     | R_exists _ => ret (add_exists c)
     | R_skip _ => ret (add_skip c)
     | R_error _ _ => ret (add_fail c)
     | R_success article_data =>
         let* saved := save_article article_data in
         if saved then ret (add_success c) else ret (add_fail c)
     end)
    (fun e => ret (add_fail c)).

(** [range(a, b)] *)
Definition range (a b : Z) : list Z :=
  map (fun i => (a + Z.of_nat i)%Z) (seq 0 (Z.to_nat (b - a))).

(** The executor between [submit] and the end of the [with] block:
    identifiers submitted and not yet taken by a worker (in submission
    order), identifiers a worker is busy with, futures that are done and
    not yet yielded by [as_completed], and what the loop has consumed. *)
Record Pool := {
  queued : list Z;
  running : list Z;
  finished : list (Z * res Result);
  collected : list Z;
  counts : Counters
}.

(** What can happen next: a free worker takes the next queued
    identifier; a busy worker finishes its task; the parent consumes a
    future that is done. *)
Inductive Step :=
| Start
| Finish (article_id : Z)
| Collect (article_id : Z).

Definition remove_id (article_id : Z) (l : list Z) : list Z :=
  filter (fun x => x <> article_id) l.

Fixpoint take_future (article_id : Z) (l : list (Z * res Result))
  : option (res Result * list (Z * res Result)) :=
  match l with
  | [] => None
  | (i, r) :: l' =>
      if bool_decide (i = article_id) then Some (r, l')
      else
        match take_future article_id l' with
        | Some (r', l'') => Some (r', (i, r) :: l'')
        | None => None
        end
  end.

(** One step of the pool with [max_workers] workers.  A task runs to
    completion at the moment its worker finishes: tasks are interleaved
    with one another and with the parent as wholes, not instruction by
    instruction.  The table is written by the parent alone, so that this
    is no loss for it; of the image cache, two tasks that miss the same
    file at the same time both write it in the real pool, while here the
    second finds the file of the first.  [None] when the step is not
    possible in this configuration; [Raise] when an exception leaves the
    loop body of the parent. *)
Definition step (max_workers : Z) (s : Step) (cfg : Pool * State)
  : option (res Pool * State) :=
  let '(p, st) := cfg in
  match s with
  | Start =>
      match queued p with
      | article_id :: q =>
          if (Z.of_nat (length (running p)) <? max_workers)%Z then
            Some (Ok {| queued := q; running := running p ++ [article_id];
                        finished := finished p; collected := collected p;
                        counts := counts p |}, st)
          else None
      | [] => None
      end
  | Finish article_id =>
      if bool_decide (article_id ∈ running p) then
        let '(r, st') := scrape_single_article article_id st in
        Some (Ok {| queued := queued p;
                    running := remove_id article_id (running p);
                    finished := finished p ++ [(article_id, r)];
                    collected := collected p; counts := counts p |}, st')
      else None
  | Collect article_id =>
      match take_future article_id (finished p) with
      | Some (fut, rest) =>
          match collect fut (counts p) st with
          | (Ok c, st') =>
              Some (Ok {| queued := queued p; running := running p;
                          finished := rest;
                          collected := collected p ++ [article_id];
                          counts := c |}, st')
          | (Raise e, st') => Some (Raise e, st')
          end
      | None => None
      end
  end.

Fixpoint run (max_workers : Z) (sched : list Step) (cfg : Pool * State)
  : option (res Pool * State) :=
  match sched with
  | [] => Some (Ok cfg.1, cfg.2)
  | s :: sched' =>
      match step max_workers s cfg with
      | Some (Ok p, st) => run max_workers sched' (p, st)
      | Some (Raise e, st) => Some (Raise e, st)
      | None => None
      end
  end.

Definition submitted (start_id end_id : Z) : Pool :=
  {| queued := range start_id (end_id + 1); running := [];
     finished := []; collected := []; counts := no_counts |}.

Definition drained (p : Pool) : bool :=
  match queued p, running p, finished p with
  | [], [], [] => true
  | _, _, _ => false
  end.

(** [main(start_id, end_id, max_workers)] along one scheduling of the
    pool.  The executor refuses a worker count below one; otherwise the
    counters of the summary are returned when [sched] is a complete
    execution (every future consumed), an exception that left the loop
    is passed on, and [None] says that [sched] is not an execution of
    this run. *)
Definition main (start_id end_id max_workers : Z) (sched : list Step)
    (st : State) : option (res Counters * State) :=
  if (max_workers <=? 0)%Z then
    Some (Raise (Py.lit "max_workers must be greater than 0"), st)
  else
    match run max_workers sched (submitted start_id end_id, st) with
    | Some (Ok p, st') =>
        if drained p then Some (Ok (counts p), st') else None
    | Some (Raise e, st') => Some (Raise e, st')
    | None => None
    end.

(** The schedule of a single worker that is collected at once. *)
Definition one_by_one (start_id end_id : Z) : list Step :=
  flat_map (fun i => [Start; Finish i; Collect i])
           (range start_id (end_id + 1)).

End Scraper.

(** ** [init_db.py] *)

Section InitDb.

Variable w : World.

(** [CREATE TABLE IF NOT EXISTS articles (...)].  The engine may refuse
    the statement; when it accepts it, a table that is there is left
    alone and a missing one is created empty.  The statement is committed
    as it is executed: the [sqlite3] module opens no transaction for it. *)
Definition create_table_if_not_exists : M unit :=
  fun st =>
    match db st with
    | Unopenable => (Raise (Py.lit "unable to open database file"), st)
    | NoTable =>
        match sqlite_write w (now st) with
        | Ok _ =>
            (Ok tt,
             {| db := Table ∅; images := images st; now := S (now st);
                trace := trace st |})
        | Raise e => (Raise e, tick [] st)
        end
    | Table rows =>
        match sqlite_write w (now st) with
        | Ok _ => (Ok tt, tick [] st)
        | Raise e => (Raise e, tick [] st)
        end
    end.

(** [CREATE INDEX IF NOT EXISTS ...]: the rows are not touched. *)
Definition create_index_if_not_exists : M unit :=
  outside (sqlite_write w) [].

(** [init_database()], on the file that its relative path
    ['articles.db'] names in the working directory: [db] is that file
    here, which is the file at [DB_PATH] of the scraper only when the
    script is run from the directory of the scripts.  Nothing is caught;
    the final [commit] finds no open transaction, and the [print] is left
    out. *)
Definition init_database : M unit :=
  let* _ := sqlite3_connect in
  let* _ := create_table_if_not_exists in
  let* _ := create_index_if_not_exists in
  let* _ := create_index_if_not_exists in
  let* _ := create_index_if_not_exists in
  ret tt.

End InitDb.

(** ** The search application ([app.py]) *)

Module App.
Import Py.

(** [text[:stop]] for any int [stop]: a negative bound counts from the
    end. *)
Definition slice_to (s : str) (stop : Z) : str :=
  take (Z.to_nat (if (stop <? 0)%Z then stop + Z.of_nat (length s)
                  else stop)) s.

(** [<[^>]+>] at the head of [s], replaced by the empty string. *)
Definition match_tag (s : str) : option (str * str) :=
  match s with
  | 60%N :: r =>
      match Re.span (fun c => negb (c =? 62)%N) r with
      | (_ :: _, _ :: rest) => Some ([], rest)
      | _ => None
      end
  | _ => None
  end.

(** [\s+] at the head of [s], replaced by one space. *)
Definition match_spaces (s : str) : option (str * str) :=
  match Re.span isspace s with
  | (_ :: _, rest) => Some ([32%N], rest)
  | _ => None
  end.

Definition extract_text_from_html (html_content : str) (max_length : Z)
  : str :=
  let text := Re.sub match_tag html_content in
  let text := strip (Re.sub match_spaces text) in
  slice_to text max_length.

(** [s.split()]: the maximal runs of characters that are not whitespace;
    [cur] holds the run being read, newest character first. *)
Fixpoint split_from (cur : str) (s : str) : list str :=
  match s with
  | [] =>
      match cur with
      | [] => []
      | _ :: _ => [rev cur]
      end
  | c :: s' =>
      if isspace c then
        match cur with
        | [] => split_from [] s'
        | _ :: _ => rev cur :: split_from [] s'
        end
      else split_from (c :: cur) s'
  end.

Definition split (s : str) : list str := split_from [] s.

(** [sep.join(l)] *)
Definition join (sep : str) (l : list str) : str :=
  match l with
  | [] => []
  | x :: l' => x ++ flat_map (fun y => sep ++ y) l'
  end.

Definition field_mapping : list (str * str) :=
  [(lit "title", lit "title");
   (lit "author", lit "author");
   (lit "category", lit "category");
   (lit "content", lit "content_html");
   (lit "url", lit "url")].

(** [d.get(key, default)] *)
Fixpoint dict_get (d : list (str * str)) (key default : str) : str :=
  match d with
  | [] => default
  | (k, v) :: d' => if eqb k key then v else dict_get d' key default
  end.

(** [[k.strip() for k in keyword.split() if k.strip()]] *)
Definition keywords_of (keyword : str) : list str :=
  map strip
      (filter (fun k => strip k <> []) (split keyword)).

(** The inner loop of [search_articles] for one keyword: the conditions
    on the fields and the parameters bound to them. *)
Definition field_conditions (search_fields : list str) : list str :=
  map (fun field => dict_get field_mapping field field ++ lit " LIKE ?")
      search_fields.

Definition field_params (kw : str) (search_fields : list str) : list str :=
  map (fun _ => [37%N] ++ kw ++ [37%N]) search_fields.

(** The part of [search_articles] that builds the query: the [WHERE]
    clause and the parameters for its placeholders. *)
Definition where_clause_of (keyword : str) (search_fields : list str)
  : str * list str :=
  let '(conditions, params) :=
    match keyword with
    | [] => ([], [])
    | _ :: _ =>
        let keywords := keywords_of keyword in
        match keywords with
        | [] => ([], [])
        | _ :: _ =>
            let keyword_conditions :=
              flat_map
                (fun kw =>
                   match field_conditions search_fields with
                   | [] => []
                   | (_ :: _) as fc =>
                       [lit "(" ++ join (lit " OR ") fc ++ lit ")"]
                   end)
                keywords in
            let params :=
              flat_map (fun kw => field_params kw search_fields) keywords in
            match keyword_conditions with
            | [] => ([], params)
            | (_ :: _) as kc =>
                ([lit "(" ++ join (lit " AND ") kc ++ lit ")"], params)
            end
        end
    end in
  let where_clause :=
    match conditions with
    | [] => []
    | _ :: _ => lit "WHERE " ++ join (lit " AND ") conditions
    end in
  (where_clause, params).

(** The two templates of [article_detail] and what the view answers: the
    404 reply, or a template rendered on the article dictionary. *)
Inductive Template := article_html | article_v2_html.

Inductive View :=
| NotFound
| Rendered (template : Template) (article : Article).

(** [SELECT id, title, author, url, category, content_html FROM articles
    WHERE id = ?] and [fetchone()], for an identifier that can be bound: a
    signed 64-bit integer.  For any other the binding raises
    [OverflowError], which is not modelled. *)
Definition select_article (article_id : Z) : M (option Row) :=
  fun st =>
    match db st with
    | Table rows => (Ok (rows !! article_id), st)
    | _ => (Raise (lit "no such table: articles"), st)
    end.

(** [article_detail(article_id)], with [v] the query parameter of that
    name when the request has one.  Nothing is caught. *)
Definition article_detail (article_id : Z) (v : option str) : M View :=
  let* _ := sqlite3_connect in
  let* row := select_article article_id in
  match row with
  | None => ret NotFound
  | Some r =>
      let article :=
        {| art_id := article_id;
           title := row_title r;
           author := row_author r;
           url := row_url r;
           category := row_category r;
           content_html := row_content_html r |} in
      let template_version :=
        match v with
        | Some x => x
        | None => if (article_id <=? 16567)%Z then lit "1" else lit "2"
        end in
      if eqb template_version (lit "2")
      then ret (Rendered article_v2_html article)
      else ret (Rendered article_html article)
  end.

End App.

(** ** Vocabulary of the statements *)

(** [m] leaves the component [f] of the world as it found it. *)
Definition stable {A X} (f : State -> X) (m : M A) : Prop :=
  forall st, f (m st).2 = f st.

(** A matcher that consumes at least one character when it matches. *)
Definition shrinking (m : Py.str -> option (Py.str * Py.str)) : Prop :=
  forall s out rest, m s = Some (out, rest) -> length rest < length s.

(** The text a piece of the markup stands for. *)
Definition piece_text (p : Re.piece) : Py.str :=
  match p with
  | Re.Lit c => [c]
  | Re.Img tag => tag
  end.

(** The pieces [re.sub] cuts the markup into. *)
Definition pieces (html_content : Py.str) : list Re.piece :=
  Re.finditer_img (length html_content) html_content.

(** What the pattern for an image tag matches: [<img], one or more
    characters other than [>], and [>]. *)
Definition is_img_tag (tag : Py.str) : Prop :=
  exists attrs, tag = Py.lit "<img" ++ attrs ++ [62%N]
                /\ attrs <> [] /\ Forall (fun c => c <> 62%N) attrs.

(** The source of an image tag that [replace_img] tries to download:
    group 1 of the first quoted [src=], when it starts with [http]. *)
Definition img_src (img_tag : Py.str) : option Py.str :=
  match Re.search_src img_tag with
  | Some v => if Py.startswith (Py.lit "http") v then Some v else None
  | None => None
  end.

(** The name of the cache file of an image URL, when the URL can be
    encoded. *)
Definition cache_name (img_url : Py.str) : option Py.str :=
  local_name img_url <$> Py.encode img_url.

(** The image URLs of a markup, in order, with repetitions. *)
Definition image_urls (html_content : Py.str) : list Py.str :=
  omap (fun p => match p with
                 | Re.Img tag => img_src tag
                 | Re.Lit _ => None
                 end) (pieces html_content).

(** A request that did not bring the image: an exception, or a status
    other than 200. *)
Definition fetch_failed (r : res Response) : Prop :=
  match r with
  | Raise _ => True
  | Ok resp => status_code resp <> 200%Z
  end.

(** The cache files that exist in [st'] and did not in [st]. *)
Definition created (st st' : State) : gset Py.str :=
  dom (images st') ∖ dom (images st).

(** A run of [mapM]: each element is handled in the state its
    predecessor left. *)
Inductive chain {A B} (R : A -> State -> B -> State -> Prop)
  : list A -> State -> list B -> State -> Prop :=
| chain_nil st : chain R [] st [] st
| chain_cons a l b bs st st1 st2 :
    R a st b st1 -> chain R l st1 bs st2 ->
    chain R (a :: l) st (b :: bs) st2.

(** What [re.sub] puts in place of one piece, from state [st] to [st']. *)
Definition piece_step (w : World) (p : Re.piece) (st : State)
    (o : Py.str) (st' : State) : Prop :=
  match p with
  | Re.Lit c => o = [c] /\ st' = st
  | Re.Img tag =>
      match img_src tag with
      | None => o = tag /\ st' = st
      | Some v =>
          (download_image w v st = (Ok None, st') /\ o = tag)
          \/ (exists name,
                cache_name v = Some name
                /\ download_image w v st = (Ok (Some (static_path name)), st')
                /\ o = Py.replace v (static_path name) tag)
      end
  end.

(** What may stand for a piece in the output: a character outside the
    tags stands for itself; a tag stands for itself, or, when it has a
    quoted source starting with [http] that [download_image] answered with
    a local path, for itself with every occurrence of that source replaced
    by the path (the path of the cache file named after the source). *)
Definition rewritten (w : World) (p : Re.piece) (o : Py.str) : Prop :=
  match p with
  | Re.Lit c => o = [c]
  | Re.Img tag =>
      o = tag
      \/ exists v name s s',
           Re.search_src tag = Some v
           /\ Py.startswith (Py.lit "http") v = true
           /\ cache_name v = Some name
           /\ download_image w v s = (Ok (Some (static_path name)), s')
           /\ o = Py.replace v (static_path name) tag
  end.

(** Where the value of the first quoted [src=] lies in a tag: what
    precedes it, the value, what follows it. *)
Fixpoint split_src (s : Py.str) : option (Py.str * Py.str * Py.str) :=
  match Re.match_src s with
  | Some v =>
      Some (Py.lit "src=" ++ take 1 (drop 4 s), v, drop (5 + length v) s)
  | None =>
      match s with
      | [] => None
      | c :: s' =>
          match split_src s' with
          | Some (pre, v, post) => Some (c :: pre, v, post)
          | None => None
          end
      end
  end.

(** A reading of the rewriting in which the value of the source
    attribute, and nothing else in the tag, gives way to [local_path]. *)
Definition src_only_replaced (img_tag local_path : Py.str)
  : option Py.str :=
  match split_src img_tag with
  | Some (pre, _, post) => Some (pre ++ local_path ++ post)
  | None => None
  end.



Definition f_body (x : Py.str * Py.str * Py.str * Py.str) : Py.str := x.2.

(** A row with its [created_at] blanked, and tables that agree on
    everything but [created_at]. *)
Definition forget_created_at (r : Row) : Row :=
  {| row_title := row_title r; row_author := row_author r;
     row_url := row_url r; row_category := row_category r;
     row_content_html := row_content_html r; row_created_at := 0 |}.

Definition same_but_created_at (a b : gmap Z Row) : Prop :=
  forget_created_at <$> a = forget_created_at <$> b.

(** The sum of the four counters. *)
Definition total (c : Counters) : nat :=
  success_count c + skip_count c + fail_count c + exists_count c.

(** The identifier a result dictionary carries under ['id']. *)
Definition result_id (r : Result) : Z :=
  match r with
  | R_exists i => i
  | R_skip i => i
  | R_error i _ => i
  | R_success a => art_id a
  end.

(** Every identifier the pool knows of, wherever it stands. *)
Definition tracked (p : Pool) : list Z :=
  queued p ++ running p ++ (finished p).*1 ++ collected p.

(** The steps the pool still has to make: three for a queued identifier,
    two for a running one, one for a finished one. *)
Definition work (p : Pool) : nat :=
  3 * length (queued p) + 2 * length (running p) + length (finished p).

(** The identifiers whose task a schedule runs, and those whose future it
    consumes, in order. *)
Definition finishes (sched : list Step) : list Z :=
  omap (fun s => match s with Finish i => Some i | _ => None end) sched.

Definition collects (sched : list Step) : list Z :=
  omap (fun s => match s with Collect i => Some i | _ => None end) sched.

(** A pool all of whose identifiers are, or were found, in the table
    [rows]: those still to run are stored, the futures waiting are
    [exists] results, and nothing else has been counted. *)
Definition all_stored (rows : gmap Z Row) (p : Pool) : Prop :=
  (forall i, i ∈ queued p ++ running p -> is_Some (rows !! i))
  /\ Forall (fun f => exists j, f.2 = Ok (R_exists j)) (finished p)
  /\ success_count (counts p) = 0
  /\ skip_count (counts p) = 0
  /\ fail_count (counts p) = 0.

(** A table every row of which carries the URL of its own identifier, as
    the rows written by the scraper do. *)
Definition consistent (rows : gmap Z Row) : Prop :=
  forall j r, rows !! j = Some r -> row_url r = article_url j.

(** What the future of identifier [i] may hold, against the table [rows]:
    a result for [i]; if it says the article exists, [i] is in the table;
    if it is a success, it carries the URL of [i]. *)
Definition future_ok (rows : gmap Z Row) (i : Z) (fut : res Result)
  : Prop :=
  match fut with
  | Ok r =>
      result_id r = i
      /\ match r with
         | R_exists _ => is_Some (rows !! i)
         | R_success a => url a = article_url i
         | _ => True
         end
  | Raise _ => True
  end.

(** The table is consistent, the waiting futures are sound against it,
    and as long as nothing was skipped or failed every identifier whose
    future was consumed is in the table. *)
Definition run_inv (p : Pool) (st : State) : Prop :=
  exists rows,
    db st = Table rows
    /\ consistent rows
    /\ Forall (fun f => future_ok rows f.1 f.2) (finished p)
    /\ (skip_count (counts p) + fail_count (counts p) = 0 ->
        forall i, i ∈ collected p -> is_Some (rows !! i)).

(** The counters of a run that found every identifier stored. *)
Definition only_exists (n : nat) : Counters :=
  {| success_count := 0; skip_count := 0; fail_count := 0;
     exists_count := n |}.

(** ** Sample worlds *)

Definition sample_element (s : Py.str) : Element :=
  {| inner_text := s; inner_html := s |}.

(** A page with an optional title element and an optional legacy body. *)
Definition sample_page (title_text body : option Py.str) : Page :=
  {| query_selector := fun sel =>
       if Py.eqb sel sel_title then sample_element <$> title_text
       else if Py.eqb sel sel_legacy_body then sample_element <$> body
       else None |}.

(** A world in which every navigation ends on [page] and every HTTP
    request is answered with [status] and three bytes. *)
Definition sample_world (page : Page) (status : Z) : World :=
  {| playwright_start := fun _ => Ok tt;
     chromium_launch := fun _ => Ok tt;
     page_goto := fun _ _ _ => Ok page;
     page_evaluate := fun _ _ p => Ok p;
     browser_close := fun _ => Ok tt;
     playwright_stop := fun _ => Ok tt;
     requests_get := fun _ _ =>
       Ok {| status_code := status; content := [1; 2; 3]%N |};
     open_wb := fun _ _ => Ok tt;
     file_write := fun _ _ => Ok tt;
     sqlite_write := fun _ => Ok tt |}.

(** A world whose server fails the first request and answers the later
    ones. *)
Definition flaky_world : World :=
  {| playwright_start := fun _ => Ok tt;
     chromium_launch := fun _ => Ok tt;
     page_goto := fun _ _ _ => Ok (sample_page None None);
     page_evaluate := fun _ _ p => Ok p;
     browser_close := fun _ => Ok tt;
     playwright_stop := fun _ => Ok tt;
     requests_get := fun t _ =>
       match t with
       | O => Raise (Py.lit "connection reset")
       | S _ => Ok {| status_code := 200; content := [] |}
       end;
     open_wb := fun _ _ => Ok tt;
     file_write := fun _ _ => Ok tt;
     sqlite_write := fun _ => Ok tt |}.

(** A world in which every navigation times out. *)
Definition timeout_world : World :=
  {| playwright_start := fun _ => Ok tt;
     chromium_launch := fun _ => Ok tt;
     page_goto := fun _ _ _ => Raise (Py.lit "Timeout 30000ms exceeded");
     page_evaluate := fun _ _ p => Ok p;
     browser_close := fun _ => Ok tt;
     playwright_stop := fun _ => Ok tt;
     requests_get := fun _ _ => Raise [];
     open_wb := fun _ _ => Ok tt;
     file_write := fun _ _ => Ok tt;
     sqlite_write := fun _ => Ok tt |}.

Definition sample_article (article_id : Z) (body : Py.str) : Article :=
  {| art_id := article_id; title := Py.lit "T"; author := unknown_author;
     url := article_url article_id; category := []; content_html := body |}.

Definition fresh (d : Database) : State :=
  {| db := d; images := ∅; now := 0; trace := [] |}.

(** ** Vocabulary for the cache, the log, the table and the search
    application *)

Definition is_hex (c : N) : bool :=
  ((48 <=? c) && (c <=? 57) || (97 <=? c) && (c <=? 102))%N.


(** [m] only ever moves the world along the relation [R]. *)
Definition keeps {A} (R : State -> State -> Prop) (m : M A) : Prop :=
  forall st, R st (m st).2.

(** Every cache file of [st] is in [st'], with the same content. *)
Definition cache_kept (st st' : State) : Prop := images st ⊆ images st'.

(** The source of a piece of the markup that [replace_img] tries to
    download. *)
Definition piece_src (p : Re.piece) : option Py.str :=
  match p with
  | Re.Img tag => img_src tag
  | Re.Lit _ => None
  end.

(** The URLs requested and the files written in a log, newest first. *)
Definition requests (evs : list Event) : list Py.str :=
  omap (fun ev => match ev with HttpGet u => Some u | _ => None end) evs.

Definition writes (evs : list Event) : list Py.str :=
  omap (fun ev => match ev with FileWrite n => Some n | _ => None end) evs.

Definition navigations (evs : list Event) : list Py.str :=
  omap (fun ev => match ev with PageGoto u => Some u | _ => None end) evs.

(** What a run of the image stage may add to the log, for the sources
    [srcs] of the pieces it handled: requests for those sources, in their
    order; files written right after the request that brought them; and no
    navigation. *)
Definition image_log (srcs : list Py.str) (evs : list Event) : Prop :=
  rev (requests evs) `sublist_of` srcs
  /\ (forall n, n ∈ writes evs ->
        exists u, u ∈ requests evs /\ cache_name u = Some n)
  /\ navigations evs = [].


(** A future waiting to be consumed, against the table [rows]: it is
    sound, and a success is for an identifier that is not in the table. *)
Definition pending_ok (rows : gmap Z Row) (f : Z * res Result) : Prop :=
  future_ok rows f.1 f.2
  /\ forall a, f.2 = Ok (R_success a) -> rows !! f.1 = None.

(** The books of a run that started on the table [rows0]: the table has
    kept every row of [rows0], has one more row for each success counted,
    and its other rows are for identifiers whose future was consumed. *)
Definition ledger (rows0 : gmap Z Row) (p : Pool) (st : State) : Prop :=
  exists rows,
    db st = Table rows
    /\ consistent rows
    /\ rows0 ⊆ rows
    /\ size rows = size rows0 + success_count (counts p)
    /\ (forall j, is_Some (rows !! j) ->
          is_Some (rows0 !! j) \/ j ∈ collected p)
    /\ Forall (pending_ok rows) (finished p)
    /\ NoDup (tracked p).

(** The two substitutions that end the modern path, and the markup they
    are applied to. *)
Definition style_cleanup (content_html : Py.str) : Py.str :=
  Re.sub Re.match_empty_style (Re.sub Re.match_hidden_style content_html).

Definition modern_body (page : Page) : Py.str :=
  match query_selector page sel_modern_body with
  | Some e => inner_html e
  | None =>
      match query_selector page sel_legacy_body with
      | Some e => inner_html e
      | None => no_content
      end
  end.

(** [needle] occurs nowhere in [s]. *)
Definition absent (needle s : Py.str) : Prop :=
  forall j, Py.startswith needle (drop j s) = false.

(** A matcher that puts part of what it consumed in its place. *)
Definition deleting (m : Py.str -> option (Py.str * Py.str)) : Prop :=
  forall s out rest,
    m s = Some (out, rest) ->
    exists used, s = used ++ rest /\ out `sublist_of` used.


(** No match of the tag pattern of [extract_text_from_html] anywhere in
    [s]. *)
Definition tagless (s : Py.str) : Prop :=
  forall j, App.match_tag (drop j s) = None.

(** The same, read off the characters: every [<] is followed at once by
    [>], or by no [>] at all. *)
Fixpoint no_tag (s : Py.str) : Prop :=
  match s with
  | [] => True
  | c :: r => (c = 60%N -> (exists r', r = 62%N :: r') \/ 62%N ∉ r) /\ no_tag r
  end.

(** Every white-space character of [s] is one space that no white space
    follows. *)
Definition single_spaced (s : Py.str) : Prop :=
  forall i c,
    s !! i = Some c -> Py.isspace c = true ->
    c = 32%N /\ forall d, s !! S i = Some d -> Py.isspace d = false.

(** A matcher whose replacement is not longer than what it consumed. *)
Definition contracting (m : Py.str -> option (Py.str * Py.str)) : Prop :=
  forall s out rest,
    m s = Some (out, rest) -> length out + length rest <= length s.

(** The number of placeholders in a piece of SQL. *)
Definition placeholders (sql : Py.str) : nat := count_occ N.eq_dec sql 63%N.

(** A search keyword: not empty, and free of white space. *)
Definition is_keyword (kw : Py.str) : Prop :=
  kw <> [] /\ Forall (fun c => Py.isspace c = false) kw.

(** What stands for a piece in the output of the image stage, against
    the cache [imgs] the stage left: the piece itself, or the tag with its
    source replaced by the path of a file that is in the cache. *)
Definition localised (imgs : gmap Py.str (list N)) (p : Re.piece)
    (o : Py.str) : Prop :=
  o = piece_text p
  \/ exists v name,
       piece_src p = Some v
       /\ cache_name v = Some name
       /\ is_Some (imgs !! name)
       /\ o = Py.replace v (static_path name) (piece_text p).

(** A world in which the cache file can be opened and the write to it
    fails. *)
Definition disk_full_world : World :=
  {| playwright_start := fun _ => Ok tt;
     chromium_launch := fun _ => Ok tt;
     page_goto := fun _ _ _ => Ok (sample_page None None);
     page_evaluate := fun _ _ p => Ok p;
     browser_close := fun _ => Ok tt;
     playwright_stop := fun _ => Ok tt;
     requests_get := fun _ _ =>
       Ok {| status_code := 200; content := [1; 2; 3]%N |};
     open_wb := fun _ _ => Ok tt;
     file_write := fun _ _ => Raise (Py.lit "No space left on device");
     sqlite_write := fun _ => Ok tt |}.

(** A world whose driver fails to stop. *)
Definition stuck_driver_world (page : Page) : World :=
  {| playwright_start := fun _ => Ok tt;
     chromium_launch := fun _ => Ok tt;
     page_goto := fun _ _ _ => Ok page;
     page_evaluate := fun _ _ p => Ok p;
     browser_close := fun _ => Ok tt;
     playwright_stop := fun _ => Raise (Py.lit "Connection closed");
     requests_get := fun _ _ =>
       Ok {| status_code := 200; content := [1; 2; 3]%N |};
     open_wb := fun _ _ => Ok tt;
     file_write := fun _ _ => Ok tt;
     sqlite_write := fun _ => Ok tt |}.

(** How many identifiers of [l] have a row in [rows]. *)
Definition stored_in (rows : gmap Z Row) (l : list Z) : nat :=
  length (filter (fun i => is_Some (rows !! i)) l).

(** The census of a run that started on the table [rows0]: the exists
    counter has counted the identifiers consumed that [rows0] held, and a
    future waiting says that the article exists exactly when [rows0] held
    its identifier. *)
Definition census (rows0 : gmap Z Row) (p : Pool) : Prop :=
  exists_count (counts p) = stored_in rows0 (collected p)
  /\ Forall (fun f => (exists j, f.2 = Ok (R_exists j))
                      <-> is_Some (rows0 !! f.1)) (finished p).

(** ** Vocabulary for the history of a run *)

(** Which counter the loop body of [main] moves for a future. *)
Inductive Verdict := V_exists | V_skip | V_fail | V_success.

(** The branch the loop body takes for the future [fut], consumed in the
    state [st]: by the ['status'] of the result; for a success, by what
    [save_article] returns; and the [except] branch for an exception. *)
Definition verdict (w : World) (fut : res Result) (st : State) : Verdict :=
  match fut with
  | Ok (R_exists _) => V_exists
  | Ok (R_skip _) => V_skip
  | Ok (R_error _ _) => V_fail
  | Ok (R_success article_data) =>
      match (save_article w article_data st).1 with
      | Ok true => V_success
      | _ => V_fail
      end
  | Raise _ => V_fail
  end.

Definition count_verdict (c : Counters) (v : Verdict) : Counters :=
  match v with
  | V_exists => add_exists c
  | V_skip => add_skip c
  | V_fail => add_fail c
  | V_success => add_success c
  end.

(** The futures a schedule consumes from a configuration on, in the
    order of the loop: the identifier, its future, and the verdict of the
    loop body on it. *)
Fixpoint history (w : World) (max_workers : Z) (sched : list Step)
    (cfg : Pool * State) : list (Z * res Result * Verdict) :=
  match sched with
  | [] => []
  | s :: sched' =>
      match step w max_workers s cfg with
      | Some (Ok p, st) =>
          match s with
          | Collect article_id =>
              match take_future article_id (finished cfg.1) with
              | Some (fut, _) => [(article_id, fut, verdict w fut cfg.2)]
              | None => []
              end
          | _ => []
          end ++ history w max_workers sched' (p, st)
      | _ => []
      end
  end.

(** The futures the tasks of a schedule leave, in the order the workers
    finish: the identifier, and what its task returned or raised in the
    state of that moment. *)
Fixpoint produced (w : World) (max_workers : Z) (sched : list Step)
    (cfg : Pool * State) : list (Z * res Result) :=
  match sched with
  | [] => []
  | s :: sched' =>
      match step w max_workers s cfg with
      | Some (Ok p, st) =>
          match s with
          | Finish article_id =>
              [(article_id, (scrape_single_article w article_id cfg.2).1)]
          | _ => []
          end ++ produced w max_workers sched' (p, st)
      | _ => []
      end
  end.

(** The future of an entry is what the task of its identifier returned
    or raised, started in some state. *)
Definition task_result (w : World) (e : Z * res Result * Verdict) : Prop :=
  exists s s', scrape_single_article w e.1.1 s = (e.1.2, s').

(** The verdict goes by the future: the status of the result decides,
    except for a success, which counts as one or as a failure. *)
Definition verdict_by_status (e : Z * res Result * Verdict) : Prop :=
  match e.1.2 with
  | Ok (R_exists _) => e.2 = V_exists
  | Ok (R_skip _) => e.2 = V_skip
  | Ok (R_error _ _) => e.2 = V_fail
  | Ok (R_success _) => e.2 = V_success \/ e.2 = V_fail
  | Raise _ => e.2 = V_fail
  end.

(** What the verdict of a consumed future says of its identifier,
    against the table [rows0] the run started on and the table [rows] of
    the moment: counted as existing, it was in [rows0]; counted as a
    success, it was not and is in [rows] now; skipped or failed, it is in
    neither. *)
Definition settled (rows0 rows : gmap Z Row)
    (e : Z * res Result * Verdict) : Prop :=
  match e.2 with
  | V_exists => is_Some (rows0 !! e.1.1)
  | V_success => rows0 !! e.1.1 = None /\ is_Some (rows !! e.1.1)
  | V_skip | V_fail => rows0 !! e.1.1 = None /\ rows !! e.1.1 = None
  end.

(** An identifier that SQLite can bind: a signed 64-bit integer. *)
Definition sqlite_int (i : Z) : Prop :=
  (- 9223372036854775808 <= i < 9223372036854775808)%Z.

(** A world whose image server is unreachable and whose driver fails to
    stop. *)
Definition stuck_offline_world (page : Page) : World :=
  {| playwright_start := fun _ => Ok tt;
     chromium_launch := fun _ => Ok tt;
     page_goto := fun _ _ _ => Ok page;
     page_evaluate := fun _ _ p => Ok p;
     browser_close := fun _ => Ok tt;
     playwright_stop := fun _ => Raise (Py.lit "Connection closed");
     requests_get := fun _ _ => Raise (Py.lit "connection refused");
     open_wb := fun _ _ => Ok tt;
     file_write := fun _ _ => Ok tt;
     sqlite_write := fun _ => Ok tt |}.

(** * Properties *)

(** ** The string layer against CPython on sample inputs *)

Example md5_empty :
  Md5.hexdigest [] = Py.lit "d41d8cd98f00b204e9800998ecf8427e".
Proof. vm_compute. reflexivity. Qed.

Example md5_abc :
  Md5.hexdigest [97; 98; 99]%N = Py.lit "900150983cd24fb0d6963f7d28e17f72".
Proof. vm_compute. reflexivity. Qed.

Example md5_two_blocks :
  Md5.hexdigest (repeat 97%N 64) = Py.lit "014842d480b571495a4a0363793f7367"
  /\ Md5.hexdigest (repeat 97%N 56) = Py.lit "3b0c8ac703f828b04c6c197006d17218"
  /\ Md5.hexdigest (repeat 97%N 55) = Py.lit "ef1772b6dff9a122358552954ad0df65".
Proof. vm_compute. auto. Qed.

Example splitext_examples :
  Py.splitext_ext (Py.lit "http://a/b.png") = Py.lit ".png"
  /\ Py.splitext_ext (Py.lit "http://example.com") = Py.lit ".com"
  /\ Py.splitext_ext (Py.lit "http://a/.x") = []
  /\ Py.splitext_ext (Py.lit "http://a/..x.y") = Py.lit ".y"
  /\ Py.splitext_ext (Py.lit "http://a.b/c") = []
  /\ Py.splitext_ext (Py.lit "http://a/b.") = Py.lit "."
  /\ Py.splitext_ext (Py.lit "http://a/...") = [].
Proof. vm_compute. repeat split. Qed.

Example of_int_examples :
  Py.of_int 0 = Py.lit "0" /\ Py.of_int 16567 = Py.lit "16567"
  /\ Py.of_int (-42) = Py.lit "-42".
Proof. vm_compute. repeat split. Qed.

Example replace_examples :
  Py.replace (Py.lit "ab") (Py.lit "X") (Py.lit "ababcab") = Py.lit "XXcX"
  /\ Py.replace (Py.lit "aa") (Py.lit "b") (Py.lit "aaa") = Py.lit "ba"
  /\ Py.replace [] (Py.lit "X") (Py.lit "abc") = Py.lit "XaXbXcX".
Proof. vm_compute. repeat split. Qed.

Example regex_examples :
  Re.finditer_img 99 (Py.lit "a<img x>b<img>c<imgs>")
  = [Re.Lit 97; Re.Img (Py.lit "<img x>"); Re.Lit 98; Re.Lit 60;
     Re.Lit 105; Re.Lit 109; Re.Lit 103; Re.Lit 62; Re.Lit 99;
     Re.Img (Py.lit "<imgs>")]%N
  /\ Re.search_src (Py.lit "<img data-src='a.png' src='b.png'>")
     = Some (Py.lit "a.png")
  /\ Re.search_src (Py.lit "<img src=a.png>") = None
  /\ Re.sub Re.match_hidden_style
       (Py.lit "<p style=" ++ [34] ++ Py.lit "color:red;display: none;x:y"
               ++ [34] ++ Py.lit ">")%N
     = (Py.lit "<p style=" ++ [34] ++ Py.lit "color:red;x:y" ++ [34]
               ++ Py.lit ">")%N
  /\ Re.sub Re.match_empty_style
       (Re.sub Re.match_hidden_style
          (Py.lit "<p style=" ++ [34] ++ Py.lit "display:none" ++ [34]
                  ++ Py.lit ">"))%N
     = Py.lit "<p >"
  /\ Re.sub Re.match_empty_style
       (Re.sub Re.match_hidden_style
          (Py.lit "<p style=" ++ [34] ++ Py.lit "display:none" ++ [34]
            ++ Py.lit " style=" ++ [34] ++ Py.lit "a" ++ [34]
            ++ Py.lit " style=" ++ [34] ++ Py.lit "display:" ++ [160]
            ++ Py.lit "none;" ++ [34] ++ Py.lit "  style=" ++ [34; 34]
            ++ Py.lit ">"))%N
     = (Py.lit "<p  style=" ++ [34] ++ Py.lit "a" ++ [34] ++ Py.lit ">")%N.
Proof. vm_compute. repeat split. Qed.

Example encode_examples :
  Py.encode [233; 8364; 128512]%N
  = Some [195; 169; 226; 130; 172; 240; 159; 152; 128]%N
  /\ Py.encode [55296]%N = None
  /\ (Md5.hexdigest <$> Py.encode (Py.lit "http://a/" ++ [25991]
                                           ++ Py.lit ".png")%N)
     = Some (Py.lit "098f38b638fa275e985f35db69d0b948").
Proof. vm_compute. repeat split. Qed.

(** ** Strings *)

Lemma eqb_true (a b : Py.str) : Py.eqb a b = true <-> a = b.
Proof. unfold Py.eqb. apply bool_decide_eq_true. Qed.

Lemma lstrip_blank (s : Py.str) :
  Py.lstrip s = [] <-> Forall (fun c => Py.isspace c = true) s.
Proof.
  induction s as [|c s IH]; simpl.
  - split; auto.
  - destruct (Py.isspace c) eqn:E.
    + rewrite IH. split; intros H.
      * constructor; assumption.
      * inversion H; assumption.
    + split; intros H; [discriminate|].
      inversion H; congruence.
Qed.

Lemma lstrip_head (s : Py.str) c r :
  Py.lstrip s = c :: r -> Py.isspace c = false.
Proof.
  induction s as [|x s IH]; simpl; [discriminate|].
  destruct (Py.isspace x) eqn:E; auto.
  intros H; inversion H; subst; assumption.
Qed.

Lemma lstrip_suffix (s : Py.str) : exists p, s = p ++ Py.lstrip s
  /\ Forall (fun c => Py.isspace c = true) p.
Proof.
  induction s as [|x s [p [IH1 IH2]]]; simpl.
  - exists []. split; auto.
  - destruct (Py.isspace x) eqn:E.
    + exists (x :: p). split; [simpl; congruence | constructor; auto].
    + exists []. split; auto.
Qed.

(** [s.strip() == ''] exactly when every character of [s] is white space
    (the empty string included). *)
Lemma strip_blank (s : Py.str) :
  Py.strip s = [] <-> Forall (fun c => Py.isspace c = true) s.
Proof.
  unfold Py.strip, Py.rstrip.
  split.
  - intros H.
    assert (H1 : Py.lstrip (rev (Py.lstrip s)) = []).
    { apply (f_equal (@rev N)) in H. rewrite rev_involutive in H. exact H. }
    apply lstrip_blank in H1.
    apply Forall_rev in H1. rewrite rev_involutive in H1.
    destruct (Py.lstrip s) as [|c r] eqn:E.
    + apply lstrip_blank; assumption.
    + apply lstrip_head in E. inversion H1; congruence.
  - intros H. apply lstrip_blank in H. rewrite H. reflexivity.
Qed.

(** ** What a computation leaves untouched *)

Section Stable.
Context {X : Type} (f : State -> X).

Lemma stable_ret {A} (a : A) : stable f (ret a).
Proof. intros st; reflexivity. Qed.

Lemma stable_raise {A} e : stable f (@raise A e).
Proof. intros st; reflexivity. Qed.

Lemma stable_bind {A B} (m : M A) (k : A -> M B) :
  stable f m -> (forall a, stable f (k a)) -> stable f (bind m k).
Proof.
  intros Hm Hk st. unfold bind. specialize (Hm st).
  destruct (m st) as [[a|e] st']; simpl in *.
  - rewrite Hk. exact Hm.
  - exact Hm.
Qed.

Lemma stable_try {A} (m : M A) (h : Py.str -> M A) :
  stable f m -> (forall e, stable f (h e)) -> stable f (try_except m h).
Proof.
  intros Hm Hh st. unfold try_except. specialize (Hm st).
  destruct (m st) as [[a|e] st']; simpl in *.
  - exact Hm.
  - rewrite Hh. exact Hm.
Qed.

Lemma stable_mapM {A B} (g : A -> M B) (l : list A) :
  (forall a, stable f (g a)) -> stable f (mapM g l).
Proof.
  intros Hg. induction l as [|a l IH]; simpl.
  - apply stable_ret.
  - apply stable_bind; [apply Hg|]. intros b.
    apply stable_bind; [apply IH|]. intros bs. apply stable_ret.
Qed.
End Stable.

Lemma stable_outside_db {A} (answer : nat -> res A) ev :
  stable db (outside answer ev).
Proof. intros st; reflexivity. Qed.

Lemma stable_outside_images {A} (answer : nat -> res A) ev :
  stable images (outside answer ev).
Proof. intros st; reflexivity. Qed.

Lemma stable_connect {X} (f : State -> X) : stable f sqlite3_connect.
Proof. intros st. unfold sqlite3_connect. destruct (db st); reflexivity. Qed.

Lemma stable_select {X} (f : State -> X) i : stable f (select_one i).
Proof. intros st. unfold select_one. destruct (db st); reflexivity. Qed.

Lemma stable_article_exists {X} (f : State -> X) i :
  stable f (article_exists i).
Proof.
  apply stable_bind; [apply stable_connect|]. intros _. apply stable_select.
Qed.

(** The existence probe reads and changes nothing. *)
Lemma article_exists_pure i st : (article_exists i st).2 = st.
Proof. apply (stable_article_exists (fun s => s) i st). Qed.

Lemma stable_write_file_db w name data : stable db (write_file w name data).
Proof.
  intros st. unfold write_file.
  destruct (open_wb w (now st) name); [|reflexivity].
  destruct (file_write w (S (now st)) name); reflexivity.
Qed.

Lemma stable_download_db w u : stable db (download_image w u).
Proof.
  unfold download_image. apply stable_try; [|intros; apply stable_ret].
  apply stable_bind.
  { unfold encode_utf8. destruct (Py.encode u);
      [apply stable_ret | apply stable_raise]. }
  intros bytes. apply stable_bind; [intros st; reflexivity|].
  intros [|]; [apply stable_ret|].
  apply stable_bind; [apply stable_outside_db|]. intros resp.
  destruct (status_code resp =? 200)%Z; [|apply stable_ret].
  apply stable_bind; [apply stable_write_file_db|]. intros; apply stable_ret.
Qed.

Lemma stable_replace_img_db w tag : stable db (replace_img w tag).
Proof.
  unfold replace_img. destruct (Re.search_src tag) as [v|]; [|apply stable_ret].
  destruct (Py.startswith _ v); [|apply stable_ret].
  apply stable_bind; [apply stable_download_db|].
  intros [[|c p]|]; apply stable_ret.
Qed.

Lemma stable_process_db w html : stable db (process_images_in_html w html).
Proof.
  unfold process_images_in_html. apply stable_bind; [|intros; apply stable_ret].
  apply stable_mapM. intros [c|tag]; simpl;
    [apply stable_ret | apply stable_replace_img_db].
Qed.

Lemma stable_render_db w i u : stable db (render w i u).
Proof.
  unfold render, render_legacy, render_modern.
  destruct (i <=? ARTICLE_VERSION_THRESHOLD)%Z.
  - apply stable_bind; [apply stable_outside_db|]. intros; apply stable_ret.
  - repeat (apply stable_bind; [apply stable_outside_db|]; intros ?).
    apply stable_ret.
Qed.

Lemma stable_with_playwright_db {A} w (body : M A) :
  stable db body -> stable db (with_playwright w body).
Proof.
  intros Hb. unfold with_playwright.
  apply stable_bind; [apply stable_outside_db|]. intros _ st.
  specialize (Hb st). destruct (body st) as [r st1]. simpl in Hb.
  destruct (playwright_stop w (now st1)); simpl; exact Hb.
Qed.

(** A task never writes to the table: only the parent does. *)
Lemma stable_scrape_db w i : stable db (scrape_single_article w i).
Proof.
  unfold scrape_single_article.
  apply stable_bind; [apply stable_article_exists|].
  intros [|]; [apply stable_ret|].
  apply stable_try; [|intros; apply stable_ret].
  apply stable_with_playwright_db. unfold scrape_page.
  apply stable_bind; [apply stable_outside_db|]. intros _.
  apply stable_bind; [apply stable_render_db|]. intros [[[t a] c] h].
  apply stable_bind; [apply stable_outside_db|]. intros _.
  destruct (is_empty_article t i); [apply stable_ret|].
  apply stable_bind; [apply stable_process_db|]. intros; apply stable_ret.
Qed.

(** ** The empty-article filter *)

Lemma is_empty_article_iff (t : Py.str) (article_id : Z) :
  is_empty_article t article_id = true
  <-> t = [] \/ Forall (fun c => Py.isspace c = true) t
      \/ t = title_placeholder article_id.
Proof.
  unfold is_empty_article.
  rewrite !orb_true_iff, !eqb_true, strip_blank.
  split.
  - intros [[H|H]|H]; auto.
    destruct t; [auto | discriminate].
  - intros [H|[H|H]]; auto.
    subst t. left; right; reflexivity.
Qed.

(** C5 as stated fails where the driver does not stop: the page has a
    blank title, the check is true for it, and the task returns the error
    result, which the parent counts as a failure. *)
Lemma empty_article_not_always_skipped :
  let w := stuck_driver_world (sample_page (Some (Py.lit "  ")) None) in
  let st := fresh (Table ∅) in
  (exists a c h st2,
      render w 12 (article_url 12) (tick [] (tick [] st))
      = (Ok ([], a, c, h), st2))
  /\ is_empty_article [] 12 = true
  /\ exists st',
       scrape_single_article w 12 st
       = (Ok (R_error 12 (Py.lit "Connection closed")), st')
       /\ (collect w (Ok (R_error 12 (Py.lit "Connection closed")))
                   no_counts st').1
          = Ok (add_fail no_counts).
Proof.
  split; [|split].
  - eexists _, _, _, _. vm_compute. reflexivity.
  - reflexivity.
  - eexists. split; vm_compute; reflexivity.
Qed.

(** C5 (amended). [is_empty_article title id] is true exactly when the
    title is empty, consists of white space only, or is the placeholder
    made from the identifier.  In a task that gets a title for which it is
    true (the identifier is not in the table, the driver and the browser
    start, the page renders with that title, the browser closes), the body
    of the [with] block returns the skip result and the table is left as
    it was; the task returns the skip result when the driver then stops,
    and the parent counts a skip without writing; when the driver fails to
    stop, the task returns the error result with the message of that
    failure, and the parent counts a failure without writing. *)
Theorem empty_article_skipped (t : Py.str) (article_id : Z) :
  (is_empty_article t article_id = true
   <-> t = [] \/ Forall (fun c => Py.isspace c = true) t
       \/ t = title_placeholder article_id)
  /\ (is_empty_article t article_id = true ->
      forall (w : World) (st st0 st1 st2 st3 : State) (a c h : Py.str),
        article_exists article_id st = (Ok false, st) ->
        outside (playwright_start w) [] st = (Ok tt, st0) ->
        outside (chromium_launch w) [] st0 = (Ok tt, st1) ->
        render w article_id (article_url article_id) st1
          = (Ok (t, a, c, h), st2) ->
        outside (browser_close w) [] st2 = (Ok tt, st3) ->
        scrape_page w article_id (article_url article_id) st0
        = (Ok (R_skip article_id), st3)
        /\ db (tick [] st3) = db st
        /\ (playwright_stop w (now st3) = Ok tt ->
            scrape_single_article w article_id st
            = (Ok (R_skip article_id), tick [] st3)
            /\ forall n : Counters,
                collect w (Ok (R_skip article_id)) n (tick [] st3)
                = (Ok (add_skip n), tick [] st3))
        /\ (forall e,
              playwright_stop w (now st3) = Raise e ->
              scrape_single_article w article_id st
              = (Ok (R_error article_id e), tick [] st3)
              /\ forall n : Counters,
                  collect w (Ok (R_error article_id e)) n (tick [] st3)
                  = (Ok (add_fail n), tick [] st3))).
Proof.
  split; [apply is_empty_article_iff|].
  intros He w st st0 st1 st2 st3 a c h Hx Hs Hl Hr Hc.
  assert (Hbody : scrape_page w article_id (article_url article_id) st0
                  = (Ok (R_skip article_id), st3)).
  { unfold scrape_page, bind. rewrite Hl, Hr, Hc, He. reflexivity. }
  assert (Htask : forall q,
             playwright_stop w (now st3) = q ->
             scrape_single_article w article_id st
             = (match q with
                | Ok _ => Ok (R_skip article_id)
                | Raise e => Ok (R_error article_id e)
                end, tick [] st3)).
  { intros q Hq.
    unfold scrape_single_article, with_playwright, bind, try_except.
    rewrite Hx, Hs, Hbody. simpl. rewrite Hq. destruct q; reflexivity. }
  split; [exact Hbody|]. split; [|split].
  - pose proof (stable_scrape_db w article_id st) as H.
    rewrite (Htask _ eq_refl) in H. exact H.
  - intros Hq. split; [apply (Htask _ Hq)|]. intros n. reflexivity.
  - intros e Hq. split; [apply (Htask _ Hq)|]. intros n. reflexivity.
Qed.

Lemma empty_article_skipped_witness :
  exists st3,
    scrape_single_article
      (sample_world (sample_page (Some (Py.lit "  ")) None) 200) 12
      (fresh (Table ∅)) = (Ok (R_skip 12), st3)
    /\ db st3 = Table ∅.
Proof.
  eexists.
  refine (let H := proj2 (empty_article_skipped [] 12) eq_refl
            (sample_world (sample_page (Some (Py.lit "  ")) None) 200)
            (fresh (Table ∅)) _ _ _ _ [26410; 30693; 20316; 32773]%N []
            no_content eq_refl eq_refl eq_refl eq_refl eq_refl
          in conj (proj1 (proj1 (proj2 (proj2 H)) eq_refl))
                  (proj1 (proj2 H))).
Defined.

(** ** Schema selection and field extraction *)

(** C8. The extraction path is chosen by comparing the identifier with the
    constant 16567 and by nothing else: at or below it the legacy path
    runs, above it the modern path, in every world and state; the
    threshold itself is legacy. *)
Theorem schema_selection (w : World) (article_id : Z) (url : Py.str) :
  ARTICLE_VERSION_THRESHOLD = 16567%Z
  /\ ((article_id <= ARTICLE_VERSION_THRESHOLD)%Z ->
      render w article_id url = render_legacy w article_id url)
  /\ ((ARTICLE_VERSION_THRESHOLD < article_id)%Z ->
      render w article_id url = render_modern w article_id url)
  /\ render w ARTICLE_VERSION_THRESHOLD url
     = render_legacy w ARTICLE_VERSION_THRESHOLD url.
Proof.
  unfold render. repeat split.
  - intros H. apply Z.leb_le in H. rewrite H. reflexivity.
  - intros H. apply Z.leb_gt in H. rewrite H. reflexivity.
Qed.

Lemma schema_selection_witness :
  render (sample_world (sample_page None None) 200) 16567 []
  = render_legacy (sample_world (sample_page None None) 200) 16567 []
  /\ render (sample_world (sample_page None None) 200) 16568 []
     = render_modern (sample_world (sample_page None None) 200) 16568 [].
Proof.
  split.
  - apply (proj1 (proj2 (schema_selection
             (sample_world (sample_page None None) 200) 16567 []))).
    vm_compute. discriminate.
  - apply (proj1 (proj2 (proj2 (schema_selection
             (sample_world (sample_page None None) 200) 16568 [])))).
    vm_compute. reflexivity.
Defined.

(** The two paths are told apart by what they ask of the browser. *)
Example schema_paths_differ :
  (render_legacy (sample_world (sample_page None None) 200) 1 []
     (fresh NoTable)).2
  <> (render_modern (sample_world (sample_page None None) 200) 1 []
        (fresh NoTable)).2.
Proof. vm_compute. discriminate. Qed.




(** ** The record writer *)

Lemma replace_row_lookup_eq (a : Article) t (rows : gmap Z Row) :
  replace_row a t rows !! art_id a = Some (row_of a t).
Proof. unfold replace_row. apply lookup_insert_eq. Qed.

Lemma replace_row_lookup_ne (a : Article) t (rows : gmap Z Row) j r :
  j <> art_id a ->
  replace_row a t rows !! j = Some r
  <-> rows !! j = Some r /\ row_url r <> url a.
Proof.
  intros Hj. unfold replace_row.
  rewrite lookup_insert_ne by congruence.
  rewrite map_lookup_filter_Some. reflexivity.
Qed.

(** Writing twice is writing once at the later time. *)
Lemma replace_row_twice (a : Article) t1 t2 (rows : gmap Z Row) :
  replace_row a t2 (replace_row a t1 rows) = replace_row a t2 rows.
Proof.
  apply map_eq. intros j.
  destruct (decide (j = art_id a)) as [->|Hj].
  - rewrite !replace_row_lookup_eq. reflexivity.
  - apply option_eq. intros r.
    rewrite !replace_row_lookup_ne by assumption.
    tauto.
Qed.

Lemma replace_row_same_but_created_at (a : Article) t1 t2
    (rows : gmap Z Row) :
  same_but_created_at (replace_row a t1 rows) (replace_row a t2 rows).
Proof.
  unfold same_but_created_at, replace_row.
  rewrite !fmap_insert. reflexivity.
Qed.

Lemma save_article_written w (a : Article) st rows :
  db st = Table rows ->
  sqlite_write w (now st) = Ok tt ->
  save_article w a st
  = (Ok true,
     {| db := Table (replace_row a (now st) rows); images := images st;
        now := S (now st); trace := trace st |}).
Proof.
  intros Hdb Hw.
  unfold save_article, bind, try_except, sqlite3_connect, insert_or_replace.
  rewrite Hdb. simpl. rewrite Hdb, Hw. reflexivity.
Qed.

(** With the connection open, every failure of the statement is turned
    into [False] and the table is left as it was. *)
Lemma save_article_caught w (a : Article) st :
  db st <> Unopenable ->
  exists b st', save_article w a st = (Ok b, st')
                /\ (b = false -> db st' = db st).
Proof.
  intros Hdb.
  unfold save_article, bind, try_except, sqlite3_connect, insert_or_replace.
  destruct (db st) as [| |rows] eqn:E; [congruence| |].
  - simpl. rewrite E. eexists _, _. split; [reflexivity|auto].
  - simpl. rewrite E. destruct (sqlite_write w (now st)) as [u|e].
    + eexists _, _. split; [reflexivity|discriminate].
    + eexists _, _. split; [reflexivity|auto].
Qed.

Lemma save_article_unopenable w (a : Article) st :
  db st = Unopenable ->
  save_article w a st = (Raise (Py.lit "unable to open database file"), st).
Proof.
  intros Hdb. unfold save_article, bind, sqlite3_connect. rewrite Hdb.
  reflexivity.
Qed.

(** C4 as stated fails where the connection cannot be opened: the call to
    [sqlite3.connect] stands before the [try], so its exception reaches the
    caller. *)
Lemma save_article_can_raise :
  save_article (sample_world (sample_page None None) 200)
               (sample_article 1 []) (fresh Unopenable)
  = (Raise (Py.lit "unable to open database file"), fresh Unopenable).
Proof. reflexivity. Qed.

(** With the connection open, [save_article] returns [True] exactly when
    the statement and the commit went through. *)
Lemma save_article_failed w (a : Article) st :
  (forall rows e,
      db st = Table rows ->
      sqlite_write w (now st) = Raise e ->
      save_article w a st = (Ok false, tick [] st))
  /\ (db st = NoTable -> save_article w a st = (Ok false, st)).
Proof.
  split.
  - intros rows e Hdb Hw.
    unfold save_article, bind, try_except, sqlite3_connect,
      insert_or_replace.
    rewrite Hdb. simpl. rewrite Hdb, Hw. reflexivity.
  - intros Hdb.
    unfold save_article, bind, try_except, sqlite3_connect,
      insert_or_replace.
    rewrite Hdb. simpl. rewrite Hdb. reflexivity.
Qed.

(** C4 (amended). [save_article] replaces the whole row of its identifier
    (the stored row is built from the new fields alone, rows in conflict on
    the URL are deleted, every other row is kept); when the insert or the
    commit fails - the engine refuses the write, or the file has no
    [articles] table - it returns [False] without raising and leaves the
    table as it was, so that with the connection open it returns [True]
    exactly when the row was written; a failure to open the connection is
    raised to the caller; and it is idempotent: a second write of the same
    record leaves the table a single write at that later time would leave,
    which is the table of the first write except for [created_at], now the
    time of the second write. *)
Theorem save_article_replace (w : World) (a : Article) (st : State) :
  (db st <> Unopenable ->
   exists b st', save_article w a st = (Ok b, st')
                 /\ (b = false -> db st' = db st))
  /\ (db st = Unopenable -> exists e, save_article w a st = (Raise e, st))
  /\ (forall rows,
        db st = Table rows ->
        sqlite_write w (now st) = Ok tt ->
        exists st1 rows1,
          save_article w a st = (Ok true, st1)
          /\ db st1 = Table rows1
          /\ rows1 !! art_id a = Some (row_of a (now st))
          /\ (forall j r, j <> art_id a ->
                rows1 !! j = Some r
                <-> rows !! j = Some r /\ row_url r <> url a)
          /\ (forall st1',
                db st1' = db st1 ->
                sqlite_write w (now st1') = Ok tt ->
                exists st2 rows2,
                  save_article w a st1' = (Ok true, st2)
                  /\ db st2 = Table rows2
                  /\ rows2 = replace_row a (now st1') rows
                  /\ same_but_created_at rows2 rows1
                  /\ row_created_at <$> rows2 !! art_id a
                     = Some (now st1')))
  /\ (forall rows e,
        db st = Table rows ->
        sqlite_write w (now st) = Raise e ->
        save_article w a st = (Ok false, tick [] st)
        /\ db (tick [] st) = Table rows)
  /\ (db st = NoTable -> save_article w a st = (Ok false, st))
  /\ (forall b st',
        save_article w a st = (Ok b, st') ->
        b = true
        <-> exists rows,
              db st = Table rows /\ sqlite_write w (now st) = Ok tt).
Proof.
  split; [apply save_article_caught|].
  split.
  { intros H. eexists. apply save_article_unopenable, H. }
  split.
  { intros rows Hdb Hw.
    eexists _, _. split; [apply (save_article_written w a st rows Hdb Hw)|].
    simpl. split; [reflexivity|].
    split; [apply replace_row_lookup_eq|].
    split; [intros j r Hj; apply replace_row_lookup_ne, Hj|].
    intros st1' Hdb' Hw'.
    eexists _, _.
    split; [apply (save_article_written w a st1' _ Hdb' Hw')|].
    simpl. split; [reflexivity|].
    split; [apply replace_row_twice|].
    split.
    - rewrite replace_row_twice. apply replace_row_same_but_created_at.
    - rewrite replace_row_lookup_eq. reflexivity. }
  destruct (save_article_failed w a st) as [Hfail Hnone].
  split.
  { intros rows e Hdb Hw. split; [eapply Hfail; eassumption|exact Hdb]. }
  split; [exact Hnone|].
  intros b st' Hs. destruct (db st) as [| |rows] eqn:Hdb.
  - rewrite (save_article_unopenable w a st Hdb) in Hs. discriminate.
  - rewrite (Hnone eq_refl) in Hs. injection Hs as <- _.
    split; [discriminate|]. intros (rows & [=] & _).
  - destruct (sqlite_write w (now st)) as [[]|e] eqn:Hw.
    + rewrite (save_article_written w a st rows Hdb Hw) in Hs.
      injection Hs as <- _. split; [eauto|reflexivity].
    + rewrite (Hfail rows e eq_refl eq_refl) in Hs. injection Hs as <- _.
      split; [discriminate|]. intros (rows' & _ & [=]).
Qed.

Lemma save_article_replace_witness :
  exists st1 rows1,
    save_article (sample_world (sample_page None None) 200)
                 (sample_article 1 []) (fresh (Table ∅)) = (Ok true, st1)
    /\ db st1 = Table rows1
    /\ rows1 !! 1%Z = Some (row_of (sample_article 1 []) 0).
Proof.
  destruct (proj1 (proj2 (proj2 (save_article_replace
              (sample_world (sample_page None None) 200)
              (sample_article 1 []) (fresh (Table ∅))))) ∅ eq_refl eq_refl)
    as (st1 & rows1 & H1 & H2 & H3 & _).
  exists st1, rows1. auto.
Defined.

(** ** The image pattern *)

Lemma startswith_app (p s : Py.str) :
  Py.startswith p s = true -> s = p ++ drop (length p) s.
Proof.
  revert s. induction p as [|a p IH]; intros [|b s]; simpl; try discriminate.
  - reflexivity.
  - reflexivity.
  - intros H. apply andb_true_iff in H as [H1 H2].
    apply N.eqb_eq in H1. subst b. f_equal. apply IH, H2.
Qed.

Lemma strip_prefix_app (p s r : Py.str) :
  Re.strip_prefix p s = Some r -> s = p ++ r.
Proof.
  unfold Re.strip_prefix. destruct (Py.startswith p s) eqn:E; [|discriminate].
  intros [= <-]. apply startswith_app, E.
Qed.

Lemma span_app (p : N -> bool) (s a b : Py.str) :
  Re.span p s = (a, b) ->
  s = a ++ b /\ Forall (fun c => p c = true) a
  /\ match b with c :: _ => p c = false | [] => True end.
Proof.
  revert a b. induction s as [|c s IH]; simpl; intros a b.
  - intros [= <- <-]. auto.
  - destruct (p c) eqn:E.
    + destruct (Re.span p s) as [a' b'] eqn:E'. intros [= <- <-].
      destruct (IH a' b' eq_refl) as (-> & H1 & H2).
      split; [reflexivity|]. split; [constructor; assumption|assumption].
    + intros [= <- <-]. auto.
Qed.

Lemma match_img_sound (s tag rest : Py.str) :
  Re.match_img s = Some (tag, rest) ->
  s = tag ++ rest /\ is_img_tag tag.
Proof.
  unfold Re.match_img.
  destruct (Re.strip_prefix (Py.lit "<img") s) as [r|] eqn:Ep; [|discriminate].
  destruct (Re.span (fun c => negb (c =? 62)%N) r) as [attrs b] eqn:Es.
  destruct attrs as [|x attrs]; [discriminate|].
  destruct b as [|gt b]; [discriminate|].
  intros [= <- <-].
  apply strip_prefix_app in Ep. apply span_app in Es as (Hr & Ha & Hb).
  apply negb_false_iff, N.eqb_eq in Hb. subst gt.
  split.
  - rewrite Ep, Hr.
    change (Py.lit "<img" ++ (x :: attrs) ++ 62%N :: b
            = (Py.lit "<img" ++ (x :: attrs) ++ [62%N]) ++ b).
    rewrite <- !app_assoc. reflexivity.
  - exists (x :: attrs). split; [reflexivity|]. split; [discriminate|].
    eapply Forall_impl; [exact Ha|].
    intros c Hc. simpl in Hc. apply negb_true_iff, N.eqb_neq in Hc. exact Hc.
Qed.

Lemma finditer_img_sound (fuel : nat) (s : Py.str) :
  length s <= fuel ->
  concat (map piece_text (Re.finditer_img fuel s)) = s
  /\ Forall (fun p => match p with
                      | Re.Img tag => is_img_tag tag
                      | Re.Lit _ => True
                      end) (Re.finditer_img fuel s).
Proof.
  revert s. induction fuel as [|fuel IH]; intros s Hlen.
  - destruct s; [simpl; auto | simpl in Hlen; lia].
  - destruct s as [|c s]; [simpl; auto|].
    cbn [Re.finditer_img].
    destruct (Re.match_img (c :: s)) as [[tag rest]|] eqn:Em.
    + apply match_img_sound in Em as (Hs & Htag).
      assert (Hr : length rest <= fuel).
      { apply (f_equal (@length N)) in Hs. rewrite length_app in Hs.
        destruct Htag as (attrs & -> & _). simpl in Hs, Hlen. lia. }
      destruct (IH rest Hr) as (H1 & H2).
      split.
      * simpl. rewrite H1. symmetry. exact Hs.
      * constructor; assumption.
    + simpl in Hlen. destruct (IH s ltac:(lia)) as (H1 & H2).
      split.
      * simpl. rewrite H1. reflexivity.
      * constructor; [exact I|assumption].
Qed.

(** The pieces are the markup, cut; every piece marked as a tag is a match
    of the image pattern. *)
Lemma pieces_sound (html : Py.str) :
  concat (map piece_text (pieces html)) = html
  /\ Forall (fun p => match p with
                      | Re.Img tag => is_img_tag tag
                      | Re.Lit _ => True
                      end) (pieces html).
Proof. apply finditer_img_sound. reflexivity. Qed.

(** ** [re.sub] does not run out of fuel *)

Lemma sub_from_fuel m :
  shrinking m ->
  forall fuel1 fuel2 s,
    length s <= fuel1 -> length s <= fuel2 ->
    Re.sub_from fuel1 m s = Re.sub_from fuel2 m s.
Proof.
  intros Hm. induction fuel1 as [|fuel1 IH]; intros fuel2 s H1 H2.
  - destruct s; [|simpl in H1; lia]. destruct fuel2; reflexivity.
  - destruct s as [|c s]; [destruct fuel2; reflexivity|].
    destruct fuel2 as [|fuel2]; [simpl in H2; lia|].
    cbn [Re.sub_from]. simpl in H1, H2.
    destruct (m (c :: s)) as [[out rest]|] eqn:E.
    + apply Hm in E. simpl in E. f_equal. apply IH; lia.
    + f_equal. apply IH; lia.
Qed.

(** The equations of [re.sub]: at each position, the replacement of the
    match and the rest after it, or the character and the next position. *)
Lemma sub_eqn m :
  shrinking m ->
  Re.sub m [] = []
  /\ forall c s,
      Re.sub m (c :: s)
      = match m (c :: s) with
        | Some (out, rest) => out ++ Re.sub m rest
        | None => c :: Re.sub m s
        end.
Proof.
  intros Hm. split; [reflexivity|]. intros c s.
  unfold Re.sub. cbn [length Re.sub_from].
  destruct (m (c :: s)) as [[out rest]|] eqn:E; [|reflexivity].
  apply Hm in E. simpl in E. f_equal. apply sub_from_fuel; [exact Hm|lia|lia].
Qed.

Lemma match_hidden_style_shrinking : shrinking Re.match_hidden_style.
Proof.
  intros s out rest. unfold Re.match_hidden_style.
  destruct (Re.strip_prefix (Py.lit "style=" ++ [Re.quote]) s) as [r|] eqn:Ep;
    [|discriminate].
  destruct (Re.span (fun c => negb (c =? Re.quote)%N) r) as [v b] eqn:Es.
  destruct b as [|q b]; [discriminate|].
  destruct (Re.find_display_none v) as [[g1 g2]|]; [|discriminate].
  intros [= _ <-].
  apply strip_prefix_app in Ep. apply span_app in Es as (Hr & _ & _).
  subst s r. rewrite !length_app. simpl. lia.
Qed.

Lemma match_empty_style_shrinking : shrinking Re.match_empty_style.
Proof.
  intros s out rest. unfold Re.match_empty_style.
  destruct (Re.strip_prefix Re.empty_style (Py.lstrip s)) as [r|] eqn:Ep;
    [|discriminate].
  intros [= _ <-]. apply strip_prefix_app in Ep.
  destruct (lstrip_suffix s) as (p & Hs & _).
  rewrite Hs, Ep, !length_app. simpl. lia.
Qed.

(** ** One image *)

Lemma static_path_cons (name : Py.str) :
  exists c p, static_path name = c :: p.
Proof. eexists _, _. reflexivity. Qed.

(** A cached image is served from the cache: nothing is asked of the
    network and nothing changes. *)
Lemma download_image_cached w v st name :
  cache_name v = Some name ->
  is_Some (images st !! name) ->
  download_image w v st = (Ok (Some (static_path name)), st).
Proof.
  unfold cache_name. intros Hn Hc.
  unfold download_image, try_except, bind, encode_utf8, path_exists.
  destruct (Py.encode v) as [bytes|]; [|discriminate].
  simpl in Hn. injection Hn as <-. simpl.
  rewrite bool_decide_eq_true_2 by assumption. reflexivity.
Qed.

Lemma download_image_unencodable w v st :
  cache_name v = None -> download_image w v st = (Ok None, st).
Proof.
  unfold cache_name. intros Hn.
  unfold download_image, try_except, bind, encode_utf8.
  destruct (Py.encode v) as [bytes|]; [discriminate|]. reflexivity.
Qed.

Lemma not_cached (st : State) (name : Py.str) :
  images st !! name = None ->
  bool_decide (is_Some (images st !! name)) = false.
Proof.
  intros H. apply bool_decide_eq_false_2. rewrite H. intros [x Hx].
  discriminate.
Qed.

(** A failed request leaves [None] and nothing but the request behind. *)
Lemma download_image_failed w v st name :
  cache_name v = Some name ->
  images st !! name = None ->
  fetch_failed (requests_get w (now st) v) ->
  download_image w v st = (Ok None, tick [HttpGet v] st).
Proof.
  unfold cache_name. intros Hn Hc Hf.
  unfold download_image, try_except, bind, encode_utf8, path_exists, outside.
  destruct (Py.encode v) as [bytes|]; [|discriminate].
  simpl in Hn. injection Hn as <-. simpl.
  rewrite (not_cached _ _ Hc).
  destruct (requests_get w (now st) v) as [resp|e]; simpl in *.
  - apply Z.eqb_neq in Hf. rewrite Hf. reflexivity.
  - reflexivity.
Qed.

Lemma download_image_fetched w v st name resp :
  cache_name v = Some name ->
  images st !! name = None ->
  requests_get w (now st) v = Ok resp ->
  status_code resp = 200%Z ->
  open_wb w (S (now st)) name = Ok tt ->
  file_write w (S (S (now st))) name = Ok tt ->
  download_image w v st
  = (Ok (Some (static_path name)),
     {| db := db st; images := <[name := content resp]> (images st);
        now := S (S (S (now st)));
        trace := FileWrite name :: HttpGet v :: trace st |}).
Proof.
  unfold cache_name. intros Hn Hc Hg Hs Ho Hw.
  unfold download_image, try_except, bind, encode_utf8, path_exists, outside,
    write_file.
  destruct (Py.encode v) as [bytes|]; [|discriminate].
  simpl in Hn. injection Hn as <-. simpl.
  rewrite (not_cached _ _ Hc), Hg, Hs. simpl. rewrite Ho, Hw. reflexivity.
Qed.

(** A write that fails after the file was opened leaves an empty cache
    file behind, and [None]. *)
Lemma download_image_truncated w v st name resp e :
  cache_name v = Some name ->
  images st !! name = None ->
  requests_get w (now st) v = Ok resp ->
  status_code resp = 200%Z ->
  open_wb w (S (now st)) name = Ok tt ->
  file_write w (S (S (now st))) name = Raise e ->
  download_image w v st
  = (Ok None,
     {| db := db st; images := <[name := []]> (images st);
        now := S (S (S (now st)));
        trace := FileWrite name :: HttpGet v :: trace st |}).
Proof.
  unfold cache_name. intros Hn Hc Hg Hs Ho Hw.
  unfold download_image, try_except, bind, encode_utf8, path_exists, outside,
    write_file.
  destruct (Py.encode v) as [bytes|]; [|discriminate].
  simpl in Hn. injection Hn as <-. simpl.
  rewrite (not_cached _ _ Hc), Hg, Hs. simpl. rewrite Ho, Hw. reflexivity.
Qed.

Lemma download_image_unwritable w v st name resp e :
  cache_name v = Some name ->
  images st !! name = None ->
  requests_get w (now st) v = Ok resp ->
  status_code resp = 200%Z ->
  open_wb w (S (now st)) name = Raise e ->
  download_image w v st = (Ok None, tick [] (tick [HttpGet v] st)).
Proof.
  unfold cache_name. intros Hn Hc Hg Hs Ho.
  unfold download_image, try_except, bind, encode_utf8, path_exists, outside,
    write_file.
  destruct (Py.encode v) as [bytes|]; [|discriminate].
  simpl in Hn. injection Hn as <-. simpl.
  rewrite (not_cached _ _ Hc), Hg, Hs. simpl. rewrite Ho. reflexivity.
Qed.

(** The ways [download_image] ends; it never raises. *)
Lemma download_image_cases w v st :
  exists r st',
    download_image w v st = (Ok r, st')
    /\ ((r = None /\ images st' = images st)
        \/ (exists name,
              cache_name v = Some name /\ images st !! name = None
              /\ r = None /\ images st' = <[name := []]> (images st))
        \/ (exists name,
              cache_name v = Some name /\ is_Some (images st !! name)
              /\ r = Some (static_path name) /\ st' = st)
        \/ (exists name resp,
              cache_name v = Some name /\ images st !! name = None
              /\ requests_get w (now st) v = Ok resp
              /\ status_code resp = 200%Z
              /\ r = Some (static_path name)
              /\ images st' = <[name := content resp]> (images st))).
Proof.
  destruct (cache_name v) as [name|] eqn:Hn.
  2:{ eexists _, _. split; [apply download_image_unencodable, Hn|]. auto. }
  destruct (images st !! name) as [data|] eqn:Hc.
  { eexists _, _. split; [apply (download_image_cached w v st name Hn); eauto|].
    right; right; left. exists name. rewrite Hc. eauto. }
  destruct (requests_get w (now st) v) as [resp|e] eqn:Hg.
  2:{ eexists _, _. split.
      - apply (download_image_failed w v st name Hn Hc). rewrite Hg. exact I.
      - auto. }
  destruct (decide (status_code resp = 200%Z)) as [Hs|Hs].
  2:{ eexists _, _. split.
      - apply (download_image_failed w v st name Hn Hc). rewrite Hg. exact Hs.
      - auto. }
  destruct (open_wb w (S (now st)) name) as [[]|e] eqn:Ho.
  - destruct (file_write w (S (S (now st))) name) as [[]|e] eqn:Hw.
    + eexists _, _. split;
        [apply (download_image_fetched w v st name resp Hn Hc Hg Hs Ho Hw)|].
      right; right; right. exists name, resp. repeat split; auto.
    + eexists _, _. split;
        [apply (download_image_truncated w v st name resp e
                  Hn Hc Hg Hs Ho Hw)|].
      right; left. exists name. repeat split; auto.
  - eexists _, _. split;
      [apply (download_image_unwritable w v st name resp e Hn Hc Hg Hs Ho)|].
    auto.
Qed.

Lemma replace_img_unfold w tag :
  replace_img w tag
  = match img_src tag with
    | Some v =>
        let* local_path := download_image w v in
        match local_path with
        | Some ((_ :: _) as p) => ret (Py.replace v p tag)
        | _ => ret tag
        end
    | None => ret tag
    end.
Proof.
  unfold replace_img, img_src.
  destruct (Re.search_src tag) as [v|]; [|reflexivity].
  destruct (Py.startswith (Py.lit "http") v); reflexivity.
Qed.

Lemma replace_img_no_src w tag st :
  img_src tag = None -> replace_img w tag st = (Ok tag, st).
Proof. intros H. rewrite replace_img_unfold, H. reflexivity. Qed.

Lemma replace_img_none w tag v st st' :
  img_src tag = Some v ->
  download_image w v st = (Ok None, st') ->
  replace_img w tag st = (Ok tag, st').
Proof.
  intros H Hd. rewrite replace_img_unfold, H. unfold bind. rewrite Hd.
  reflexivity.
Qed.

Lemma replace_img_some w tag v name st st' :
  img_src tag = Some v ->
  download_image w v st = (Ok (Some (static_path name)), st') ->
  replace_img w tag st = (Ok (Py.replace v (static_path name) tag), st').
Proof.
  intros H Hd. rewrite replace_img_unfold, H. unfold bind. rewrite Hd.
  reflexivity.
Qed.

(** ** All the images of a markup *)

Lemma mapM_chain {A B} (f : A -> M B)
    (R : A -> State -> B -> State -> Prop) :
  (forall a st, exists b st', f a st = (Ok b, st') /\ R a st b st') ->
  forall l st, exists bs st', mapM f l st = (Ok bs, st') /\ chain R l st bs st'.
Proof.
  intros Hf. induction l as [|a l IH]; intros st.
  - exists [], st. split; [reflexivity|constructor].
  - destruct (Hf a st) as (b & st1 & Hb & HR).
    destruct (IH st1) as (bs & st2 & Hbs & Hc).
    exists (b :: bs), st2. split.
    + simpl. unfold bind. rewrite Hb, Hbs. reflexivity.
    + econstructor; eassumption.
Qed.

Lemma chain_Forall2 {A B} (R : A -> State -> B -> State -> Prop) l st bs st' :
  chain R l st bs st' ->
  Forall2 (fun a b => exists s s', R a s b s') l bs.
Proof.
  induction 1; constructor; eauto.
Qed.

Lemma sub_piece_step w p st :
  exists o st', sub_piece w p st = (Ok o, st') /\ piece_step w p st o st'.
Proof.
  destruct p as [c|tag]; simpl.
  - eexists _, _. split; [reflexivity|]. auto.
  - destruct (img_src tag) as [v|] eqn:Hv.
    2:{ eexists _, _. split; [apply replace_img_no_src, Hv|]. auto. }
    destruct (download_image_cases w v st) as (r & st' & Hd & Hc).
    destruct Hc as [[-> _]|[(name & _ & _ & -> & _)|[(name & Hn & _ & -> & _)|(name & resp & Hn & _ & _ & _ & -> & _)]]].
    + eexists _, _. split; [apply (replace_img_none w tag v st st' Hv Hd)|].
      left. auto.
    + eexists _, _. split; [apply (replace_img_none w tag v st st' Hv Hd)|].
      left. auto.
    + eexists _, _.
      split; [apply (replace_img_some w tag v name st st' Hv Hd)|].
      right. exists name. auto.
    + eexists _, _.
      split; [apply (replace_img_some w tag v name st st' Hv Hd)|].
      right. exists name. auto.
Qed.

(** [process_images_in_html] never raises: it handles every piece, each
    in the state the previous one left, and joins what they give. *)
Lemma process_images_chain w html st :
  exists outs st',
    process_images_in_html w html st = (Ok (concat outs), st')
    /\ chain (piece_step w) (pieces html) st outs st'.
Proof.
  destruct (mapM_chain (sub_piece w) (piece_step w) (sub_piece_step w)
              (pieces html) st) as (outs & st' & Hm & Hc).
  exists outs, st'. split; [|exact Hc].
  unfold process_images_in_html, bind. fold (pieces html). rewrite Hm.
  reflexivity.
Qed.





Lemma img_src_Some tag v :
  img_src tag = Some v <->
  Re.search_src tag = Some v /\ Py.startswith (Py.lit "http") v = true.
Proof.
  unfold img_src. destruct (Re.search_src tag) as [x|].
  - destruct (Py.startswith (Py.lit "http") x) eqn:E; split.
    + intros [= ->]. auto.
    + intros [[= ->] _]. reflexivity.
    + discriminate.
    + intros [[= ->] H]. congruence.
  - split; [discriminate|intros [H _]; discriminate].
Qed.

Lemma piece_step_rewritten w p st o st' :
  piece_step w p st o st' -> rewritten w p o.
Proof.
  destruct p as [c|tag]; simpl.
  - intros [-> _]. reflexivity.
  - destruct (img_src tag) as [v|] eqn:Hv.
    + intros [[_ ->]|(name & Hn & Hd & ->)]; [left; reflexivity|].
      apply img_src_Some in Hv as [H1 H2].
      right. exists v, name, st, st'. auto.
    + intros [-> _]. left; reflexivity.
Qed.

Lemma process_images_rewritten w html st :
  exists outs st',
    process_images_in_html w html st = (Ok (concat outs), st')
    /\ Forall2 (rewritten w) (pieces html) outs.
Proof.
  destruct (process_images_chain w html st) as (outs & st' & Hp & Hc).
  exists outs, st'. split; [exact Hp|].
  apply chain_Forall2 in Hc.
  eapply Forall2_impl; [exact Hc|].
  intros p o (s & s' & H). eapply piece_step_rewritten, H.
Qed.




(** ** The image cache *)





(** ** Image failures *)

Lemma piece_step_all_failed w p st o st' :
  (forall t u, fetch_failed (requests_get w t u)) ->
  images st = ∅ ->
  piece_step w p st o st' ->
  o = piece_text p /\ images st' = ∅.
Proof.
  intros Hfail Hempty.
  destruct p as [c|tag]; simpl.
  { intros [-> ->]. auto. }
  destruct (img_src tag) as [v|] eqn:Hv.
  2:{ intros [-> ->]. auto. }
  assert (Hd : exists s, download_image w v st = (Ok None, s)
                         /\ images s = ∅).
  { destruct (cache_name v) as [name|] eqn:Hn.
    - eexists. split.
      + apply (download_image_failed w v st name Hn); [|apply Hfail].
        rewrite Hempty. apply lookup_empty.
      + exact Hempty.
    - eexists. split; [apply download_image_unencodable, Hn|exact Hempty]. }
  destruct Hd as (s & Hd & Hs).
  intros [[H ->]|(name & _ & H & _)]; rewrite Hd in H.
  - injection H as <-. auto.
  - discriminate.
Qed.

Lemma chain_all_failed w l st outs st' :
  (forall t u, fetch_failed (requests_get w t u)) ->
  images st = ∅ ->
  chain (piece_step w) l st outs st' ->
  outs = piece_text <$> l /\ images st' = ∅.
Proof.
  intros Hfail Hempty Hc.
  induction Hc as [st|p l o outs st st1 st2 Hp Hc IH].
  - auto.
  - destruct (piece_step_all_failed w p st o st1 Hfail Hempty Hp) as [-> H1].
    destruct (IH H1) as [-> H2]. auto.
Qed.

Lemma chain_length {A B} (R : A -> State -> B -> State -> Prop) l st bs st' :
  chain R l st bs st' -> length bs = length l.
Proof. induction 1; simpl; congruence. Qed.

(** C7 as stated fails where the driver does not stop: the image
    request fails, the tag keeps its URL, the title is not empty, and the
    task returns the error result instead of the success. *)
Lemma image_failure_not_always_success :
  let html := Py.lit "<img src='http://a/b.png'>" in
  let w := stuck_offline_world
             (sample_page (Some (Py.lit "T")) (Some html)) in
  let st := fresh (Table ∅) in
  fetch_failed (requests_get w 0 (Py.lit "http://a/b.png"))
  /\ (process_images_in_html w html st).1 = Ok html
  /\ is_empty_article (Py.lit "T") 5 = false
  /\ exists st',
       scrape_single_article w 5 st
       = (Ok (R_error 5 (Py.lit "Connection closed")), st').
Proof.
  split; [exact I|]. split; [vm_compute; reflexivity|].
  split; [reflexivity|]. eexists. vm_compute. reflexivity.
Qed.

(** C7 (amended). A failed image request (an exception or a status other
    than 200, for an image that is not cached) makes [download_image]
    return [None] and [replace_img] return the tag as it was, with the
    request as only trace; [download_image] and [process_images_in_html]
    never raise, and the latter handles every piece of the markup by
    [replace_img] in the state the pieces before it left, whatever
    happened to them; for an article whose title is not empty the body of
    the [with] block returns the success carrying the processed markup,
    which is the result of the task when the driver then stops, while a
    driver that fails to stop turns it into the error result; and when
    every request fails and the cache is empty, the markup comes out
    unchanged. *)
Theorem image_failure_swallowed (w : World) :
  (forall tag v name st,
      img_src tag = Some v ->
      cache_name v = Some name ->
      images st !! name = None ->
      fetch_failed (requests_get w (now st) v) ->
      download_image w v st = (Ok None, tick [HttpGet v] st)
      /\ replace_img w tag st = (Ok tag, tick [HttpGet v] st))
  /\ (forall v st, exists r st', download_image w v st = (Ok r, st'))
  /\ (forall html st, exists outs st',
        process_images_in_html w html st = (Ok (concat outs), st')
        /\ length outs = length (pieces html)
        /\ chain (piece_step w) (pieces html) st outs st')
  /\ (forall article_id st st0 st1 st2 st3 t a c h,
        article_exists article_id st = (Ok false, st) ->
        outside (playwright_start w) [] st = (Ok tt, st0) ->
        outside (chromium_launch w) [] st0 = (Ok tt, st1) ->
        render w article_id (article_url article_id) st1
          = (Ok (t, a, c, h), st2) ->
        outside (browser_close w) [] st2 = (Ok tt, st3) ->
        is_empty_article t article_id = false ->
        exists out st4,
          process_images_in_html w h st3 = (Ok out, st4)
          /\ (playwright_stop w (now st4) = Ok tt ->
              scrape_single_article w article_id st
              = (Ok (R_success
                       {| art_id := article_id; title := t; author := a;
                          url := article_url article_id; category := c;
                          content_html := out |}), tick [] st4))
          /\ scrape_page w article_id (article_url article_id) st0
             = (Ok (R_success
                      {| art_id := article_id; title := t; author := a;
                         url := article_url article_id; category := c;
                         content_html := out |}), st4)
          /\ (forall e,
                playwright_stop w (now st4) = Raise e ->
                scrape_single_article w article_id st
                = (Ok (R_error article_id e), tick [] st4)))
  /\ ((forall t u, fetch_failed (requests_get w t u)) ->
      forall html st,
        images st = ∅ ->
        exists st',
          process_images_in_html w html st = (Ok html, st')
          /\ images st' = ∅).
Proof.
  split; [|split; [|split; [|split]]].
  - intros tag v name st Hv Hn Hc Hf.
    pose proof (download_image_failed w v st name Hn Hc Hf) as Hd.
    split; [exact Hd|]. apply (replace_img_none w tag v st _ Hv Hd).
  - intros v st.
    destruct (download_image_cases w v st) as (r & st' & Hd & _). eauto.
  - intros html st.
    destruct (process_images_chain w html st) as (outs & st' & Hp & Hc).
    exists outs, st'. split; [exact Hp|].
    split; [eapply chain_length, Hc|exact Hc].
  - intros article_id st st0 st1 st2 st3 t a c h Hx Hs Hl Hr Hc He.
    destruct (process_images_chain w h st3) as (outs & st4 & Hp & _).
    exists (concat outs), st4. split; [exact Hp|].
    assert (Hbody : scrape_page w article_id (article_url article_id) st0
                    = (Ok (R_success
                             {| art_id := article_id; title := t;
                                author := a;
                                url := article_url article_id;
                                category := c;
                                content_html := concat outs |}), st4)).
    { unfold scrape_page, bind. rewrite Hl, Hr, Hc, He, Hp. reflexivity. }
    split; [|split; [exact Hbody|]].
    + intros Hq.
      unfold scrape_single_article, with_playwright, bind, try_except.
      rewrite Hx, Hs, Hbody. simpl. rewrite Hq. reflexivity.
    + intros e Hq.
      unfold scrape_single_article, with_playwright, bind, try_except.
      rewrite Hx, Hs, Hbody. simpl. rewrite Hq. reflexivity.
  - intros Hfail html st Hempty.
    destruct (process_images_chain w html st) as (outs & st' & Hp & Hc).
    destruct (chain_all_failed w _ _ _ _ Hfail Hempty Hc) as [-> Hi].
    exists st'. split; [|exact Hi].
    rewrite Hp. f_equal. f_equal. apply pieces_sound.
Qed.

Lemma image_failure_swallowed_witness :
  exists st',
    scrape_single_article
      (sample_world
         (sample_page (Some (Py.lit "T"))
                      (Some (Py.lit "<img src='http://a/b.png'>"))) 404)
      5 (fresh (Table ∅))
    = (Ok (R_success (sample_article 5 (Py.lit "<img src='http://a/b.png'>"))),
       st').
Proof.
  refine (let H :=
            proj1 (proj2 (proj2 (proj2 (image_failure_swallowed
              (sample_world
                 (sample_page (Some (Py.lit "T"))
                    (Some (Py.lit "<img src='http://a/b.png'>"))) 404)))))
              5%Z (fresh (Table ∅)) _ _ _ _ (Py.lit "T") unknown_author []
              (Py.lit "<img src='http://a/b.png'>")
              eq_refl eq_refl eq_refl eq_refl eq_refl eq_refl in _).
  destruct H as (out & st4 & Hp & Hs & _).
  exists (tick [] st4). rewrite Hs by reflexivity.
  vm_compute in Hp. injection Hp as <- _. reflexivity.
Defined.

(** Processing goes on after a failure: with a server that fails the
    first request only, the first tag keeps its URL and the second is
    rewritten. *)
Example image_failure_then_success :
  (process_images_in_html flaky_world
     (Py.lit "<img src='http://a/b.png'><img src='http://a/c.png'>")
     (fresh NoTable)).1
  = Ok (Py.lit "<img src='http://a/b.png'><img src='/static/images/8c465bd96a6dcb5799f054d76f274659.png'>").
Proof. vm_compute. reflexivity. Qed.

(** ** What the rewriting touches *)

Lemma match_src_sound (s v : Py.str) :
  Re.match_src s = Some v ->
  exists q r, s = Py.lit "src=" ++ q :: v ++ r /\ r <> [].
Proof.
  unfold Re.match_src.
  destruct (Re.strip_prefix (Py.lit "src=") s) as [[|q r]|] eqn:Ep;
    try discriminate.
  destruct (Re.is_quote q); [|discriminate].
  destruct (Re.span (fun c => negb (Re.is_quote c)) r) as [a b] eqn:Es.
  destruct a as [|x a]; [discriminate|].
  destruct b as [|y b]; [discriminate|].
  intros [= <-].
  apply strip_prefix_app in Ep. apply span_app in Es as (Hr & _ & _).
  exists q, (y :: b). split; [|discriminate].
  rewrite Ep, Hr. reflexivity.
Qed.

(** The split is a split of the tag around the value [re.search] finds. *)
Lemma split_src_sound (s pre v post : Py.str) :
  split_src s = Some (pre, v, post) ->
  s = pre ++ v ++ post /\ Re.search_src s = Some v.
Proof.
  revert pre v post. induction s as [|c s IH]; intros pre v post.
  - simpl. discriminate.
  - cbn [split_src Re.search_src].
    destruct (Re.match_src (c :: s)) as [x|] eqn:Em.
    + intros [= <- <- <-]. split; [|reflexivity].
      apply match_src_sound in Em as (q & r & Hs & _).
      simpl in Hs. injection Hs as -> ->. simpl.
      rewrite drop_app_length. reflexivity.
    + destruct (split_src s) as [[[pre' v'] post']|] eqn:Es; [|discriminate].
      intros [= <- <- <-].
      destruct (IH pre' v' post' eq_refl) as [-> H]. auto.
Qed.

(** What the pattern of [replace_img] matches at the head of a
    string. *)
Lemma match_src_shape (s v : Py.str) :
  Re.match_src s = Some v ->
  exists q q' r,
    s = Py.lit "src=" ++ q :: v ++ q' :: r
    /\ Re.is_quote q = true
    /\ Re.is_quote q' = true
    /\ v <> []
    /\ Forall (fun c => Re.is_quote c = false) v.
Proof.
  unfold Re.match_src.
  destruct (Re.strip_prefix (Py.lit "src=") s) as [[|q r]|] eqn:Ep;
    try discriminate.
  destruct (Re.is_quote q) eqn:Eq; [|discriminate].
  destruct (Re.span (fun c => negb (Re.is_quote c)) r) as [a b] eqn:Es.
  destruct a as [|x a]; [discriminate|].
  destruct b as [|y b]; [discriminate|].
  intros [= <-].
  apply strip_prefix_app in Ep. apply span_app in Es as (Hr & Ha & Hy).
  exists q, y, b. split; [rewrite Ep, Hr; reflexivity|].
  split; [exact Eq|]. split; [apply negb_false_iff, Hy|].
  split; [discriminate|].
  eapply Forall_impl; [exact Ha|]. intros c Hc. apply negb_true_iff, Hc.
Qed.

(** [re.search] returns group 1 of the leftmost place of the tag where
    the pattern matches, whatever stands before it. *)
Lemma search_src_leftmost (s v : Py.str) :
  Re.search_src s = Some v ->
  exists pre,
    Re.match_src (drop (length pre) s) = Some v
    /\ take (length pre) s = pre
    /\ forall j, j < length pre -> Re.match_src (drop j s) = None.
Proof.
  induction s as [|c s IH]; cbn [Re.search_src].
  - destruct (Re.match_src []) eqn:E; [|discriminate].
    intros [= ->]. exists []. split; [exact E|]. split; [reflexivity|].
    simpl. lia.
  - destruct (Re.match_src (c :: s)) as [x|] eqn:E.
    + intros [= ->]. exists []. split; [exact E|]. split; [reflexivity|].
      simpl. lia.
    + intros H. destruct (IH H) as (pre & Hm & Ht & Hnone).
      exists (c :: pre). split; [exact Hm|]. split.
      * simpl. rewrite Ht. reflexivity.
      * intros [|j] Hj; [exact E|]. simpl in Hj. apply Hnone. lia.
Qed.

Lemma search_src_none (s : Py.str) :
  Re.search_src s = None <-> forall j, Re.match_src (drop j s) = None.
Proof.
  induction s as [|c s IH]; cbn [Re.search_src].
  - destruct (Re.match_src []) eqn:E.
    + split; [discriminate|]. intros H. specialize (H 0). simpl in H.
      congruence.
    + split; [|reflexivity]. intros _ [|j]; exact E.
  - destruct (Re.match_src (c :: s)) as [x|] eqn:E.
    + split; [discriminate|]. intros H. specialize (H 0). simpl in H.
      congruence.
    + rewrite IH. split.
      * intros H [|j]; [exact E|apply H].
      * intros H j. apply (H (S j)).
Qed.

(** C10 as stated fails in three ways.  The source text is replaced
    wherever it stands in the tag, here in the [alt] attribute as well,
    while the claim has the value of [src] replaced and nothing else.  A
    tag whose [src] attribute is relative is rewritten all the same when
    the text [src=] with a remote value stands earlier in it, here as the
    tail of [data-src].  And the pattern takes any text that starts with
    [<img] for a tag, here [<imgfoo ...>]. *)
Lemma img_rewrite_not_src_only :
  let w := sample_world (sample_page None None) 200 in
  let tag := Py.lit "<img src='http://a/b.png' alt='http://a/b.png'>" in
  let local_path :=
    Py.lit "/static/images/7ef3a44149b1be9298df924c6e2b1705.png" in
  (download_image w (Py.lit "http://a/b.png") (fresh NoTable)).1
  = Ok (Some local_path)
  /\ (replace_img w tag (fresh NoTable)).1
     = Ok (Py.lit "<img src='/static/images/7ef3a44149b1be9298df924c6e2b1705.png' alt='/static/images/7ef3a44149b1be9298df924c6e2b1705.png'>")
  /\ src_only_replaced tag local_path
     = Some (Py.lit "<img src='/static/images/7ef3a44149b1be9298df924c6e2b1705.png' alt='http://a/b.png'>")
  /\ (process_images_in_html w
        (Py.lit "<img data-src='http://a/b.png' src='./x.gif'>")
        (fresh NoTable)).1
     = Ok (Py.lit "<img data-src='/static/images/7ef3a44149b1be9298df924c6e2b1705.png' src='./x.gif'>")
  /\ (process_images_in_html w
        (Py.lit "<imgfoo src='http://a/b.png'>") (fresh NoTable)).1
     = Ok (Py.lit "<imgfoo src='/static/images/7ef3a44149b1be9298df924c6e2b1705.png'>").
Proof. vm_compute. repeat split. Qed.

(** C10 (amended). [process_images_in_html] cuts the markup into the
    matches of the image pattern ([<img], one or more characters other
    than [>], and [>]) and the characters between them; every character
    outside the matches comes out as it is, and every match is handled by
    [replace_img] in the state the matches before it left.  A match comes
    out as it is unless, at the leftmost place in it where the text
    [src=], a quote, a non-empty value free of quotes and a quote stand -
    be it inside another attribute - the value starts with [http] and
    [download_image] answered with a local path for it, in which case
    every occurrence of that value in the match is replaced by the path.
    Matches without such a place, with a value there that does not start
    with [http], or whose download gave nothing are returned unchanged. *)
Theorem img_rewrite_frame (w : World) (html : Py.str) (st : State) :
  concat (piece_text <$> pieces html) = html
  /\ Forall (fun p => match p with
                      | Re.Img tag => is_img_tag tag
                      | Re.Lit _ => True
                      end) (pieces html)
  /\ (exists outs st',
        process_images_in_html w html st = (Ok (concat outs), st')
        /\ Forall2 (rewritten w) (pieces html) outs
        /\ chain (piece_step w) (pieces html) st outs st')
  /\ (forall tag,
        Re.search_src tag = None -> replace_img w tag st = (Ok tag, st))
  /\ (forall tag v,
        Re.search_src tag = Some v ->
        Py.startswith (Py.lit "http") v = false ->
        replace_img w tag st = (Ok tag, st))
  /\ (forall tag v st',
        Re.search_src tag = Some v ->
        Py.startswith (Py.lit "http") v = true ->
        download_image w v st = (Ok None, st') ->
        replace_img w tag st = (Ok tag, st'))
  /\ (forall tag v name st',
        Re.search_src tag = Some v ->
        Py.startswith (Py.lit "http") v = true ->
        download_image w v st = (Ok (Some (static_path name)), st') ->
        replace_img w tag st
        = (Ok (Py.replace v (static_path name) tag), st'))
  /\ (forall tag v,
        Re.search_src tag = Some v ->
        exists pre q q' post,
          tag = pre ++ Py.lit "src=" ++ q :: v ++ q' :: post
          /\ Re.is_quote q = true
          /\ Re.is_quote q' = true
          /\ v <> []
          /\ Forall (fun c => Re.is_quote c = false) v
          /\ forall j, j < length pre -> Re.match_src (drop j tag) = None)
  /\ (forall tag,
        Re.search_src tag = None
        <-> forall j, Re.match_src (drop j tag) = None).
Proof.
  split; [apply pieces_sound|].
  split; [apply pieces_sound|].
  split.
  { destruct (process_images_chain w html st) as (outs & st' & Hp & Hc).
    exists outs, st'. split; [exact Hp|]. split; [|exact Hc].
    apply chain_Forall2 in Hc. eapply Forall2_impl; [exact Hc|].
    intros p o (s & s' & H). eapply piece_step_rewritten, H. }
  split; [|split; [|split; [|split; [|split]]]].
  - intros tag H. apply replace_img_no_src. unfold img_src. rewrite H.
    reflexivity.
  - intros tag v H1 H2. apply replace_img_no_src. unfold img_src.
    rewrite H1, H2. reflexivity.
  - intros tag v st' H1 H2 Hd. apply (replace_img_none w tag v); [|exact Hd].
    apply img_src_Some. auto.
  - intros tag v name st' H1 H2 Hd.
    apply (replace_img_some w tag v name); [|exact Hd].
    apply img_src_Some. auto.
  - intros tag v H.
    destruct (search_src_leftmost tag v H) as (pre & Hm & Ht & Hnone).
    destruct (match_src_shape _ _ Hm) as (q & q' & post & Hs & Hq & Hq' & Hv).
    exists pre, q, q', post. split.
    + rewrite <- (take_drop (length pre) tag) at 1. rewrite Ht, Hs.
      reflexivity.
    + split; [exact Hq|]. split; [exact Hq'|].
      destruct Hv as [Hv1 Hv2]. auto.
  - intros tag. apply search_src_none.
Qed.

Lemma img_rewrite_frame_witness :
  replace_img (sample_world (sample_page None None) 200)
              (Py.lit "<img src='./local/assets/image.gif'>") (fresh NoTable)
  = (Ok (Py.lit "<img src='./local/assets/image.gif'>"), fresh NoTable).
Proof.
  apply (proj1 (proj2 (proj2 (proj2 (proj2 (img_rewrite_frame
           (sample_world (sample_page None None) 200) []
           (fresh NoTable))))))
           (Py.lit "<img src='./local/assets/image.gif'>")
           (Py.lit "./local/assets/image.gif")).
  - vm_compute. reflexivity.
  - vm_compute. reflexivity.
Defined.

(** ** The pool *)

Lemma range_length a b : length (range a b) = Z.to_nat (b - a).
Proof. unfold range. rewrite length_map, length_seq. reflexivity. Qed.

Lemma elem_of_range a b x : x ∈ range a b <-> (a <= x < b)%Z.
Proof.
  unfold range. rewrite list_elem_of_fmap. split.
  - intros (i & -> & Hi). apply elem_of_seq in Hi. lia.
  - intros H. exists (Z.to_nat (x - a)). split; [lia|].
    apply elem_of_seq. lia.
Qed.

Lemma range_NoDup a b : NoDup (range a b).
Proof.
  unfold range. apply NoDup_fmap_2; [|apply NoDup_seq].
  intros i j H. lia.
Qed.

(** The loop body never raises and moves exactly one counter. *)
Lemma collect_cases w fut c st :
  exists c' st',
    collect w fut c st = (Ok c', st')
    /\ match fut with
       | Ok (R_exists _) => c' = add_exists c /\ st' = st
       | Ok (R_skip _) => c' = add_skip c /\ st' = st
       | Ok (R_error _ _) => c' = add_fail c /\ st' = st
       | Ok (R_success a) =>
           (c' = add_success c /\ (save_article w a st).1 = Ok true)
           \/ (c' = add_fail c /\ (save_article w a st).1 <> Ok true)
       | Raise _ => c' = add_fail c /\ st' = st
       end.
Proof.
  unfold collect, try_except, bind, future_result.
  destruct fut as [[i|i|i e|a]|e]; simpl;
    try (eexists _, _; split; [reflexivity|auto]).
  destruct (save_article w a st) as [[[|]|e] st'] eqn:E; simpl.
  - eexists _, _. split; [reflexivity|]. left. auto.
  - eexists _, _. split; [reflexivity|]. right. split; [auto|discriminate].
  - eexists _, _. split; [reflexivity|]. right. split; [auto|discriminate].
Qed.

Lemma collect_total w fut c st :
  exists c' st',
    collect w fut c st = (Ok c', st')
    /\ (c' = add_exists c \/ c' = add_skip c \/ c' = add_fail c
        \/ c' = add_success c)
    /\ total c' = S (total c).
Proof.
  destruct (collect_cases w fut c st) as (c' & st' & Hc & H).
  exists c', st'. split; [exact Hc|].
  assert (Hor : c' = add_exists c \/ c' = add_skip c \/ c' = add_fail c
                \/ c' = add_success c).
  { destruct fut as [[i|i|i e|a]|e]; intuition auto. }
  split; [exact Hor|].
  destruct Hor as [-> | [-> | [-> | ->]]]; unfold total; simpl; lia.
Qed.

(** The two ways the loop body ends on a success future. *)
Lemma collect_success w (a : Article) c st c' st' :
  collect w (Ok (R_success a)) c st = (Ok c', st') ->
  (save_article w a st = (Ok true, st') /\ c' = add_success c)
  \/ (db st' = db st /\ c' = add_fail c).
Proof.
  unfold collect, try_except, bind, future_result, ret.
  destruct (db st) as [| |rows] eqn:Hdb.
  - rewrite (save_article_unopenable w a st Hdb).
    intros [= <- <-]. right. auto.
  - destruct (save_article_caught w a st) as (b & s & Hs & Hb);
      [congruence|].
    rewrite Hs. destruct b.
    + intros [= <- <-]. left. auto.
    + intros [= <- <-]. right. rewrite Hb by reflexivity. auto.
  - destruct (save_article_caught w a st) as (b & s & Hs & Hb);
      [congruence|].
    rewrite Hs. destruct b.
    + intros [= <- <-]. left. auto.
    + intros [= <- <-]. right. rewrite Hb by reflexivity. auto.
Qed.

Lemma take_future_perm i l fut rest :
  take_future i l = Some (fut, rest) -> l ≡ₚ (i, fut) :: rest.
Proof.
  revert rest. induction l as [|[j r] l IH]; intros rest; simpl.
  - discriminate.
  - case_bool_decide as Hj.
    + intros [= <- <-]. subst j. reflexivity.
    + destruct (take_future i l) as [[r' l'']|]; [|discriminate].
      intros [= <- <-]. rewrite (IH l'' eq_refl). apply Permutation_swap.
Qed.

Lemma remove_id_absent i (l : list Z) : i ∉ l -> remove_id i l = l.
Proof.
  unfold remove_id. induction l as [|x l IH]; intros Hi; [reflexivity|].
  apply not_elem_of_cons in Hi as [Hx Hl].
  rewrite filter_cons_True by auto. rewrite IH by assumption. reflexivity.
Qed.

Lemma remove_id_perm i (l : list Z) :
  NoDup l -> i ∈ l -> l ≡ₚ i :: remove_id i l.
Proof.
  unfold remove_id. induction 1 as [|x l Hx Hl IH]; intros Hi.
  - inversion Hi.
  - rewrite filter_cons. destruct (decide (x = i)) as [->|Hne].
    + rewrite decide_False by auto.
      fold (remove_id i l). rewrite remove_id_absent by assumption.
      reflexivity.
    + rewrite decide_True by assumption.
      apply elem_of_cons in Hi as [->|Hi]; [contradiction|].
      rewrite (IH Hi) at 1. apply Permutation_swap.
Qed.

(** What each kind of step does, read off [step]. *)
Lemma step_cases w max_workers s p st r st' :
  step w max_workers s (p, st) = Some (r, st') ->
  match s with
  | Start =>
      exists i q,
        queued p = i :: q
        /\ (Z.of_nat (length (running p)) < max_workers)%Z
        /\ st' = st
        /\ r = Ok {| queued := q; running := running p ++ [i];
                     finished := finished p; collected := collected p;
                     counts := counts p |}
  | Finish i =>
      exists fut,
        i ∈ running p
        /\ scrape_single_article w i st = (fut, st')
        /\ r = Ok {| queued := queued p; running := remove_id i (running p);
                     finished := finished p ++ [(i, fut)];
                     collected := collected p; counts := counts p |}
  | Collect i =>
      exists fut rest c,
        take_future i (finished p) = Some (fut, rest)
        /\ collect w fut (counts p) st = (Ok c, st')
        /\ r = Ok {| queued := queued p; running := running p;
                     finished := rest; collected := collected p ++ [i];
                     counts := c |}
  end.
Proof.
  destruct s as [|i|i]; simpl.
  - destruct (queued p) as [|i q]; [discriminate|].
    destruct (Z.of_nat (length (running p)) <? max_workers)%Z eqn:E;
      [|discriminate].
    intros [= <- <-]. exists i, q. apply Z.ltb_lt in E. auto.
  - case_bool_decide as Hi; [|discriminate].
    destruct (scrape_single_article w i st) as [fut st1] eqn:E.
    intros [= <- <-]. exists fut. auto.
  - destruct (take_future i (finished p)) as [[fut rest]|] eqn:E;
      [|discriminate].
    destruct (collect_total w fut (counts p) st) as (c & st1 & Hc & _).
    rewrite Hc. intros [= <- <-]. exists fut, rest, c. auto.
Qed.

Lemma perm_insert (a : Z) (l1 l2 l3 : list Z) :
  l1 ++ (l2 ++ [a]) ++ l3 ≡ₚ a :: l1 ++ l2 ++ l3.
Proof.
  transitivity ((l1 ++ l2) ++ a :: l3).
  - rewrite <- !app_assoc. reflexivity.
  - symmetry. rewrite (app_assoc l1 l2 l3). apply Permutation_middle.
Qed.

(** A step keeps the identifiers, moves one of them one stage further and,
    when it consumes a future, moves one counter. *)
Lemma step_keeps w max_workers s p st r st' :
  NoDup (tracked p) ->
  step w max_workers s (p, st) = Some (r, st') ->
  exists p',
    r = Ok p'
    /\ tracked p' ≡ₚ tracked p
    /\ total (counts p') + length (collected p)
       = total (counts p) + length (collected p')
    /\ S (work p') = work p.
Proof.
  intros Hnd Hstep. apply step_cases in Hstep.
  destruct s as [|i|i].
  - destruct Hstep as (i & q & Hq & _ & _ & ->).
    eexists. split; [reflexivity|]. unfold tracked, work. simpl.
    rewrite Hq, length_app. simpl.
    split; [|split; lia].
    apply perm_insert.
  - destruct Hstep as (fut & Hi & _ & ->).
    eexists. split; [reflexivity|]. unfold tracked, work. simpl.
    assert (Hr : NoDup (running p)).
    { unfold tracked in Hnd. apply NoDup_app in Hnd as (_ & _ & Hnd).
      apply NoDup_app in Hnd as (Hnd & _). exact Hnd. }
    pose proof (remove_id_perm i (running p) Hr Hi) as Hperm.
    split; [|split].
    + rewrite fmap_app. simpl. apply Permutation_app_head.
      etransitivity; [apply perm_insert|].
      change ((i :: remove_id i (running p))
                ++ (finished p).*1 ++ collected p
              ≡ₚ running p ++ (finished p).*1 ++ collected p).
      apply Permutation_app_tail. symmetry. exact Hperm.
    + lia.
    + apply Permutation_length in Hperm. simpl in Hperm.
      rewrite length_app. simpl. lia.
  - destruct Hstep as (fut & rest & c & Ht & Hc & ->).
    eexists. split; [reflexivity|]. unfold tracked, work. simpl.
    apply take_future_perm in Ht.
    destruct (collect_total w fut (counts p) st) as (c' & st1 & Hc' & _ & Htot).
    rewrite Hc in Hc'. injection Hc' as <- <-.
    split; [|split].
    + apply Permutation_app_head, Permutation_app_head.
      rewrite Ht. simpl.
      rewrite <- (app_nil_r (collected p ++ [i])).
      etransitivity; [apply perm_insert|].
      rewrite app_nil_r. reflexivity.
    + rewrite length_app. simpl. lia.
    + apply Permutation_length in Ht. simpl in Ht. lia.
Qed.

(** Along any schedule the parent never raises, the identifiers are kept,
    the counters add up to the futures consumed, and every step is one of
    the three each identifier needs. *)
Lemma run_keeps w max_workers sched p st r st' :
  NoDup (tracked p) ->
  run w max_workers sched (p, st) = Some (r, st') ->
  exists p',
    r = Ok p'
    /\ tracked p' ≡ₚ tracked p
    /\ total (counts p') + length (collected p)
       = total (counts p) + length (collected p')
    /\ work p' + length sched = work p.
Proof.
  revert p st. induction sched as [|s sched IH]; intros p st Hnd;
    cbn [run fst snd length].
  - intros [= <- <-]. exists p. split; [reflexivity|]. split; [reflexivity|].
    lia.
  - destruct (step w max_workers s (p, st)) as [[r1 st1]|] eqn:Es;
      [|discriminate].
    destruct (step_keeps w _ _ _ _ _ _ Hnd Es) as (p1 & -> & Hp & Hc & Hw).
    intros Hrun.
    assert (Hnd1 : NoDup (tracked p1)) by (rewrite Hp; exact Hnd).
    destruct (IH p1 st1 Hnd1 Hrun) as (p' & -> & Hp' & Hc' & Hw').
    exists p'. split; [reflexivity|].
    split; [etransitivity; eassumption|]. lia.
Qed.

(** Every task the schedule runs leaves one future, and every future the
    schedule consumes is appended to [collected]. *)
Lemma run_log w max_workers sched p st p' st' :
  run w max_workers sched (p, st) = Some (Ok p', st') ->
  collected p' = collected p ++ collects sched
  /\ (finished p').*1 ++ collected p'
     ≡ₚ ((finished p).*1 ++ collected p) ++ finishes sched.
Proof.
  revert p st. induction sched as [|s sched IH]; intros p st;
    cbn [run fst snd].
  - intros [= <- <-]. unfold collects, finishes. simpl.
    rewrite !app_nil_r. auto.
  - destruct (step w max_workers s (p, st)) as [[[p1|e] st1]|] eqn:Es;
      [|discriminate|discriminate].
    intros Hrun. destruct (IH p1 st1 Hrun) as [H1 H2].
    apply step_cases in Es. destruct s as [|i|i].
    + destruct Es as (i & q & _ & _ & _ & [= ->]). simpl in *. auto.
    + destruct Es as (fut & _ & _ & [= ->]). simpl in *.
      split; [exact H1|]. rewrite H2, fmap_app. simpl.
      rewrite <- !app_assoc. apply Permutation_app_head. simpl.
      rewrite Permutation_middle. reflexivity.
    + destruct Es as (fut & rest & c & Ht & _ & [= ->]). simpl in *.
      split; [rewrite H1, <- app_assoc; reflexivity|].
      rewrite H2. apply take_future_perm in Ht.
      apply Permutation_app_tail. rewrite Ht. simpl.
      rewrite <- (app_nil_r (collected p ++ [i])).
      etransitivity; [apply perm_insert|]. rewrite app_nil_r. reflexivity.
Qed.

(** One worker, each future consumed at once: a complete execution. *)
Lemma run_one_by_one w max_workers ids :
  (1 <= max_workers)%Z ->
  forall done c st,
  exists p' st',
    run w max_workers (flat_map (fun i => [Start; Finish i; Collect i]) ids)
        ({| queued := ids; running := []; finished := []; collected := done;
            counts := c |}, st) = Some (Ok p', st')
    /\ drained p' = true.
Proof.
  intros HN. induction ids as [|i ids IH]; intros done c st.
  - eexists _, _. split; reflexivity.
  - destruct (scrape_single_article w i st) as [fut st1] eqn:Ef.
    destruct (collect_total w fut c st1) as (c' & st2 & Hc & _).
    destruct (IH (done ++ [i]) c' st2) as (p' & st' & Hrun & Hd).
    exists p', st'. split; [|exact Hd].
    cbn [flat_map app run step queued running finished collected counts
         length].
    assert (E0 : (Z.of_nat 0 <? max_workers)%Z = true)
      by (apply Z.ltb_lt; lia).
    rewrite E0. cbn [run step queued running finished collected counts app].
    rewrite bool_decide_eq_true_2 by (apply list_elem_of_singleton; reflexivity).
    rewrite Ef.
    cbn [run step queued running finished collected counts app take_future].
    rewrite bool_decide_eq_true_2 by reflexivity.
    rewrite Hc.
    replace (remove_id i [i]) with (@nil Z); [exact Hrun|].
    unfold remove_id. rewrite filter_cons_False; [reflexivity|]. auto.
Qed.

(** As long as something is queued, running or finished, the pool can
    move, whatever the tasks returned or raised. *)
Lemma pool_progress w max_workers p st :
  (1 <= max_workers)%Z ->
  drained p = false ->
  exists s p' st', step w max_workers s (p, st) = Some (Ok p', st').
Proof.
  intros HN Hd. unfold drained in Hd.
  destruct (finished p) as [|[i fut] fin] eqn:Ef.
  - destruct (running p) as [|i run'] eqn:Er.
    + destruct (queued p) as [|i q] eqn:Eq; [discriminate|].
      exists Start. unfold step. rewrite Eq, Er. cbn [length].
      assert (E0 : (Z.of_nat 0 <? max_workers)%Z = true)
        by (apply Z.ltb_lt; lia).
      rewrite E0. eauto.
    + exists (Finish i). unfold step. rewrite Er.
      rewrite bool_decide_eq_true_2 by (left).
      destruct (scrape_single_article w i st) as [fut st1]. eauto.
  - exists (Collect i). unfold step. rewrite Ef. cbn [take_future].
    rewrite bool_decide_eq_true_2 by reflexivity.
    destruct (collect_total w fut (counts p) st) as (c' & st1 & Hc & _).
    rewrite Hc. eauto.
Qed.

Lemma submitted_tracked start_id end_id :
  tracked (submitted start_id end_id) = range start_id (end_id + 1).
Proof. unfold tracked. simpl. rewrite !app_nil_r. reflexivity. Qed.

Lemma drained_tracked p : drained p = true -> tracked p = collected p.
Proof.
  unfold drained, tracked.
  destruct (queued p); [|discriminate].
  destruct (running p); [|discriminate].
  destruct (finished p); [|discriminate]. reflexivity.
Qed.

Lemma drained_work p : drained p = true -> work p = 0.
Proof.
  unfold drained, work.
  destruct (queued p); [|discriminate].
  destruct (running p); [|discriminate].
  destruct (finished p); [|discriminate]. reflexivity.
Qed.

(** What [main] returns, in terms of [run]. *)
Lemma main_returns w start_id end_id max_workers sched st r st' :
  (1 <= max_workers)%Z ->
  main w start_id end_id max_workers sched st = Some (r, st') ->
  exists p,
    run w max_workers sched (submitted start_id end_id, st)
    = Some (Ok p, st')
    /\ drained p = true /\ r = Ok (counts p).
Proof.
  intros HN. unfold main.
  assert (E : (max_workers <=? 0)%Z = false) by (apply Z.leb_gt; lia).
  rewrite E.
  destruct (run w max_workers sched (submitted start_id end_id, st))
    as [[r1 st1]|] eqn:Er; [|discriminate].
  assert (Hnd : NoDup (tracked (submitted start_id end_id))).
  { rewrite submitted_tracked. apply range_NoDup. }
  destruct (run_keeps w _ _ _ _ _ _ Hnd Er) as (p & -> & _).
  destruct (drained p) eqn:Ed; [|discriminate].
  intros [= <- <-]. exists p. auto.
Qed.

(** With at least one worker, [main] has a complete execution. *)
Lemma main_one_by_one w start_id end_id max_workers st :
  (1 <= max_workers)%Z ->
  exists c st',
    main w start_id end_id max_workers (one_by_one start_id end_id) st
    = Some (Ok c, st').
Proof.
  intros HN.
  destruct (run_one_by_one w max_workers (range start_id (end_id + 1))
              HN [] no_counts st) as (p' & st' & Hrun & Hd).
  exists (counts p'), st'. unfold main, one_by_one, submitted.
  assert (E : (max_workers <=? 0)%Z = false) by (apply Z.leb_gt; lia).
  rewrite E, Hrun, Hd. reflexivity.
Qed.

Lemma drained_parts p :
  drained p = true -> queued p = [] /\ running p = [] /\ finished p = [].
Proof.
  unfold drained.
  destruct (queued p); [|discriminate].
  destruct (running p); [|discriminate].
  destruct (finished p); [|discriminate]. auto.
Qed.

(** ** Failures of one task *)

(** What the [with] block returns is what its body returned. *)
Lemma with_playwright_ok {A} w (body : M A) st r st' :
  with_playwright w body st = (Ok r, st') ->
  exists s0 s1, body s0 = (Ok r, s1).
Proof.
  unfold with_playwright, bind.
  destruct (outside (playwright_start w) [] st) as [[u|e] s0];
    [|discriminate].
  destruct (body s0) as [r1 s1] eqn:E.
  destruct (playwright_stop w (now s1)); [|discriminate].
  intros [= -> _]. eauto.
Qed.

Lemma scrape_page_shape w article_id url0 st r st' :
  scrape_page w article_id url0 st = (Ok r, st') ->
  match r with
  | R_skip i => i = article_id
  | R_success a => art_id a = article_id /\ url a = url0
  | _ => False
  end.
Proof.
  unfold scrape_page, bind.
  destruct (outside (chromium_launch w) [] st) as [[u|e] s1]; [|discriminate].
  destruct (render w article_id url0 s1) as [[[[[t a] c] h]|e] s2];
    [|discriminate].
  destruct (outside (browser_close w) [] s2) as [[u'|e] s3]; [|discriminate].
  destruct (is_empty_article t article_id).
  - intros [= <- _]. reflexivity.
  - destruct (process_images_in_html w h s3) as [[h'|e] s4]; [|discriminate].
    intros [= <- _]. simpl. auto.
Qed.

Lemma scrape_page_id w article_id url st r st' :
  with_playwright w (scrape_page w article_id url) st = (Ok r, st') ->
  result_id r = article_id.
Proof.
  intros H. apply with_playwright_ok in H as (s0 & s1 & H).
  apply scrape_page_shape in H.
  destruct r as [j|j|j e|a]; simpl; try contradiction; tauto.
Qed.

(** Once the existence probe has answered, the task returns one of the
    four results for its identifier; an exception inside the [try] becomes
    the error result with its message. *)
Lemma scrape_returns w article_id st found :
  (article_exists article_id st).1 = Ok found ->
  exists r st',
    scrape_single_article w article_id st = (Ok r, st')
    /\ result_id r = article_id
    /\ (found = true -> r = R_exists article_id /\ st' = st)
    /\ (forall e s,
          found = false ->
          with_playwright w (scrape_page w article_id (article_url article_id))
                          st = (Raise e, s)
          -> r = R_error article_id e /\ st' = s).
Proof.
  intros Hx. pose proof (article_exists_pure article_id st) as Hp.
  unfold scrape_single_article, bind, try_except.
  destruct (article_exists article_id st) as [rx sx]. simpl in *. subst.
  destruct found.
  - eexists _, _. split; [reflexivity|]. split; [reflexivity|].
    split; [auto|discriminate].
  - destruct (with_playwright w
                (scrape_page w article_id (article_url article_id)) st)
      as [[r|e] s1] eqn:E.
    + eexists _, _. split; [reflexivity|].
      split; [eapply scrape_page_id, E|]. split; [discriminate|].
      intros e s _ [=].
    + eexists _, _. split; [reflexivity|]. split; [reflexivity|].
      split; [discriminate|]. intros e' s _ [= <- <-]. auto.
Qed.

(** An exception of the existence probe leaves the task as it is. *)
Lemma scrape_raises w article_id st e :
  (article_exists article_id st).1 = Raise e ->
  scrape_single_article w article_id st = (Raise e, st).
Proof.
  intros Hx. pose proof (article_exists_pure article_id st) as Hp.
  unfold scrape_single_article, bind.
  destruct (article_exists article_id st) as [rx sx]. simpl in *. subst.
  reflexivity.
Qed.

(** C1 as stated fails: where the file at [DB_PATH] has no [articles]
    table, the existence probe of the task, which stands before the [try],
    raises, and so does the task. *)
Lemma scrape_single_article_can_raise :
  scrape_single_article (sample_world (sample_page None None) 200) 1
                        (fresh NoTable)
  = (Raise (Py.lit "no such table: articles"), fresh NoTable).
Proof. reflexivity. Qed.

(** C1 (amended). With at least one worker: a task whose existence probe
    answers returns one of the four results for its own identifier, every
    exception raised inside its [try] block (browser start, navigation,
    scripts, extraction, image processing) becoming the error result with
    the exception's message; an exception of the existence probe, which
    stands before the [try], leaves the task as an exception, and the
    parent's handler counts that future as a failure; a task never writes
    to the table; a success whose record cannot be saved (whether
    [save_article] returns [False] or raises) is counted as a failure and
    leaves the table as it was; the loop body of the parent never raises;
    [main] never raises; and whatever the tasks returned or raised, the
    pool can always make a further step until every future is consumed. *)
Theorem task_failures_isolated (w : World) (max_workers : Z) :
  (1 <= max_workers)%Z ->
  (forall article_id st found,
      (article_exists article_id st).1 = Ok found ->
      exists r st',
        scrape_single_article w article_id st = (Ok r, st')
        /\ result_id r = article_id
        /\ (forall e s,
              found = false ->
              with_playwright w
                (scrape_page w article_id (article_url article_id)) st
              = (Raise e, s) ->
              r = R_error article_id e /\ st' = s))
  /\ (forall article_id st e,
        (article_exists article_id st).1 = Raise e ->
        scrape_single_article w article_id st = (Raise e, st)
        /\ forall c, collect w (Raise e) c st = (Ok (add_fail c), st))
  /\ (forall article_id st,
        db (scrape_single_article w article_id st).2 = db st)
  /\ (forall a c st,
        (save_article w a st).1 <> Ok true ->
        exists st',
          collect w (Ok (R_success a)) c st = (Ok (add_fail c), st')
          /\ db st' = db st)
  /\ (forall fut c st, exists c' st', collect w fut c st = (Ok c', st'))
  /\ (forall start_id end_id sched st r st',
        main w start_id end_id max_workers sched st = Some (r, st') ->
        exists c, r = Ok c)
  /\ (forall p st,
        drained p = false ->
        exists s p' st', step w max_workers s (p, st) = Some (Ok p', st')).
Proof.
  intros HN. split; [|split; [|split; [|split; [|split; [|split]]]]].
  - intros article_id st found H.
    destruct (scrape_returns w article_id st found H)
      as (r & st' & H1 & H2 & _ & H3).
    exists r, st'. auto.
  - intros article_id st e H. split; [apply scrape_raises, H|reflexivity].
  - intros article_id st. apply stable_scrape_db.
  - intros a c st Hsave.
    destruct (collect_total w (Ok (R_success a)) c st) as (c' & st' & Hc & _).
    destruct (collect_success w a c st c' st' Hc) as [[Hs _]|[Hd ->]].
    + rewrite Hs in Hsave. contradiction.
    + eauto.
  - intros fut c st.
    destruct (collect_total w fut c st) as (c' & st' & Hc & _). eauto.
  - intros start_id end_id sched st r st' Hm.
    destruct (main_returns w _ _ _ _ _ _ _ HN Hm) as (p & _ & _ & ->). eauto.
  - intros p st. apply pool_progress, HN.
Qed.

Lemma task_failures_isolated_witness :
  exists st',
    scrape_single_article timeout_world 3 (fresh (Table ∅))
    = (Ok (R_error 3 (Py.lit "Timeout 30000ms exceeded")), st').
Proof.
  assert (HN : (1 <= 1)%Z) by lia.
  assert (Hx : (article_exists 3 (fresh (Table ∅))).1 = Ok false)
    by reflexivity.
  destruct (proj1 (task_failures_isolated timeout_world 1 HN)
              3%Z (fresh (Table ∅)) false Hx)
    as (r & st' & Hs & _ & He).
  exists st'. rewrite Hs.
  destruct (He (Py.lit "Timeout 30000ms exceeded") _ eq_refl eq_refl)
    as [-> _].
  reflexivity.
Defined.

(** ** Running again *)

Lemma article_exists_stored article_id st rows :
  db st = Table rows ->
  is_Some (rows !! article_id) ->
  article_exists article_id st = (Ok true, st).
Proof.
  intros Hdb Hin. unfold article_exists, bind, sqlite3_connect, select_one.
  rewrite Hdb. simpl. rewrite Hdb.
  rewrite bool_decide_eq_true_2 by assumption. reflexivity.
Qed.

(** A stored identifier costs a probe and nothing else: no browser, no
    request, no change to the world. *)
Lemma scrape_stored w article_id st rows :
  db st = Table rows ->
  is_Some (rows !! article_id) ->
  scrape_single_article w article_id st = (Ok (R_exists article_id), st).
Proof.
  intros Hdb Hin. unfold scrape_single_article, bind.
  rewrite (article_exists_stored article_id st rows Hdb Hin). reflexivity.
Qed.

Lemma step_all_stored w max_workers s p st p' st' rows :
  db st = Table rows ->
  all_stored rows p ->
  step w max_workers s (p, st) = Some (Ok p', st') ->
  st' = st /\ all_stored rows p'.
Proof.
  intros Hdb (Hin & Hfin & H1 & H2 & H3) Hstep.
  apply step_cases in Hstep. destruct s as [|i|i].
  - destruct Hstep as (i & q & Hq & _ & -> & [= ->]).
    split; [reflexivity|]. unfold all_stored. simpl.
    split; [|auto]. intros j Hj. apply Hin. rewrite Hq.
    rewrite !elem_of_app in Hj. rewrite elem_of_app, elem_of_cons.
    destruct Hj as [Hj|[Hj|Hj]]; auto.
    apply list_elem_of_singleton in Hj. auto.
  - destruct Hstep as (fut & Hi & Hs & [= ->]).
    rewrite (scrape_stored w i st rows Hdb) in Hs
      by (apply Hin, elem_of_app; auto).
    injection Hs as <- <-.
    split; [reflexivity|]. unfold all_stored. simpl.
    split; [|split; [|auto]].
    + intros j Hj. apply Hin. rewrite elem_of_app in *.
      destruct Hj as [Hj|Hj]; [auto|]. right.
      unfold remove_id in Hj. apply list_elem_of_filter in Hj. tauto.
    + apply Forall_app. split; [exact Hfin|].
      constructor; [|constructor]. exists i. reflexivity.
  - destruct Hstep as (fut & rest & c & Ht & Hc & [= ->]).
    apply take_future_perm in Ht. rewrite Ht in Hfin.
    inversion Hfin as [|? ? [j Hj] Hrest]; subst. simpl in Hj. subst fut.
    destruct (collect_cases w (Ok (R_exists j)) (counts p) st)
      as (c' & st1 & Hc' & -> & ->).
    rewrite Hc in Hc'. injection Hc' as -> ->.
    split; [reflexivity|]. unfold all_stored. simpl. auto.
Qed.

Lemma run_all_stored w max_workers sched p st p' st' rows :
  db st = Table rows ->
  all_stored rows p ->
  run w max_workers sched (p, st) = Some (Ok p', st') ->
  st' = st /\ all_stored rows p'.
Proof.
  revert p. induction sched as [|s sched IH]; intros p Hdb Hall;
    cbn [run fst snd].
  - intros [= <- <-]. auto.
  - destruct (step w max_workers s (p, st)) as [[[p1|e] st1]|] eqn:Es;
      [|discriminate|discriminate].
    destruct (step_all_stored w _ _ _ _ _ _ rows Hdb Hall Es) as [-> Hall1].
    intros Hrun. apply (IH p1 Hdb Hall1 Hrun).
Qed.

(** A run over identifiers that are all in the table finds them all and
    changes nothing. *)
Lemma rerun_unchanged w start_id end_id max_workers st rows sched r st' :
  db st = Table rows ->
  (1 <= max_workers)%Z ->
  (forall i, (start_id <= i <= end_id)%Z -> is_Some (rows !! i)) ->
  main w start_id end_id max_workers sched st = Some (r, st') ->
  r = Ok (only_exists (length (range start_id (end_id + 1)))) /\ st' = st.
Proof.
  intros Hdb HN Hrange Hm.
  destruct (main_returns w _ _ _ _ _ _ _ HN Hm) as (p & Hrun & Hd & ->).
  assert (Hall : all_stored rows (submitted start_id end_id)).
  { unfold all_stored. simpl. split; [|auto].
    intros i Hi. rewrite app_nil_r in Hi. apply elem_of_range in Hi.
    apply Hrange. lia. }
  destruct (run_all_stored w _ _ _ _ _ _ rows Hdb Hall Hrun)
    as [-> (_ & _ & H1 & H2 & H3)].
  split; [|reflexivity].
  assert (Hnd : NoDup (tracked (submitted start_id end_id))).
  { rewrite submitted_tracked. apply range_NoDup. }
  destruct (run_keeps w _ _ _ _ _ _ Hnd Hrun)
    as (p1 & [= <-] & Hperm & Hcount & _).
  rewrite submitted_tracked, (drained_tracked p Hd) in Hperm.
  apply Permutation_length in Hperm.
  unfold total in Hcount. simpl in Hcount.
  unfold only_exists. destruct (counts p) as [a b c d].
  simpl in *. subst. f_equal. f_equal. lia.
Qed.

(** C3 as stated fails: an identifier whose page has a blank title is
    skipped by the first run, is therefore not in the table, and is
    skipped again, not found, by the second. *)
Lemma second_run_not_all_exists :
  let w := sample_world (sample_page (Some (Py.lit "  ")) None) 200 in
  let skipped :=
    {| success_count := 0; skip_count := 1; fail_count := 0;
       exists_count := 0 |} in
  exists st1 st2,
    main w 1 1 1 (one_by_one 1 1) (fresh (Table ∅)) = Some (Ok skipped, st1)
    /\ main w 1 1 1 (one_by_one 1 1) st1 = Some (Ok skipped, st2)
    /\ db st2 = Table ∅.
Proof.
  eexists _, _. split; [vm_compute; reflexivity|].
  split; vm_compute; reflexivity.
Qed.

(** *** What a first run leaves in the table *)

Lemma lit_inj (a b : string) : Py.lit a = Py.lit b -> a = b.
Proof.
  unfold Py.lit. intros H.
  rewrite <- (string_of_list_ascii_of_string a),
          <- (string_of_list_ascii_of_string b).
  f_equal. revert H.
  generalize (list_ascii_of_string a) (list_ascii_of_string b).
  induction l as [|x l IH]; intros [|y k]; simpl; try discriminate.
  - reflexivity.
  - intros [= Hxy Hlk]. f_equal; [|apply IH, Hlk].
    rewrite <- (ascii_N_embedding x), <- (ascii_N_embedding y), Hxy.
    reflexivity.
Qed.

Lemma to_int_nonnil (a : Z) :
  Z.to_int a <> Decimal.Pos Decimal.Nil
  /\ Z.to_int a <> Decimal.Neg Decimal.Nil.
Proof.
  destruct a as [|p|p]; simpl; split; try discriminate;
    intros [= H]; apply (DecimalPos.Unsigned.to_uint_nonnil p H).
Qed.

Lemma of_int_inj (a b : Z) : Py.of_int a = Py.of_int b -> a = b.
Proof.
  unfold Py.of_int. intros H. apply lit_inj in H.
  apply DecimalZ.to_int_inj.
  assert (E : Some (Z.to_int a) = Some (Z.to_int b)).
  { destruct (to_int_nonnil a) as [Ha1 Ha2].
    destruct (to_int_nonnil b) as [Hb1 Hb2].
    rewrite <- (NilZero.isi _ Ha1 Ha2), <- (NilZero.isi _ Hb1 Hb2), H.
    reflexivity. }
  injection E as E. exact E.
Qed.

(** Distinct identifiers have distinct URLs. *)
Lemma article_url_inj (a b : Z) : article_url a = article_url b -> a = b.
Proof.
  unfold article_url. intros H. apply app_inv_head in H.
  apply of_int_inj, H.
Qed.

Lemma replace_row_grows (a : Article) t (rows : gmap Z Row) j :
  consistent rows ->
  url a = article_url (art_id a) ->
  is_Some (rows !! j) ->
  is_Some (replace_row a t rows !! j).
Proof.
  intros Hcons Hurl [r Hr].
  destruct (decide (j = art_id a)) as [->|Hj].
  - rewrite replace_row_lookup_eq. eauto.
  - exists r. apply replace_row_lookup_ne; [exact Hj|].
    split; [exact Hr|]. rewrite (Hcons j r Hr), Hurl.
    intros E. apply article_url_inj in E. contradiction.
Qed.

Lemma replace_row_consistent (a : Article) t (rows : gmap Z Row) :
  consistent rows ->
  url a = article_url (art_id a) ->
  consistent (replace_row a t rows).
Proof.
  intros Hcons Hurl j r.
  destruct (decide (j = art_id a)) as [->|Hj].
  - rewrite replace_row_lookup_eq. intros [= <-]. exact Hurl.
  - rewrite replace_row_lookup_ne by exact Hj. intros [Hr _].
    apply (Hcons j r Hr).
Qed.

Lemma future_ok_grows (rows rows' : gmap Z Row) i fut :
  (forall j, is_Some (rows !! j) -> is_Some (rows' !! j)) ->
  future_ok rows i fut -> future_ok rows' i fut.
Proof.
  intros Hg. destruct fut as [[j|j|j e|a]|e]; simpl; intuition auto.
Qed.

(** Whatever a task returns is sound against the table it ran on. *)
Lemma scrape_future_ok w article_id st fut st' rows :
  db st = Table rows ->
  scrape_single_article w article_id st = (fut, st') ->
  future_ok rows article_id fut.
Proof.
  intros Hdb. destruct (rows !! article_id) as [row|] eqn:Hrow.
  - rewrite (scrape_stored w article_id st rows Hdb) by (rewrite Hrow; eauto).
    intros [= <- _]. simpl. rewrite Hrow. eauto.
  - assert (Hx : article_exists article_id st = (Ok false, st)).
    { unfold article_exists, bind, sqlite3_connect, select_one.
      rewrite Hdb. simpl. rewrite Hdb, bool_decide_eq_false_2; [reflexivity|].
      rewrite Hrow. intros [? ?]; discriminate. }
    unfold scrape_single_article, bind, try_except. rewrite Hx.
    destruct (with_playwright w
                (scrape_page w article_id (article_url article_id)) st)
      as [[r|e] s1] eqn:E.
    + intros [= <- _]. apply with_playwright_ok in E as (s0 & s2 & E).
      apply scrape_page_shape in E.
      destruct r as [j|j|j e|a]; simpl; try contradiction.
      * auto.
      * destruct E; auto.
    + intros [= <- _]. simpl. auto.
Qed.

Lemma save_article_true w (a : Article) st st' rows :
  db st = Table rows ->
  save_article w a st = (Ok true, st') ->
  db st' = Table (replace_row a (now st) rows).
Proof.
  intros Hdb.
  unfold save_article, bind, try_except, sqlite3_connect, insert_or_replace.
  rewrite Hdb. simpl. rewrite Hdb.
  destruct (sqlite_write w (now st)) as [u|e]; simpl.
  - intros [= <-]. reflexivity.
  - discriminate.
Qed.

Lemma step_run_inv w max_workers s p st p' st' :
  run_inv p st ->
  step w max_workers s (p, st) = Some (Ok p', st') ->
  run_inv p' st'.
Proof.
  intros (rows & Hdb & Hcons & Hfin & Hcol) Hstep.
  apply step_cases in Hstep. destruct s as [|i|i].
  - destruct Hstep as (i & q & _ & _ & -> & [= ->]).
    exists rows. simpl. auto.
  - destruct Hstep as (fut & _ & Hs & [= ->]).
    exists rows. simpl.
    pose proof (stable_scrape_db w i st) as Hst. rewrite Hs in Hst.
    simpl in Hst. split; [congruence|]. split; [exact Hcons|].
    split; [|exact Hcol].
    apply Forall_app. split; [exact Hfin|].
    constructor; [|constructor]. simpl.
    eapply scrape_future_ok; eassumption.
  - destruct Hstep as (fut & rest & c & Ht & Hc & [= ->]).
    apply take_future_perm in Ht. rewrite Ht in Hfin.
    inversion Hfin as [|? ? Hfut Hrest]; subst. simpl in Hfut.
    destruct fut as [[j|j|j e|a]|e].
    + destruct (collect_cases w (Ok (R_exists j)) (counts p) st)
        as (c' & s1 & Hc' & -> & ->).
      rewrite Hc in Hc'. injection Hc' as -> ->.
      exists rows. simpl. repeat split; auto.
      intros H0 k Hk. apply elem_of_app in Hk as [Hk|Hk]; [auto|].
      apply list_elem_of_singleton in Hk. subst k. apply Hfut.
    + destruct (collect_cases w (Ok (R_skip j)) (counts p) st)
        as (c' & s1 & Hc' & -> & ->).
      rewrite Hc in Hc'. injection Hc' as -> ->.
      exists rows. simpl. repeat split; auto. intros H0. lia.
    + destruct (collect_cases w (Ok (R_error j e)) (counts p) st)
        as (c' & s1 & Hc' & -> & ->).
      rewrite Hc in Hc'. injection Hc' as -> ->.
      exists rows. simpl. repeat split; auto. intros H0. lia.
    + destruct Hfut as [Hid Hurl]. simpl in Hid.
      destruct (collect_success w a _ _ _ _ Hc) as [[Hs ->]|[Hd ->]].
      * assert (Hurl' : url a = article_url (art_id a)) by congruence.
        exists (replace_row a (now st) rows). simpl.
        split; [eapply save_article_true; eassumption|].
        split; [apply replace_row_consistent; assumption|].
        split.
        { eapply Forall_impl; [exact Hrest|]. intros f Hf.
          eapply future_ok_grows; [|exact Hf].
          intros k. apply replace_row_grows; assumption. }
        intros H0 k Hk. apply elem_of_app in Hk as [Hk|Hk].
        -- apply replace_row_grows; auto.
        -- apply list_elem_of_singleton in Hk. subst k.
           rewrite <- Hid, replace_row_lookup_eq. eauto.
      * exists rows. simpl. split; [congruence|]. repeat split; auto.
        intros H0. lia.
    + destruct (collect_cases w (Raise e) (counts p) st)
        as (c' & s1 & Hc' & -> & ->).
      rewrite Hc in Hc'. injection Hc' as -> ->.
      exists rows. simpl. repeat split; auto. intros H0. lia.
Qed.

Lemma run_run_inv w max_workers sched p st p' st' :
  run_inv p st ->
  run w max_workers sched (p, st) = Some (Ok p', st') ->
  run_inv p' st'.
Proof.
  revert p st. induction sched as [|s sched IH]; intros p st Hinv;
    cbn [run fst snd].
  - intros [= <- <-]. exact Hinv.
  - destruct (step w max_workers s (p, st)) as [[[p1|e] st1]|] eqn:Es;
      [|discriminate|discriminate].
    intros Hrun. eapply IH; [|exact Hrun].
    eapply step_run_inv; eassumption.
Qed.

(** A run on a consistent table that skipped and failed nothing leaves
    every identifier of its range in the table. *)
Lemma first_run_stores w start_id end_id max_workers sched st rows c st1 :
  db st = Table rows ->
  consistent rows ->
  (1 <= max_workers)%Z ->
  main w start_id end_id max_workers sched st = Some (Ok c, st1) ->
  skip_count c = 0 ->
  fail_count c = 0 ->
  exists rows1,
    db st1 = Table rows1
    /\ forall i, (start_id <= i <= end_id)%Z -> is_Some (rows1 !! i).
Proof.
  intros Hdb Hcons HN Hm Hskip Hfail.
  destruct (main_returns w _ _ _ _ _ _ _ HN Hm) as (p & Hrun & Hd & [= ->]).
  assert (Hinv : run_inv (submitted start_id end_id) st).
  { exists rows. simpl. repeat split; auto. intros _ i Hi. inversion Hi. }
  destruct (run_run_inv w _ _ _ _ _ _ Hinv Hrun)
    as (rows1 & Hdb1 & _ & _ & Hcol).
  exists rows1. split; [exact Hdb1|]. intros i Hi.
  apply Hcol; [lia|].
  assert (Hnd : NoDup (tracked (submitted start_id end_id))).
  { rewrite submitted_tracked. apply range_NoDup. }
  destruct (run_keeps w _ _ _ _ _ _ Hnd Hrun) as (p1 & [= <-] & Hperm & _).
  rewrite submitted_tracked, (drained_tracked p Hd) in Hperm.
  rewrite Hperm. apply elem_of_range. lia.
Qed.

(** *** The books of a run *)

(** On a consistent table that has no row for the identifier, [INSERT OR
    REPLACE] deletes nothing: it is a plain insertion. *)
Lemma replace_row_fresh (a : Article) t (rows : gmap Z Row) :
  consistent rows ->
  url a = article_url (art_id a) ->
  rows !! art_id a = None ->
  replace_row a t rows = <[art_id a := row_of a t]> rows.
Proof.
  intros Hcons Hurl Hnone. unfold replace_row. f_equal.
  apply map_filter_id. intros j r Hr. simpl.
  rewrite (Hcons j r Hr), Hurl. intros E. apply article_url_inj in E.
  subst j. congruence.
Qed.

Lemma scrape_pending_ok w article_id st fut st' rows :
  db st = Table rows ->
  scrape_single_article w article_id st = (fut, st') ->
  pending_ok rows (article_id, fut).
Proof.
  intros Hdb Hs. split; simpl.
  - eapply scrape_future_ok; eassumption.
  - intros a ->. destruct (rows !! article_id) as [row|] eqn:Hrow;
      [|reflexivity].
    rewrite (scrape_stored w article_id st rows Hdb) in Hs
      by (rewrite Hrow; eauto).
    discriminate.
Qed.

Lemma step_ledger w max_workers rows0 s p st p' st' :
  ledger rows0 p st ->
  step w max_workers s (p, st) = Some (Ok p', st') ->
  ledger rows0 p' st'.
Proof.
  intros (rows & Hdb & Hcons & Hsub & Hsize & Hdom & Hfin & Hnd) Hstep.
  assert (Hnd' : NoDup (tracked p')).
  { destruct (step_keeps w _ _ _ _ _ _ Hnd Hstep) as (p1 & [= <-] & Hperm & _).
    rewrite Hperm. exact Hnd. }
  apply step_cases in Hstep. destruct s as [|i|i].
  - destruct Hstep as (i & q & _ & _ & -> & [= ->]).
    exists rows. simpl. auto 10.
  - destruct Hstep as (fut & _ & Hs & [= ->]).
    exists rows. simpl in *.
    pose proof (stable_scrape_db w i st) as Hst. rewrite Hs in Hst.
    simpl in Hst. split; [congruence|]. repeat (split; [assumption|]).
    split; [|exact Hnd'].
    apply Forall_app. split; [exact Hfin|].
    constructor; [|constructor].
    eapply scrape_pending_ok; eassumption.
  - destruct Hstep as (fut & rest & c & Ht & Hc & [= ->]).
    apply take_future_perm in Ht.
    assert (Hi : i ∉ rest.*1).
    { unfold tracked in Hnd. apply NoDup_app in Hnd as (_ & _ & Hnd).
      apply NoDup_app in Hnd as (_ & _ & Hnd).
      apply NoDup_app in Hnd as (Hnd & _ & _).
      rewrite Ht in Hnd. simpl in Hnd. apply NoDup_cons in Hnd as [Hnd _].
      exact Hnd. }
    rewrite Ht in Hfin.
    inversion Hfin as [|? ? [Hfut Hfresh] Hrest]; subst. simpl in Hfut, Hfresh.
    assert (Hsame : forall c0,
               st' = st -> c = c0 -> success_count c0 = success_count (counts p) ->
               ledger rows0
                 {| queued := queued p; running := running p;
                    finished := rest; collected := collected p ++ [i];
                    counts := c |} st').
    { intros c0 -> -> Hc0. exists rows. simpl.
      split; [exact Hdb|]. split; [exact Hcons|]. split; [exact Hsub|].
      split; [lia|]. split; [|split; [exact Hrest|exact Hnd']].
      intros j Hj. destruct (Hdom j Hj) as [H|H]; [auto|].
      right. apply elem_of_app. auto. }
    destruct fut as [[j|j|j e|a]|e].
    + destruct (collect_cases w (Ok (R_exists j)) (counts p) st)
        as (c' & s1 & Hc' & -> & ->).
      rewrite Hc in Hc'. injection Hc' as -> ->.
      eapply Hsame; reflexivity.
    + destruct (collect_cases w (Ok (R_skip j)) (counts p) st)
        as (c' & s1 & Hc' & -> & ->).
      rewrite Hc in Hc'. injection Hc' as -> ->.
      eapply Hsame; reflexivity.
    + destruct (collect_cases w (Ok (R_error j e)) (counts p) st)
        as (c' & s1 & Hc' & -> & ->).
      rewrite Hc in Hc'. injection Hc' as -> ->.
      eapply Hsame; reflexivity.
    + destruct Hfut as [Hid Hurl]. simpl in Hid.
      specialize (Hfresh a eq_refl).
      assert (Hurl' : url a = article_url (art_id a)) by congruence.
      destruct (collect_success w a _ _ _ _ Hc) as [[Hs ->]|[Hd ->]].
      * rewrite <- Hid in Hfresh.
        pose proof (save_article_true w a st st' rows Hdb Hs) as Hdb'.
        rewrite (replace_row_fresh a (now st) rows Hcons Hurl' Hfresh)
          in Hdb'.
        exists (<[art_id a := row_of a (now st)]> rows). simpl.
        split; [exact Hdb'|].
        split.
        { rewrite <- (replace_row_fresh a (now st) rows Hcons Hurl' Hfresh).
          apply replace_row_consistent; assumption. }
        split.
        { apply insert_subseteq_r; [|exact Hsub].
          eapply lookup_weaken_None; eassumption. }
        split.
        { rewrite map_size_insert_None by exact Hfresh. lia. }
        split.
        { intros j Hj. destruct (decide (j = art_id a)) as [->|Hne].
          - right. apply elem_of_app. right. rewrite Hid.
            apply list_elem_of_singleton. reflexivity.
          - rewrite lookup_insert_ne in Hj by congruence.
            destruct (Hdom j Hj) as [H|H]; [auto|].
            right. apply elem_of_app. auto. }
        split; [|exact Hnd'].
        apply Forall_forall. intros f Hf.
        rewrite Forall_forall in Hrest. destruct (Hrest f Hf) as [Hok Hfr].
        assert (Hne : f.1 <> art_id a).
        { intros E. apply Hi. rewrite <- Hid, <- E.
          apply list_elem_of_fmap. exists f. auto. }
        split.
        -- eapply future_ok_grows; [|exact Hok].
           intros k [r Hr]. destruct (decide (k = art_id a)) as [->|Hk].
           ++ rewrite lookup_insert_eq. eauto.
           ++ rewrite lookup_insert_ne by congruence. eauto.
        -- intros a' Ha'. rewrite lookup_insert_ne by congruence.
           eapply Hfr, Ha'.
      * exists rows. simpl.
        split; [congruence|]. split; [exact Hcons|]. split; [exact Hsub|].
        split; [lia|]. split; [|split; [exact Hrest|exact Hnd']].
        intros j Hj. destruct (Hdom j Hj) as [H|H]; [auto|].
        right. apply elem_of_app. auto.
    + destruct (collect_cases w (Raise e) (counts p) st)
        as (c' & s1 & Hc' & -> & ->).
      rewrite Hc in Hc'. injection Hc' as -> ->.
      eapply Hsame; reflexivity.
Qed.

Lemma run_ledger w max_workers rows0 sched p st p' st' :
  ledger rows0 p st ->
  run w max_workers sched (p, st) = Some (Ok p', st') ->
  ledger rows0 p' st'.
Proof.
  revert p st. induction sched as [|s sched IH]; intros p st Hinv;
    cbn [run fst snd].
  - intros [= <- <-]. exact Hinv.
  - destruct (step w max_workers s (p, st)) as [[[p1|e] st1]|] eqn:Es;
      [|discriminate|discriminate].
    intros Hrun. eapply IH; [|exact Hrun].
    eapply step_ledger; eassumption.
Qed.

(** What [main] leaves of a consistent table. *)
Lemma main_ledger w start_id end_id max_workers sched st rows r st' :
  db st = Table rows ->
  consistent rows ->
  (1 <= max_workers)%Z ->
  main w start_id end_id max_workers sched st = Some (r, st') ->
  exists c rows',
    r = Ok c
    /\ db st' = Table rows'
    /\ consistent rows'
    /\ rows ⊆ rows'
    /\ size rows' = size rows + success_count c
    /\ forall j, is_Some (rows' !! j) ->
         is_Some (rows !! j) \/ (start_id <= j <= end_id)%Z.
Proof.
  intros Hdb Hcons HN Hm.
  destruct (main_returns w _ _ _ _ _ _ _ HN Hm) as (p & Hrun & Hd & ->).
  assert (Hnd : NoDup (tracked (submitted start_id end_id))).
  { rewrite submitted_tracked. apply range_NoDup. }
  assert (Hinv : ledger rows (submitted start_id end_id) st).
  { exists rows. simpl. split; [exact Hdb|]. split; [exact Hcons|].
    split; [reflexivity|]. split; [lia|]. split; [auto|].
    split; [constructor|exact Hnd]. }
  destruct (run_ledger w _ _ _ _ _ _ _ Hinv Hrun)
    as (rows' & Hdb' & Hcons' & Hsub & Hsize & Hdom & _ & _).
  exists (counts p), rows'. split; [reflexivity|].
  split; [exact Hdb'|]. split; [exact Hcons'|]. split; [exact Hsub|].
  split; [exact Hsize|].
  intros j Hj. destruct (Hdom j Hj) as [H|H]; [auto|]. right.
  destruct (run_keeps w _ _ _ _ _ _ Hnd Hrun) as (p1 & [= <-] & Hperm & _).
  rewrite submitted_tracked, (drained_tracked p Hd) in Hperm.
  rewrite Hperm in H. apply elem_of_range in H. lia.
Qed.

(** *** The census of a run *)

Lemma stored_in_app rows (a b : list Z) :
  stored_in rows (a ++ b) = stored_in rows a + stored_in rows b.
Proof. unfold stored_in. rewrite filter_app, length_app. reflexivity. Qed.

Lemma stored_in_perm rows (a b : list Z) :
  a ≡ₚ b -> stored_in rows a = stored_in rows b.
Proof. intros H. unfold stored_in. rewrite H. reflexivity. Qed.

Lemma stored_in_one rows (i : Z) :
  stored_in rows [i] = if decide (is_Some (rows !! i)) then 1 else 0.
Proof.
  unfold stored_in. destruct (decide (is_Some (rows !! i))) as [H|H].
  - rewrite filter_cons_True by exact H. reflexivity.
  - rewrite filter_cons_False by exact H. reflexivity.
Qed.

Lemma step_census w max_workers rows0 s p st p' st' :
  ledger rows0 p st ->
  census rows0 p ->
  step w max_workers s (p, st) = Some (Ok p', st') ->
  census rows0 p'.
Proof.
  intros (rows & Hdb & Hcons & Hsub & Hsize & Hdom & Hfin & Hnd)
         [Hcount Hfut] Hstep.
  apply step_cases in Hstep. destruct s as [|i|i].
  - destruct Hstep as (i & q & _ & _ & -> & [= ->]). split; assumption.
  - destruct Hstep as (fut & Hrun & Hs & [= ->]). split; [exact Hcount|].
    simpl. apply Forall_app. split; [exact Hfut|].
    constructor; [|constructor]. simpl. split.
    + intros (j & ->).
      pose proof (scrape_future_ok w i st _ st' rows Hdb Hs) as [_ Hin].
      destruct (Hdom i Hin) as [H|H]; [exact H|]. exfalso.
      unfold tracked in Hnd. apply NoDup_app in Hnd as (_ & _ & Hnd).
      apply NoDup_app in Hnd as (_ & Hnd & _).
      apply (Hnd i Hrun). apply elem_of_app. right. exact H.
    + intros [r Hr]. exists i.
      rewrite (scrape_stored w i st rows Hdb) in Hs.
      * injection Hs as <- _. reflexivity.
      * exists r. eapply lookup_weaken; eassumption.
  - destruct Hstep as (fut & rest & c & Ht & Hc & [= ->]).
    apply take_future_perm in Ht. rewrite Ht in Hfut.
    inversion Hfut as [|? ? Hi Hrest]; subst. simpl in Hi.
    split; [|exact Hrest]. simpl.
    rewrite stored_in_app, stored_in_one.
    destruct (collect_cases w fut (counts p) st) as (c' & s1 & Hc' & Hk).
    rewrite Hc in Hc'. injection Hc' as <- <-.
    destruct fut as [[j|j|j e|a]|e].
    + destruct Hk as [-> _]. simpl.
      rewrite decide_True by (apply Hi; eauto). lia.
    + destruct Hk as [-> _]. simpl.
      rewrite decide_False; [lia|]. intros H. apply Hi in H as (k & [=]).
    + destruct Hk as [-> _]. simpl.
      rewrite decide_False; [lia|]. intros H. apply Hi in H as (k & [=]).
    + assert (Hn : ~ is_Some (rows0 !! i)).
      { intros H. apply Hi in H as (k & [=]). }
      rewrite decide_False by exact Hn.
      destruct Hk as [[-> _]|[-> _]]; simpl; lia.
    + destruct Hk as [-> _]. simpl.
      rewrite decide_False; [lia|]. intros H. apply Hi in H as (k & [=]).
Qed.

Lemma run_census w max_workers rows0 sched p st p' st' :
  ledger rows0 p st ->
  census rows0 p ->
  run w max_workers sched (p, st) = Some (Ok p', st') ->
  census rows0 p'.
Proof.
  revert p st. induction sched as [|s sched IH]; intros p st Hl Hc;
    cbn [run fst snd].
  - intros [= <- <-]. exact Hc.
  - destruct (step w max_workers s (p, st)) as [[[p1|e] st1]|] eqn:Es;
      [|discriminate|discriminate].
    intros Hrun. eapply IH; [| |exact Hrun].
    + eapply step_ledger; eassumption.
    + eapply step_census; eassumption.
Qed.


(** *** The history of a run *)

Lemma collect_verdict w fut c st :
  exists st',
    collect w fut c st = (Ok (count_verdict c (verdict w fut st)), st').
Proof.
  unfold collect, try_except, bind, future_result, verdict.
  destruct fut as [[i|i|i e|a]|e]; simpl; try (eexists; reflexivity).
  destruct (save_article w a st) as [[[|]|e] st']; simpl;
    eexists; reflexivity.
Qed.

Lemma history_cons w max_workers s sched p st p1 st1 :
  step w max_workers s (p, st) = Some (Ok p1, st1) ->
  history w max_workers (s :: sched) (p, st)
  = match s with
    | Collect i =>
        match take_future i (finished p) with
        | Some (fut, _) => [(i, fut, verdict w fut st)]
        | None => []
        end
    | _ => []
    end ++ history w max_workers sched (p1, st1).
Proof. intros H. cbn [history]. rewrite H. reflexivity. Qed.

(** The history lists the futures in the order the schedule consumes
    them, and the counters are the verdicts counted one by one. *)
Lemma run_history w max_workers sched : forall p st p' st',
  run w max_workers sched (p, st) = Some (Ok p', st') ->
  (history w max_workers sched (p, st)).*1.*1 = collects sched
  /\ counts p'
     = fold_left count_verdict (history w max_workers sched (p, st)).*2
                 (counts p)
  /\ Forall verdict_by_status (history w max_workers sched (p, st)).
Proof.
  induction sched as [|s sched IH]; intros p st p' st'; cbn [run fst snd].
  - intros [= <- <-]. repeat split; constructor.
  - destruct (step w max_workers s (p, st)) as [[[p1|e] st1]|] eqn:Es;
      [|discriminate|discriminate].
    intros Hrun. destruct (IH _ _ _ _ Hrun) as (H1 & H2 & H3).
    rewrite (history_cons _ _ _ _ _ _ _ _ Es).
    pose proof Es as Hc. apply step_cases in Hc.
    destruct s as [|i|i].
    + destruct Hc as (i & q & _ & _ & _ & [= ->]). simpl.
      split; [exact H1|]. split; [exact H2|exact H3].
    + destruct Hc as (fut & _ & _ & [= ->]). simpl.
      split; [exact H1|]. split; [exact H2|exact H3].
    + destruct Hc as (fut & rest & c & Ht & Hcol & [= ->]). rewrite Ht.
      cbn [fst snd counts] in *.
      split; [rewrite !fmap_app, H1; reflexivity|].
      destruct (collect_verdict w fut (counts p) st) as (s1 & Hv).
      rewrite Hcol in Hv. injection Hv as -> _.
      split; [exact H2|]. constructor; [|exact H3].
      unfold verdict_by_status, verdict. simpl.
      destruct fut as [[j|j|j e|a]|e]; auto.
      destruct (save_article w a st).1 as [[|]|]; auto.
Qed.

(** A saved success is a plain insertion under the identifier of the
    future. *)
Lemma saved_success_inserts w rows0 p st i a rest st' rows :
  ledger rows0 p st ->
  db st = Table rows ->
  take_future i (finished p) = Some (Ok (R_success a), rest) ->
  save_article w a st = (Ok true, st') ->
  rows !! i = None
  /\ db st' = Table (<[i := row_of a (now st)]> rows).
Proof.
  intros (rows1 & Hdb1 & Hcons & _ & _ & _ & Hfin & _) Hdb Ht Hs.
  rewrite Hdb in Hdb1. injection Hdb1 as <-.
  apply take_future_perm in Ht. rewrite Ht in Hfin.
  inversion Hfin as [|? ? [Hfut Hfresh] _]; subst. simpl in Hfut, Hfresh.
  destruct Hfut as [Hid Hurl]. simpl in Hid.
  specialize (Hfresh a eq_refl).
  assert (Hurl' : url a = article_url (art_id a)) by congruence.
  split; [exact Hfresh|].
  rewrite (save_article_true w a st st' rows Hdb Hs).
  rewrite <- Hid in Hfresh.
  rewrite (replace_row_fresh a (now st) rows Hcons Hurl' Hfresh), Hid.
  reflexivity.
Qed.

(** What a step does to the table, under the books of the run. *)
Lemma step_table w max_workers rows0 s p st p' st' rows :
  ledger rows0 p st ->
  db st = Table rows ->
  step w max_workers s (p, st) = Some (Ok p', st') ->
  db st' = Table rows
  \/ exists i a rest,
       s = Collect i
       /\ take_future i (finished p) = Some (Ok (R_success a), rest)
       /\ verdict w (Ok (R_success a)) st = V_success
       /\ rows !! i = None
       /\ db st' = Table (<[i := row_of a (now st)]> rows).
Proof.
  intros Hl Hdb Hstep. pose proof Hstep as Hc. apply step_cases in Hc.
  destruct s as [|i|i].
  - destruct Hc as (i & q & _ & _ & -> & _). auto.
  - destruct Hc as (fut & _ & Hs & _). left.
    pose proof (stable_scrape_db w i st) as Hst. rewrite Hs in Hst.
    simpl in Hst. congruence.
  - destruct Hc as (fut & rest & c & Ht & Hcol & _).
    destruct fut as [[j|j|j e|a]|e].
    1-3,5: match type of Hcol with
           | collect _ ?f _ _ = _ =>
               destruct (collect_cases w f (counts p) st)
                 as (c' & s1 & Hc' & _ & ->)
           end;
           rewrite Hcol in Hc'; injection Hc' as _ ->; left; exact Hdb.
    destruct (collect_success w a _ _ _ _ Hcol) as [[Hs _]|[Hd _]].
    + right. exists i, a, rest.
      destruct (saved_success_inserts w rows0 p st i a rest st' rows
                  Hl Hdb Ht Hs) as [H1 H2].
      split; [reflexivity|]. split; [exact Ht|].
      split; [unfold verdict; rewrite Hs; reflexivity|]. auto.
    + left. congruence.
Qed.

(** Once consumed, an identifier is settled for the rest of the run. *)
Lemma settled_Forall_step rows0 rows i row
    (h : list (Z * res Result * Verdict)) :
  i ∉ h.*1.*1 ->
  Forall (settled rows0 rows) h ->
  Forall (settled rows0 (<[i := row]> rows)) h.
Proof.
  intros Hi Hh. apply Forall_forall. intros e He.
  rewrite Forall_forall in Hh. specialize (Hh e He).
  assert (Hne : i <> e.1.1).
  { intros ->. apply Hi. apply list_elem_of_fmap. exists e.1.
    split; [reflexivity|]. apply list_elem_of_fmap. eauto. }
  unfold settled in *. destruct e.2; rewrite ?lookup_insert_ne by exact Hne;
    exact Hh.
Qed.

Lemma run_settled w max_workers rows0 sched : forall p st p' st' rows h,
  ledger rows0 p st ->
  census rows0 p ->
  db st = Table rows ->
  h.*1.*1 = collected p ->
  Forall (settled rows0 rows) h ->
  run w max_workers sched (p, st) = Some (Ok p', st') ->
  exists rows',
    db st' = Table rows'
    /\ Forall (settled rows0 rows')
              (h ++ history w max_workers sched (p, st)).
Proof.
  induction sched as [|s sched IH]; intros p st p' st' rows h Hl Hc Hdb Hh Hs;
    cbn [run fst snd].
  - intros [= <- <-]. exists rows. split; [exact Hdb|].
    cbn [history]. rewrite app_nil_r. exact Hs.
  - destruct (step w max_workers s (p, st)) as [[[p1|e] st1]|] eqn:Es;
      [|discriminate|discriminate].
    intros Hrun. rewrite (history_cons _ _ _ _ _ _ _ _ Es).
    pose proof (step_ledger w _ _ _ _ _ _ _ Hl Es) as Hl1.
    pose proof (step_census w _ _ _ _ _ _ _ Hl Hc Es) as Hc1.
    pose proof (step_table w _ _ _ _ _ _ _ rows Hl Hdb Es) as Ht.
    pose proof Es as Hcase. apply step_cases in Hcase.
    destruct s as [|i|i].
    + destruct Hcase as (i & q & _ & _ & _ & [= ->]).
      destruct Ht as [Hdb1|(? & ? & ? & [=] & _)]. simpl.
      eapply (IH _ _ _ _ rows h); eauto.
    + destruct Hcase as (fut & _ & _ & [= ->]).
      destruct Ht as [Hdb1|(? & ? & ? & [=] & _)]. simpl.
      eapply (IH _ _ _ _ rows h); eauto.
    + destruct Hcase as (fut & rest & c & Htake & Hcol & [= ->]).
      rewrite Htake.
      (* the identifier was not consumed before *)
      assert (Hi : i ∉ collected p).
      { destruct Hl as (_ & _ & _ & _ & _ & _ & _ & Hnd).
        unfold tracked in Hnd. apply NoDup_app in Hnd as (_ & _ & Hnd).
        apply NoDup_app in Hnd as (_ & _ & Hnd).
        apply NoDup_app in Hnd as (_ & Hnd & _).
        apply Hnd. apply take_future_perm in Htake.
        rewrite Htake. simpl. left. }
      (* what the census and the books say of the future *)
      destruct Hc as [_ Hfut]. pose proof Htake as Hperm.
      apply take_future_perm in Hperm. rewrite Hperm in Hfut.
      inversion Hfut as [|? ? Hex _]; subst. simpl in Hex.
      destruct Hl as (rows2 & Hdb2 & Hcons & Hsub & Hsize & Hdom & Hfin & Hnd).
      rewrite Hdb in Hdb2. injection Hdb2 as <-.
      assert (Habs : ~ is_Some (rows0 !! i) -> rows !! i = None).
      { intros Hn. destruct (rows !! i) eqn:E; [|reflexivity].
        destruct (Hdom i) as [H|H]; [eauto|contradiction|contradiction]. }
      replace ((h ++ [(i, fut, verdict w fut st)]
                  ++ history w max_workers sched
                       ({| queued := queued p; running := running p;
                           finished := rest;
                           collected := collected p ++ [i];
                           counts := c |}, st1)))
        with ((h ++ [(i, fut, verdict w fut st)])
                ++ history w max_workers sched
                     ({| queued := queued p; running := running p;
                         finished := rest;
                         collected := collected p ++ [i];
                         counts := c |}, st1))
        by (rewrite <- app_assoc; reflexivity).
      destruct Ht as [Hdb1|(i' & a & rest' & [= <-] & Ht' & Hv & Hnone & Hdb1)].
      * eapply (IH _ _ _ _ rows); eauto.
        { rewrite !fmap_app, Hh. reflexivity. }
        apply Forall_app. split; [exact Hs|]. constructor; [|constructor].
        unfold settled. simpl.
        (* the table did not change: the verdict is not a saved success *)
        assert (Hns : verdict w fut st = V_success -> False).
        { unfold verdict. destruct fut as [[j|j|j e|a]|e]; try discriminate.
          destruct (save_article w a st) as [[[|]|e] s2] eqn:Hsv;
            try discriminate.
          intros _.
          destruct (saved_success_inserts w rows0 p st i a rest s2 rows)
            as [Hn Hd]; auto.
          { exists rows. auto 10. }
          destruct (collect_success w a _ _ _ _ Hcol) as [[Hs' _]|[Hd' _]].
          - rewrite Hsv in Hs'. injection Hs' as <-.
            rewrite Hd in Hdb1. injection Hdb1 as Heq.
            apply (f_equal (fun m => m !! i)) in Heq.
            rewrite lookup_insert_eq, Hn in Heq. discriminate.
          - unfold collect, try_except, bind, future_result in Hcol.
            simpl in Hcol. rewrite Hsv in Hcol. simpl in Hcol.
            injection Hcol as _ <-.
            rewrite Hd in Hdb1. injection Hdb1 as Heq.
            apply (f_equal (fun m => m !! i)) in Heq.
            rewrite lookup_insert_eq, Hn in Heq. discriminate. }
        assert (Hve : verdict w fut st = V_exists
                      <-> exists j, fut = Ok (R_exists j)).
        { unfold verdict. destruct fut as [[j|j|j e|a]|e]; split;
            try discriminate; try (intros (k & [=])); eauto.
          destruct (save_article w a st).1 as [[|]|]; discriminate. }
        destruct (verdict w fut st) eqn:Ev.
        -- apply Hex, Hve. reflexivity.
        -- assert (Hn : ~ is_Some (rows0 !! i)).
           { intros H. apply Hex, Hve in H. discriminate. }
           split; [|apply Habs, Hn].
           destruct (rows0 !! i); [exfalso; apply Hn; eauto|reflexivity].
        -- assert (Hn : ~ is_Some (rows0 !! i)).
           { intros H. apply Hex, Hve in H. discriminate. }
           split; [|apply Habs, Hn].
           destruct (rows0 !! i); [exfalso; apply Hn; eauto|reflexivity].
        -- exfalso. apply Hns. reflexivity.
      * assert (rest' = rest /\ fut = Ok (R_success a)) as [-> ->].
        { rewrite Htake in Ht'. injection Ht' as -> ->. auto. }
        eapply (IH _ _ _ _ (<[i := row_of a (now st)]> rows)); eauto.
        { rewrite !fmap_app, Hh. reflexivity. }
        apply Forall_app. split.
        -- apply settled_Forall_step; [rewrite Hh; exact Hi|exact Hs].
        -- constructor; [|constructor]. unfold settled. cbn [fst snd].
           rewrite Hv. split; [|rewrite lookup_insert_eq; eauto].
           eapply lookup_weaken_None; eassumption.
Qed.

(** Every future consumed is the result of a task. *)
Lemma run_history_tasks w max_workers sched : forall p st p' st',
  Forall (fun f => exists s s', scrape_single_article w f.1 s = (f.2, s'))
         (finished p) ->
  run w max_workers sched (p, st) = Some (Ok p', st') ->
  Forall (task_result w) (history w max_workers sched (p, st)).
Proof.
  induction sched as [|s sched IH]; intros p st p' st' Hf; cbn [run fst snd].
  - intros _. constructor.
  - destruct (step w max_workers s (p, st)) as [[[p1|e] st1]|] eqn:Es;
      [|discriminate|discriminate].
    intros Hrun. rewrite (history_cons _ _ _ _ _ _ _ _ Es).
    pose proof Es as Hc. apply step_cases in Hc.
    destruct s as [|i|i].
    + destruct Hc as (i & q & _ & _ & _ & [= ->]). simpl.
      eapply IH; [|exact Hrun]. exact Hf.
    + destruct Hc as (fut & _ & Hs & [= ->]). simpl.
      eapply IH; [|exact Hrun]. simpl. apply Forall_app. split; [exact Hf|].
      constructor; [|constructor]. simpl. eauto.
    + destruct Hc as (fut & rest & c & Ht & _ & [= ->]). rewrite Ht.
      apply take_future_perm in Ht. rewrite Ht in Hf.
      inversion Hf as [|? ? H1 H2]; subst.
      simpl. constructor; [exact H1|].
      eapply IH; [|exact Hrun]. exact H2.
Qed.

(** The futures consumed and those still waiting are the futures the
    tasks left. *)
Lemma run_produced w max_workers sched : forall p st p' st',
  run w max_workers sched (p, st) = Some (Ok p', st') ->
  finished p' ++ (history w max_workers sched (p, st)).*1
  ≡ₚ finished p ++ produced w max_workers sched (p, st).
Proof.
  induction sched as [|s sched IH]; intros p st p' st'; cbn [run fst snd].
  - intros [= <- <-]. reflexivity.
  - destruct (step w max_workers s (p, st)) as [[[p1|e] st1]|] eqn:Es;
      [|discriminate|discriminate].
    intros Hrun. specialize (IH _ _ _ _ Hrun).
    rewrite (history_cons _ _ _ _ _ _ _ _ Es).
    cbn [produced]. rewrite Es.
    pose proof Es as Hc. apply step_cases in Hc.
    destruct s as [|i|i].
    + destruct Hc as (i & q & _ & _ & _ & [= ->]). exact IH.
    + destruct Hc as (fut & _ & Hs & [= ->]). cbn [fst snd finished] in *.
      rewrite Hs. rewrite IH, <- app_assoc. reflexivity.
    + destruct Hc as (fut & rest & c & Ht & _ & [= ->]). rewrite Ht.
      apply take_future_perm in Ht. cbn [fst snd finished app fmap] in *.
      rewrite fmap_cons. cbn [fst].
      rewrite <- Permutation_middle, IH, Ht. reflexivity.
Qed.

(** The history of a complete run of [main] on a consistent table. *)
Lemma main_history w start_id end_id max_workers sched st rows r st' :
  db st = Table rows ->
  consistent rows ->
  (1 <= max_workers)%Z ->
  main w start_id end_id max_workers sched st = Some (r, st') ->
  exists c rows',
    r = Ok c
    /\ db st' = Table rows'
    /\ consistent rows'
    /\ (history w max_workers sched (submitted start_id end_id, st)).*1.*1
       ≡ₚ range start_id (end_id + 1)
    /\ Forall verdict_by_status
              (history w max_workers sched (submitted start_id end_id, st))
    /\ Forall (settled rows rows')
              (history w max_workers sched (submitted start_id end_id, st)).
Proof.
  intros Hdb Hcons HN Hm.
  destruct (main_returns w _ _ _ _ _ _ _ HN Hm) as (p & Hrun & Hd & ->).
  assert (Hnd : NoDup (tracked (submitted start_id end_id))).
  { rewrite submitted_tracked. apply range_NoDup. }
  assert (Hinv : ledger rows (submitted start_id end_id) st).
  { exists rows. simpl. split; [exact Hdb|]. split; [exact Hcons|].
    split; [reflexivity|]. split; [lia|]. split; [auto|].
    split; [constructor|exact Hnd]. }
  assert (Hcen : census rows (submitted start_id end_id)).
  { split; [reflexivity|constructor]. }
  destruct (run_ledger w _ _ _ _ _ _ _ Hinv Hrun)
    as (rows' & Hdb' & Hcons' & _).
  destruct (run_settled w _ rows sched _ _ _ _ rows [] Hinv Hcen Hdb
              eq_refl (Forall_nil_2 _) Hrun) as (rows2 & Hdb2 & Hset).
  rewrite Hdb' in Hdb2. injection Hdb2 as <-.
  destruct (run_history w _ _ _ _ _ _ Hrun) as (Hids & _ & Hst).
  destruct (run_keeps w _ _ _ _ _ _ Hnd Hrun) as (p1 & [= <-] & Hperm & _).
  destruct (run_log w _ _ _ _ _ _ Hrun) as [Hcol _].
  rewrite submitted_tracked, (drained_tracked p Hd) in Hperm.
  simpl in Hcol.
  exists (counts p), rows'. split; [reflexivity|]. split; [exact Hdb'|].
  split; [exact Hcons'|]. split; [rewrite Hids, <- Hcol; exact Hperm|].
  split; [exact Hst|exact Hset].
Qed.

(** C3 (amended). For any identifier present in the table,
    [article_exists] returns true and the task returns the exists result
    at once, with no browser, no request and no change to the world.
    Hence a run over a range whose identifiers are all in the table
    counts every identifier as existing, whatever the schedule, and leaves
    the table, [created_at] included, and the rest of the world exactly
    as they were; and that is the case of a second run after a first run
    that, on a table whose rows carry the URLs of their identifiers,
    skipped and failed nothing.  An identifier that a first run on such a
    table skipped or failed was not in the table and is not stored by the
    run: afterwards the probe answers false for it (when it is an
    identifier that SQLite can bind), its task does not return the exists
    result, and a second run consumes a future for it again and counts it
    as anything but existing. *)
Theorem rerun_all_exists (w : World) (start_id end_id max_workers : Z)
    (st : State) (rows : gmap Z Row) :
  db st = Table rows ->
  (1 <= max_workers)%Z ->
  let all := only_exists (length (range start_id (end_id + 1))) in
  (forall article_id,
      is_Some (rows !! article_id) ->
      article_exists article_id st = (Ok true, st)
      /\ scrape_single_article w article_id st
         = (Ok (R_exists article_id), st))
  /\ ((forall i, (start_id <= i <= end_id)%Z -> is_Some (rows !! i)) ->
      main w start_id end_id max_workers (one_by_one start_id end_id) st
      = Some (Ok all, st)
      /\ forall sched r st',
          main w start_id end_id max_workers sched st = Some (r, st') ->
          r = Ok all /\ st' = st)
  /\ (consistent rows ->
      forall sched1 c1 st1,
        main w start_id end_id max_workers sched1 st = Some (Ok c1, st1) ->
        skip_count c1 = 0 ->
        fail_count c1 = 0 ->
        forall sched2 r st2,
          main w start_id end_id max_workers sched2 st1 = Some (r, st2) ->
          r = Ok all /\ st2 = st1)
  /\ (consistent rows ->
      forall sched1 r1 st1,
        main w start_id end_id max_workers sched1 st = Some (r1, st1) ->
        let h1 := history w max_workers sched1
                    (submitted start_id end_id, st) in
        exists rows1,
          db st1 = Table rows1
          /\ h1.*1.*1 ≡ₚ range start_id (end_id + 1)
          /\ Forall (settled rows rows1) h1
          /\ forall i fut v,
               (i, fut, v) ∈ h1 ->
               v = V_skip \/ v = V_fail ->
               rows !! i = None
               /\ rows1 !! i = None
               /\ (sqlite_int i -> article_exists i st1 = (Ok false, st1))
               /\ (forall found st',
                     scrape_single_article w i st1 = (Ok found, st') ->
                     found <> R_exists i)
               /\ forall sched2 r2 st2,
                    main w start_id end_id max_workers sched2 st1
                    = Some (r2, st2) ->
                    let h2 := history w max_workers sched2
                                (submitted start_id end_id, st1) in
                    (exists fut2 v2, (i, fut2, v2) ∈ h2)
                    /\ forall fut2 v2,
                         (i, fut2, v2) ∈ h2 ->
                         v2 <> V_exists
                         /\ forall j, fut2 <> Ok (R_exists j)).
Proof.
  intros Hdb HN all. split; [|split; [|split]].
  - intros article_id Hin.
    split; [eapply article_exists_stored|eapply scrape_stored]; eassumption.
  - intros Hrange.
    assert (Hany : forall sched r st',
               main w start_id end_id max_workers sched st = Some (r, st') ->
               r = Ok all /\ st' = st).
    { intros sched r st' Hm. eapply rerun_unchanged; eassumption. }
    split; [|exact Hany].
    destruct (main_one_by_one w start_id end_id max_workers st HN)
      as (c & st' & Hm).
    destruct (Hany _ _ _ Hm) as [[= ->] ->]. exact Hm.
  - intros Hcons sched1 c1 st1 Hm1 Hskip Hfail sched2 r st2 Hm2.
    destruct (first_run_stores w _ _ _ _ _ _ _ _ Hdb Hcons HN Hm1 Hskip Hfail)
      as (rows1 & Hdb1 & Hin).
    eapply rerun_unchanged; eassumption.
  - intros Hcons sched1 r1 st1 Hm1 h1.
    destruct (main_history w _ _ _ _ _ _ _ _ Hdb Hcons HN Hm1)
      as (c1 & rows1 & _ & Hdb1 & Hcons1 & Hids1 & _ & Hset1).
    fold h1 in Hids1, Hset1.
    exists rows1. split; [exact Hdb1|]. split; [exact Hids1|].
    split; [exact Hset1|].
    intros i fut v Hin Hv.
    assert (Hnone : rows !! i = None /\ rows1 !! i = None).
    { rewrite Forall_forall in Hset1. specialize (Hset1 _ Hin).
      unfold settled in Hset1. simpl in Hset1.
      destruct Hv as [-> | ->]; exact Hset1. }
    destruct Hnone as [Hn0 Hn1].
    assert (Hprobe : article_exists i st1 = (Ok false, st1)).
    { unfold article_exists, bind, sqlite3_connect, select_one.
      rewrite Hdb1. simpl. rewrite Hdb1, Hn1.
      rewrite bool_decide_eq_false_2; [reflexivity|].
      intros [? ?]; discriminate. }
    split; [exact Hn0|]. split; [exact Hn1|].
    split; [intros _; exact Hprobe|].
    split.
    { intros found st' Hs ->.
      destruct (scrape_future_ok w i st1 _ st' rows1 Hdb1 Hs) as [_ [x Hx]].
      congruence. }
    intros sched2 r2 st2 Hm2 h2.
    destruct (main_history w _ _ _ _ _ _ _ _ Hdb1 Hcons1 HN Hm2)
      as (c2 & rows2 & _ & Hdb2 & _ & Hids2 & Hst2 & Hset2).
    fold h2 in Hids2, Hst2, Hset2.
    split.
    { assert (Hi : i ∈ h2.*1.*1).
      { rewrite Hids2, <- Hids1.
        apply list_elem_of_fmap. exists (i, fut). split; [reflexivity|].
        apply list_elem_of_fmap. exists (i, fut, v). auto. }
      apply list_elem_of_fmap in Hi as ([j f2] & Hj & Hi).
      apply list_elem_of_fmap in Hi as ([[j' f2'] v2] & Hj' & Hi).
      simpl in Hj, Hj'. exists f2', v2.
      replace i with j' by congruence. exact Hi. }
    intros fut2 v2 Hin2.
    rewrite Forall_forall in Hset2, Hst2.
    specialize (Hset2 _ Hin2). specialize (Hst2 _ Hin2).
    unfold settled in Hset2. unfold verdict_by_status in Hst2.
    simpl in Hset2, Hst2.
    assert (Hv2 : v2 <> V_exists).
    { intros ->. destruct Hset2 as [x Hx]. congruence. }
    split; [exact Hv2|]. intros j ->. contradiction.
Qed.

Lemma rerun_all_exists_witness :
  exists st1,
    main (sample_world (sample_page (Some (Py.lit "T")) None) 200) 5 6 2
         [Start; Start; Finish 6; Finish 5; Collect 6; Collect 5]
         (fresh (Table ∅))
    = Some (Ok {| success_count := 2; skip_count := 0; fail_count := 0;
                  exists_count := 0 |}, st1)
    /\ main (sample_world (sample_page (Some (Py.lit "T")) None) 200) 5 6 2
            [Start; Finish 5; Start; Collect 5; Finish 6; Collect 6] st1
       = Some (Ok (only_exists 2), st1).
Proof.
  assert (HN : (1 <= 2)%Z) by lia.
  assert (Hc : consistent ∅).
  { intros j r Hr. rewrite lookup_empty in Hr. discriminate. }
  assert (Hm1 : exists st1,
             main (sample_world (sample_page (Some (Py.lit "T")) None) 200)
               5 6 2
               [Start; Start; Finish 6; Finish 5; Collect 6; Collect 5]
               (fresh (Table ∅))
             = Some (Ok {| success_count := 2; skip_count := 0;
                           fail_count := 0; exists_count := 0 |}, st1))
    by (eexists; vm_compute; reflexivity).
  destruct Hm1 as (st1 & Hm1). exists st1. split; [exact Hm1|].
  assert (Hm2 : exists r st2,
             main (sample_world (sample_page (Some (Py.lit "T")) None) 200)
               5 6 2
               [Start; Finish 5; Start; Collect 5; Finish 6; Collect 6] st1
             = Some (r, st2)).
  { vm_compute in Hm1. injection Hm1 as <-.
    eexists _, _. vm_compute. reflexivity. }
  destruct Hm2 as (r & st2 & Hm2).
  destruct (proj1 (proj2 (proj2 (rerun_all_exists
              (sample_world (sample_page (Some (Py.lit "T")) None) 200)
              5 6 2 (fresh (Table ∅)) ∅ eq_refl HN)))
              Hc _ _ st1 Hm1 eq_refl eq_refl _ r st2 Hm2) as [-> ->].
  exact Hm2.
Defined.

(** A blank title is skipped by both runs: the first leaves no row, and
    the task of the second goes past the probe again. *)
Example skipped_is_processed_again :
  let w := sample_world (sample_page (Some (Py.lit "  ")) None) 200 in
  let sched := [Start; Finish 5; Collect 5] in
  exists st1,
    main w 5 5 1 sched (fresh (Table ∅))
    = Some (Ok {| success_count := 0; skip_count := 1; fail_count := 0;
                  exists_count := 0 |}, st1)
    /\ history w 1 sched (submitted 5 5, fresh (Table ∅))
       = [(5%Z, Ok (R_skip 5), V_skip)]
    /\ history w 1 sched (submitted 5 5, st1)
       = [(5%Z, Ok (R_skip 5), V_skip)].
Proof.
  eexists. split; [vm_compute; reflexivity|].
  split; vm_compute; reflexivity.
Qed.

(** ** The orchestrator's counters *)

(** The loop body moves the counter of its verdict; for a success that
    is the success counter when [save_article] returned [True], and the
    failure counter, with the table as it was, otherwise. *)
Lemma collect_exact w fut c st :
  exists c' st',
    collect w fut c st = (Ok c', st')
    /\ c' = count_verdict c (verdict w fut st)
    /\ match fut with
       | Ok (R_exists _) => c' = add_exists c /\ st' = st
       | Ok (R_skip _) => c' = add_skip c /\ st' = st
       | Ok (R_error _ _) => c' = add_fail c /\ st' = st
       | Ok (R_success a) =>
           (c' = add_success c /\ save_article w a st = (Ok true, st'))
           \/ (c' = add_fail c /\ (save_article w a st).1 <> Ok true
               /\ db st' = db st)
       | Raise _ => c' = add_fail c /\ st' = st
       end.
Proof.
  destruct (collect_cases w fut c st) as (c' & st' & Hc & Hk).
  destruct (collect_verdict w fut c st) as (s1 & Hv).
  exists c', st'. split; [exact Hc|].
  split; [rewrite Hc in Hv; congruence|].
  destruct fut as [[i|i|i e|a]|e]; try exact Hk.
  destruct (collect_success w a _ _ _ _ Hc) as [[Hs ->]|[Hd ->]].
  - left. auto.
  - right. split; [reflexivity|]. split; [|exact Hd].
    destruct Hk as [[Hk _]|[_ Hk]]; [|exact Hk].
    exfalso. revert Hk. unfold add_success, add_fail.
    intros Hk. apply (f_equal fail_count) in Hk. simpl in Hk. lia.
Qed.

(** C2. For a range of K identifiers and 1 to K workers: K tasks are
    submitted, one for each identifier of the range; the pool has complete
    executions; and along every complete execution, in whatever order the
    workers finish, each identifier's task runs exactly once, each future is
    consumed exactly once, the parent returns its counters without raising,
    and the four counters add up to K.  The counters are the verdicts of
    the loop body on the futures consumed, counted one by one; the
    futures consumed are the futures the tasks left, each what the task
    of its identifier returned or raised when it ran; and the
    verdict goes by the outcome: the exists, skip and error results move
    the counter of their status, an exception out of the task moves the
    failure counter, and a success moves the success counter when
    [save_article] returned [True] and the failure counter otherwise. *)
Theorem orchestrator_counts (w : World) (start_id end_id max_workers : Z)
    (st : State) :
  (1 <= max_workers <= end_id - start_id + 1)%Z ->
  let ids := range start_id (end_id + 1) in
  queued (submitted start_id end_id) = ids
  /\ Z.of_nat (length ids) = (end_id - start_id + 1)%Z
  /\ NoDup ids
  /\ (forall i, i ∈ ids <-> (start_id <= i <= end_id)%Z)
  /\ (exists c st',
        main w start_id end_id max_workers (one_by_one start_id end_id) st
        = Some (Ok c, st'))
  /\ (forall sched r st',
        main w start_id end_id max_workers sched st = Some (r, st') ->
        exists c,
          r = Ok c
          /\ finishes sched ≡ₚ ids
          /\ collects sched ≡ₚ ids
          /\ length sched = 3 * length ids
          /\ Z.of_nat (success_count c + skip_count c + fail_count c
                       + exists_count c)
             = (end_id - start_id + 1)%Z
          /\ let h := history w max_workers sched
                        (submitted start_id end_id, st) in
             h.*1.*1 = collects sched
             /\ h.*1 ≡ₚ produced w max_workers sched
                          (submitted start_id end_id, st)
             /\ Forall (task_result w) h
             /\ Forall verdict_by_status h
             /\ c = fold_left count_verdict h.*2 no_counts)
  /\ (forall fut c st0,
        exists c' st1,
          collect w fut c st0 = (Ok c', st1)
          /\ (c' = add_exists c \/ c' = add_skip c \/ c' = add_fail c
              \/ c' = add_success c)
          /\ c' = count_verdict c (verdict w fut st0)
          /\ match fut with
             | Ok (R_exists _) => c' = add_exists c /\ st1 = st0
             | Ok (R_skip _) => c' = add_skip c /\ st1 = st0
             | Ok (R_error _ _) => c' = add_fail c /\ st1 = st0
             | Ok (R_success a) =>
                 (c' = add_success c
                  /\ save_article w a st0 = (Ok true, st1))
                 \/ (c' = add_fail c
                     /\ (save_article w a st0).1 <> Ok true
                     /\ db st1 = db st0)
             | Raise _ => c' = add_fail c /\ st1 = st0
             end).
Proof.
  intros HN ids.
  assert (Hlen : Z.of_nat (length ids) = (end_id - start_id + 1)%Z).
  { unfold ids. rewrite range_length. lia. }
  split; [reflexivity|]. split; [exact Hlen|].
  split; [apply range_NoDup|].
  split; [intros i; unfold ids; rewrite elem_of_range; lia|].
  split; [|split].
  - apply main_one_by_one. lia.
  - intros sched r st' Hm.
    destruct (main_returns w _ _ _ _ _ _ _ (proj1 HN) Hm)
      as (p & Hrun & Hd & ->).
    exists (counts p). split; [reflexivity|].
    assert (Hnd : NoDup (tracked (submitted start_id end_id))).
    { rewrite submitted_tracked. apply range_NoDup. }
    destruct (run_keeps w _ _ _ _ _ _ Hnd Hrun)
      as (p1 & [= <-] & Hperm & Hcount & Hwork).
    destruct (run_log w _ _ _ _ _ _ Hrun) as [Hcol Hfin].
    rewrite submitted_tracked, (drained_tracked p Hd) in Hperm.
    destruct (drained_parts p Hd) as (_ & _ & Hf).
    rewrite Hf in Hfin. simpl in Hcol, Hfin, Hcount.
    rewrite (drained_work p Hd) in Hwork.
    unfold work in Hwork. simpl in Hwork. fold ids in Hwork, Hperm.
    split; [rewrite <- Hfin; exact Hperm|].
    split; [rewrite <- Hcol; exact Hperm|].
    split; [lia|].
    split.
    { apply Permutation_length in Hperm. unfold total, no_counts in Hcount.
      simpl in Hcount. lia. }
    destruct (run_history w _ _ _ _ _ _ Hrun) as (H1 & H2 & H3).
    split; [exact H1|].
    split.
    { pose proof (run_produced w _ _ _ _ _ _ Hrun) as Hp.
      rewrite Hf in Hp. exact Hp. }
    split; [eapply run_history_tasks; [constructor|exact Hrun]|].
    split; [exact H3|exact H2].
  - intros fut c st0.
    destruct (collect_exact w fut c st0) as (c' & st1 & Hc & Hv & Hk).
    destruct (collect_total w fut c st0) as (c2 & st2 & Hc2 & Hor & _).
    rewrite Hc in Hc2. injection Hc2 as <- <-.
    exists c', st1. auto.
Qed.

Lemma orchestrator_counts_witness :
  exists c st',
    main (sample_world (sample_page (Some (Py.lit "T")) None) 200) 5 6 2
         [Start; Start; Finish 6; Finish 5; Collect 6; Collect 5]
         (fresh (Table ∅)) = Some (Ok c, st')
    /\ Z.of_nat (success_count c + skip_count c + fail_count c
                 + exists_count c) = 2%Z.
Proof.
  assert (HN : (1 <= 2 <= 6 - 5 + 1)%Z) by lia.
  assert (Hm : exists r st',
             main (sample_world (sample_page (Some (Py.lit "T")) None) 200)
                  5 6 2
                  [Start; Start; Finish 6; Finish 5; Collect 6; Collect 5]
                  (fresh (Table ∅)) = Some (r, st'))
    by (eexists _, _; vm_compute; reflexivity).
  destruct Hm as (r & st' & Hm).
  destruct (proj1 (proj2 (proj2 (proj2 (proj2 (proj2
              (orchestrator_counts
                 (sample_world (sample_page (Some (Py.lit "T")) None) 200)
                 5 6 2 (fresh (Table ∅)) HN))))))
              _ r st' Hm)
    as (c & -> & _ & _ & _ & Htot & _).
  exists c, st'. split; assumption.
Defined.

(** * Further properties of the code *)
(** ** The names of the cache files *)

Lemma le_bytes_bytes n x :
  length (Md5.le_bytes n x) = n
  /\ Forall (fun b => (b < 256)%N) (Md5.le_bytes n x).
Proof.
  unfold Md5.le_bytes. split.
  - rewrite length_map, length_seq. reflexivity.
  - apply Forall_forall. intros b Hb.
    apply list_elem_of_fmap in Hb as (i & -> & _).
    apply N.mod_lt. discriminate.
Qed.

Lemma digest_bytes msg :
  length (Md5.digest msg) = 16
  /\ Forall (fun b => (b < 256)%N) (Md5.digest msg).
Proof.
  unfold Md5.digest.
  destruct (fold_left Md5.compress _ _) as [[[a b] c] d].
  split.
  - rewrite !length_app. rewrite !(proj1 (le_bytes_bytes 4 _)). reflexivity.
  - rewrite !Forall_app. repeat split; apply le_bytes_bytes.
Qed.

Lemma hex_digit_hex n : (n < 16)%N -> is_hex (Md5.hex_digit n) = true.
Proof.
  intros Hn. unfold Md5.hex_digit, is_hex.
  destruct (n <? 10)%N eqn:E.
  - apply N.ltb_lt in E. apply orb_true_intro. left.
    apply andb_true_intro. split; apply N.leb_le; lia.
  - apply N.ltb_ge in E. apply orb_true_intro. right.
    apply andb_true_intro. split; apply N.leb_le; lia.
Qed.

Lemma hexdigest_hex msg :
  length (Md5.hexdigest msg) = 32
  /\ Forall (fun c => is_hex c = true) (Md5.hexdigest msg).
Proof.
  unfold Md5.hexdigest. destruct (digest_bytes msg) as [Hl Hb].
  revert Hl Hb. generalize (Md5.digest msg) as bs. intros bs Hl Hb.
  set (hex := fun b => [Md5.hex_digit (b / 16); Md5.hex_digit (b mod 16)]%N).
  assert (H : length (flat_map hex bs) = 2 * length bs
              /\ Forall (fun c => is_hex c = true) (flat_map hex bs)).
  { clear Hl. induction Hb as [|b bs Hb _ [IH1 IH2]]; simpl.
    - split; [reflexivity|constructor].
    - split; [lia|].
      constructor; [|constructor; [|exact IH2]].
      + apply hex_digit_hex. apply N.Div0.div_lt_upper_bound. lia.
      + apply hex_digit_hex. apply N.mod_lt. discriminate. }
  destruct H as [H1 H2]. split; [lia|exact H2].
Qed.

Lemma rfind_from_spec c s : forall i found,
  let r := Py.rfind_from c s i found in
  (r = found /\ c ∉ s)
  \/ ((i <= r < i + Z.of_nat (length s))%Z
      /\ s !! Z.to_nat (r - i) = Some c
      /\ c ∉ drop (S (Z.to_nat (r - i))) s).
Proof.
  induction s as [|x s IH]; intros i found; simpl.
  - left. split; [reflexivity|]. apply not_elem_of_nil.
  - specialize (IH (i + 1)%Z (if (x =? c)%N then i else found)).
    simpl in IH. destruct IH as [[Hr Hn]|(Hr & Hl & Hn)].
    + rewrite Hr. destruct (x =? c)%N eqn:E.
      * apply N.eqb_eq in E. subst x. right.
        split; [lia|]. replace (i - i)%Z with 0%Z by lia. simpl.
        split; [reflexivity|]. rewrite drop_0. exact Hn.
      * apply N.eqb_neq in E. left. split; [reflexivity|].
        rewrite not_elem_of_cons. split; [congruence|exact Hn].
    + right. split; [lia|].
      set (r := Py.rfind_from c s (i + 1) (if (x =? c)%N then i else found))
        in *.
      replace (Z.to_nat (r - i)) with (S (Z.to_nat (r - (i + 1)))) by lia.
      simpl. split; assumption.
Qed.

Lemma elem_of_drop_le {A} (x : A) (n m : nat) (l : list A) :
  n <= m -> x ∈ drop m l -> x ∈ drop n l.
Proof.
  intros Hle Hin. replace m with (n + (m - n)) in Hin by lia.
  rewrite <- drop_drop in Hin.
  apply list_elem_of_lookup in Hin as (k & Hk).
  rewrite lookup_drop in Hk. eapply list_elem_of_lookup_2, Hk.
Qed.

(** The extension [os.path.splitext] returns is empty, or starts with a
    dot and holds no slash. *)
Lemma splitext_ext_shape p :
  Py.splitext_ext p = []
  \/ exists e, Py.splitext_ext p = 46%N :: e /\ 47%N ∉ Py.splitext_ext p.
Proof.
  unfold Py.splitext_ext, Py.rfind.
  pose proof (rfind_from_spec 47 p 0 (-1)) as Hs.
  pose proof (rfind_from_spec 46 p 0 (-1)) as Hd.
  simpl in Hs, Hd.
  set (sep := Py.rfind_from 47 p 0 (-1)) in *.
  set (dot := Py.rfind_from 46 p 0 (-1)) in *.
  destruct (sep <? dot)%Z eqn:E; [|left; reflexivity].
  apply Z.ltb_lt in E.
  destruct (existsb _ _); [|left; reflexivity].
  right.
  assert (Hdot : (0 <= dot)%Z).
  { destruct Hs as [[-> _]|[? _]]; lia. }
  destruct Hd as [[Hd _]|(Hd1 & Hd2 & Hd3)]; [lia|].
  rewrite Z.sub_0_r in Hd2, Hd3.
  exists (drop (S (Z.to_nat dot)) p).
  split; [apply drop_S; exact Hd2|].
  intros Hin.
  destruct Hs as [[_ Hs]|(Hs1 & Hs2 & Hs3)].
  - apply Hs. rewrite <- (drop_0 p).
    eapply (elem_of_drop_le _ 0); [|exact Hin]. lia.
  - apply Hs3. rewrite Z.sub_0_r.
    eapply elem_of_drop_le; [|exact Hin]. lia.
Qed.

Lemma is_hex_not_slash (l : Py.str) :
  Forall (fun c => is_hex c = true) l -> 47%N ∉ l.
Proof.
  intros H Hin. rewrite Forall_forall in H. specialize (H _ Hin). discriminate.
Qed.

Lemma local_name_shape img_url bytes :
  (exists digest ext,
      local_name img_url bytes = digest ++ 46%N :: ext
      /\ length digest = 32
      /\ Forall (fun c => is_hex c = true) digest)
  /\ 47%N ∉ local_name img_url bytes.
Proof.
  unfold local_name. destruct (hexdigest_hex bytes) as [Hl Hh].
  destruct (splitext_ext_shape (Py.split_first 63 img_url))
    as [->|(e & He & Hs)].
  - split.
    + exists (Md5.hexdigest bytes), (Py.lit "png"). auto.
    + rewrite elem_of_app. intros [H|H].
      * eapply is_hex_not_slash; eassumption.
      * vm_compute in H. set_solver.
  - split.
    + exists (Md5.hexdigest bytes), e. rewrite He. auto.
    + rewrite He in Hs |- *. rewrite elem_of_app. intros [H|H].
      * eapply is_hex_not_slash; eassumption.
      * contradiction.
Qed.

Lemma download_image_created w v st :
  created st (download_image w v st).2
  ⊆ match cache_name v with Some name => {[ name ]} | None => ∅ end.
Proof.
  unfold created.
  destruct (download_image_cases w v st) as (r & st' & Hd & Hc). rewrite Hd. simpl.
  destruct Hc as [[_ Hi]|[(name & Hn & _ & _ & Hi)|[(name & Hn & _ & _ & ->)
                 |(name & resp & Hn & _ & _ & _ & _ & Hi)]]].
  - rewrite Hi. set_solver.
  - rewrite Hi, Hn, dom_insert_L. set_solver.
  - set_solver.
  - rewrite Hi, Hn, dom_insert_L. set_solver.
Qed.

(** X1. A cache file that [download_image] creates is named after the
    URL alone: 32 lowercase hexadecimal digits (the MD5 of the URL)
    followed by an extension that starts with a dot; and the name holds no
    slash, so the file [os.path.join(STATIC_DIR, local_filename)] lies in
    [STATIC_DIR] itself, whatever the URL. *)
Theorem cache_file_in_static_dir (w : World) (img_url : Py.str) (st : State)
    (name : Py.str) :
  name ∈ created st (download_image w img_url st).2 ->
  cache_name img_url = Some name
  /\ (exists digest ext,
        name = digest ++ 46%N :: ext
        /\ length digest = 32
        /\ Forall (fun c => is_hex c = true) digest)
  /\ 47%N ∉ name.
Proof.
  intros Hin. apply download_image_created in Hin.
  unfold cache_name in *.
  destruct (Py.encode img_url) as [bytes|]; simpl in *; [|set_solver].
  apply elem_of_singleton in Hin. subst name.
  split; [reflexivity|]. apply local_name_shape.
Qed.

Lemma cache_file_in_static_dir_witness :
  exists name,
    cache_name (Py.lit "http://a/b.png") = Some name /\ 47%N ∉ name.
Proof.
  let n := eval vm_compute in (cache_name (Py.lit "http://a/b.png")) in
  match n with
  | Some ?name =>
      exists name;
      assert (Hin : name ∈ created (fresh (Table ∅))
                      (download_image (sample_world (sample_page None None) 200)
                         (Py.lit "http://a/b.png") (fresh (Table ∅))).2)
        by (apply (bool_decide_unpack _); vm_compute; exact I);
      destruct (cache_file_in_static_dir _ _ _ _ Hin) as (H1 & _ & H3);
      auto
  end.
Defined.

(** ** What a computation only does in one direction *)

Section Keeps.
Context (R : State -> State -> Prop).
Hypothesis R_refl : forall st, R st st.
Hypothesis R_trans : forall a b c, R a b -> R b c -> R a c.

Lemma keeps_ret {A} (a : A) : keeps R (ret a).
Proof. intros st. apply R_refl. Qed.

Lemma keeps_raise {A} e : keeps R (@raise A e).
Proof. intros st. apply R_refl. Qed.

Lemma keeps_bind {A B} (m : M A) (k : A -> M B) :
  keeps R m -> (forall a, keeps R (k a)) -> keeps R (bind m k).
Proof.
  intros Hm Hk st. unfold bind. specialize (Hm st).
  destruct (m st) as [[a|e] st']; simpl in *; [|exact Hm].
  eapply R_trans; [exact Hm|apply Hk].
Qed.

Lemma keeps_try {A} (m : M A) (h : Py.str -> M A) :
  keeps R m -> (forall e, keeps R (h e)) -> keeps R (try_except m h).
Proof.
  intros Hm Hh st. unfold try_except. specialize (Hm st).
  destruct (m st) as [[a|e] st']; simpl in *; [exact Hm|].
  eapply R_trans; [exact Hm|apply Hh].
Qed.

Lemma keeps_mapM {A B} (g : A -> M B) (l : list A) :
  (forall a, keeps R (g a)) -> keeps R (mapM g l).
Proof.
  intros Hg. induction l as [|a l IH]; simpl.
  - apply keeps_ret.
  - apply keeps_bind; [apply Hg|]. intros b.
    apply keeps_bind; [exact IH|]. intros bs. apply keeps_ret.
Qed.

Lemma keeps_article_exists i : keeps R (article_exists i).
Proof. intros st. rewrite article_exists_pure. apply R_refl. Qed.

Lemma keeps_outside {A} (answer : nat -> res A) ev :
  (forall st, R st (tick ev st)) -> keeps R (outside answer ev).
Proof. intros H st. apply H. Qed.

Hypothesis R_tick : forall st, R st (tick [] st).

Lemma keeps_render w i u :
  (forall st, R st (tick [PageGoto u] st)) -> keeps R (render w i u).
Proof.
  intros Hg. unfold render, render_legacy, render_modern.
  destruct (i <=? ARTICLE_VERSION_THRESHOLD)%Z;
    repeat first [apply keeps_bind; [apply keeps_outside; auto|intros ?]
                 |apply keeps_ret].
Qed.

Lemma keeps_with_playwright {A} w (body : M A) :
  keeps R body -> keeps R (with_playwright w body).
Proof.
  intros Hb. unfold with_playwright.
  apply keeps_bind; [apply keeps_outside, R_tick|]. intros _ st.
  specialize (Hb st). destruct (body st) as [r st1]. simpl in Hb.
  destruct (playwright_stop w (now st1)); simpl;
    (eapply R_trans; [exact Hb|apply R_tick]).
Qed.

Lemma keeps_scrape w i :
  (forall st, R st (tick [PageGoto (article_url i)] st)) ->
  (forall html, keeps R (process_images_in_html w html)) ->
  keeps R (scrape_single_article w i).
Proof.
  intros Hg Hp. unfold scrape_single_article.
  apply keeps_bind; [apply keeps_article_exists|]. intros found.
  destruct found; [apply keeps_ret|].
  apply keeps_try; [|intros e; apply keeps_ret].
  apply keeps_with_playwright. unfold scrape_page.
  apply keeps_bind; [apply keeps_outside, R_tick|]. intros _.
  apply keeps_bind; [apply keeps_render, Hg|]. intros [[[t a] c] h].
  apply keeps_bind; [apply keeps_outside, R_tick|]. intros _.
  destruct (is_empty_article t i); [apply keeps_ret|].
  apply keeps_bind; [apply Hp|]. intros h'. apply keeps_ret.
Qed.

Lemma keeps_process w :
  (forall v, keeps R (download_image w v)) ->
  forall html, keeps R (process_images_in_html w html).
Proof.
  intros Hd html. unfold process_images_in_html.
  apply keeps_bind; [|intros; apply keeps_ret].
  apply keeps_mapM. intros [c|tag]; simpl; [apply keeps_ret|].
  rewrite replace_img_unfold.
  destruct (img_src tag) as [v|]; [|apply keeps_ret].
  apply keeps_bind; [apply Hd|].
  intros [[|? ?]|]; apply keeps_ret.
Qed.

(** A run of the pool moves the world along [R] when the tasks and the
    writer do. *)
Lemma keeps_run w max_workers sched :
  (forall i, keeps R (scrape_single_article w i)) ->
  (forall a, keeps R (save_article w a)) ->
  forall p st r st',
    run w max_workers sched (p, st) = Some (r, st') -> R st st'.
Proof.
  intros Ht Hs. induction sched as [|s sched IH]; intros p st r st';
    cbn [run fst snd].
  - intros [= _ <-]. apply R_refl.
  - destruct (step w max_workers s (p, st)) as [[[p1|e] st1]|] eqn:Es;
      [| |discriminate].
    + intros Hrun. eapply R_trans; [|eapply IH, Hrun].
      apply step_cases in Es. destruct s as [|i|i].
      * destruct Es as (i & q & _ & _ & -> & _). apply R_refl.
      * destruct Es as (fut & _ & Hf & _). specialize (Ht i st).
        rewrite Hf in Ht. exact Ht.
      * destruct Es as (fut & rest & c & _ & Hc & _).
        assert (Hk : keeps R (collect w fut (counts p))).
        { unfold collect. apply keeps_try; [|intros; apply keeps_ret].
          apply keeps_bind.
          - destruct fut; [apply keeps_ret|apply keeps_raise].
          - intros [j|j|j e|a]; try apply keeps_ret.
            apply keeps_bind; [apply Hs|]. intros []; apply keeps_ret. }
        specialize (Hk st). rewrite Hc in Hk. exact Hk.
    + intros [= _ <-].
      apply step_cases in Es.
      destruct s as [|i|i];
        [destruct Es as (? & ? & _ & _ & _ & [=])
        |destruct Es as (? & _ & _ & [=])
        |destruct Es as (? & ? & ? & _ & _ & [=])].
Qed.

End Keeps.

(** ** The files that are in the image cache *)

Lemma cache_kept_refl st : cache_kept st st.
Proof. unfold cache_kept. reflexivity. Qed.

Lemma cache_kept_trans a b c : cache_kept a b -> cache_kept b c -> cache_kept a c.
Proof. unfold cache_kept. intros H1 H2. etrans; eassumption. Qed.

Lemma cache_kept_download w v : keeps cache_kept (download_image w v).
Proof.
  intros st. unfold cache_kept.
  destruct (download_image_cases w v st) as (r & st' & Hd & Hc). rewrite Hd.
  simpl.
  destruct Hc as [[_ Hi]|[(name & _ & Hn & _ & Hi)|[(name & _ & _ & _ & ->)
                 |(name & resp & _ & Hn & _ & _ & _ & Hi)]]];
    try rewrite Hi; try reflexivity; apply insert_subseteq, Hn.
Qed.

Lemma cache_kept_scrape w i : keeps cache_kept (scrape_single_article w i).
Proof.
  apply (keeps_scrape cache_kept cache_kept_refl cache_kept_trans).
  - intros st. unfold cache_kept. reflexivity.
  - intros st. unfold cache_kept. reflexivity.
  - apply (keeps_process cache_kept cache_kept_refl cache_kept_trans).
    apply cache_kept_download.
Qed.

Lemma cache_kept_save w a : keeps cache_kept (save_article w a).
Proof.
  intros st. unfold cache_kept, save_article, bind, try_except,
    sqlite3_connect, insert_or_replace.
  destruct (db st) as [| |rows] eqn:Hdb; simpl; try reflexivity;
    rewrite Hdb; try reflexivity.
  destruct (sqlite_write w (now st)); reflexivity.
Qed.

(** X2. A file that is in the image cache when [download_image], a
    task or a run of [main] starts is still there, with the same content,
    when it ends: the scraper opens a cache file for writing only behind
    [os.path.exists], and removes none. *)
Theorem image_cache_append_only (w : World) :
  (forall img_url st name data,
      images st !! name = Some data ->
      images (download_image w img_url st).2 !! name = Some data)
  /\ (forall article_id st name data,
        images st !! name = Some data ->
        images (scrape_single_article w article_id st).2 !! name = Some data)
  /\ (forall start_id end_id max_workers sched st r st' name data,
        main w start_id end_id max_workers sched st = Some (r, st') ->
        images st !! name = Some data ->
        images st' !! name = Some data).
Proof.
  split; [|split].
  - intros v st name data H.
    eapply lookup_weaken; [exact H|]. apply cache_kept_download.
  - intros i st name data H.
    eapply lookup_weaken; [exact H|]. apply cache_kept_scrape.
  - intros s e n sched st r st' name data Hm H.
    eapply lookup_weaken; [exact H|].
    unfold main in Hm. destruct (n <=? 0)%Z.
    { injection Hm as _ <-. reflexivity. }
    destruct (run w n sched (submitted s e, st)) as [[rp st1]|] eqn:Hrun;
      [|discriminate].
    assert (Hk : cache_kept st st1).
    { eapply (keeps_run cache_kept cache_kept_refl cache_kept_trans);
        [apply cache_kept_scrape|apply cache_kept_save|exact Hrun]. }
    destruct rp as [p|e0].
    + destruct (drained p); [|discriminate]. injection Hm as _ <-. exact Hk.
    + injection Hm as _ <-. exact Hk.
Qed.

Lemma image_cache_append_only_witness :
  let w := sample_world (sample_page None None) 200 in
  let st := {| db := NoTable; images := {[ Py.lit "x" := [7%N] ]}; now := 0;
               trace := [] |} in
  images (download_image w (Py.lit "http://a/b.png") st).2 !! Py.lit "x"
  = Some [7%N].
Proof.
  intros w st.
  apply (proj1 (image_cache_append_only w)). apply lookup_singleton_eq.
Defined.


(** ** What goes over the network *)

Lemma download_image_trace w v st :
  exists evs,
    trace (download_image w v st).2 = evs ++ trace st
    /\ (evs = [] \/ evs = [HttpGet v]
        \/ exists name, cache_name v = Some name
                        /\ evs = [FileWrite name; HttpGet v]).
Proof.
  destruct (cache_name v) as [name|] eqn:Hn.
  2:{ exists []. rewrite (download_image_unencodable w v st Hn). auto. }
  destruct (images st !! name) as [data|] eqn:Hc.
  { exists []. rewrite (download_image_cached w v st name Hn) by eauto. auto. }
  destruct (requests_get w (now st) v) as [resp|e] eqn:Hg.
  2:{ exists [HttpGet v].
      rewrite (download_image_failed w v st name Hn Hc)
        by (rewrite Hg; exact I).
      auto. }
  destruct (decide (status_code resp = 200%Z)) as [Hs|Hs].
  2:{ exists [HttpGet v].
      rewrite (download_image_failed w v st name Hn Hc)
        by (rewrite Hg; exact Hs).
      auto. }
  destruct (open_wb w (S (now st)) name) as [[]|e] eqn:Ho.
  - destruct (file_write w (S (S (now st))) name) as [[]|e] eqn:Hw.
    + exists [FileWrite name; HttpGet v].
      rewrite (download_image_fetched w v st name resp Hn Hc Hg Hs Ho Hw).
      split; [reflexivity|]. right; right. eauto.
    + exists [FileWrite name; HttpGet v].
      rewrite (download_image_truncated w v st name resp e Hn Hc Hg Hs Ho Hw).
      split; [reflexivity|]. right; right. eauto.
  - exists [HttpGet v].
    rewrite (download_image_unwritable w v st name resp e Hn Hc Hg Hs Ho).
    auto.
Qed.

Lemma image_log_nil srcs : image_log srcs [].
Proof.
  split; [apply sublist_nil_l|]. split; [|reflexivity].
  intros n Hn. inversion Hn.
Qed.

Lemma image_log_app s1 s2 e1 e2 :
  image_log s1 e1 -> image_log s2 e2 -> image_log (s1 ++ s2) (e2 ++ e1).
Proof.
  intros (A1 & B1 & C1) (A2 & B2 & C2). unfold image_log, requests, writes,
    navigations in *.
  rewrite !omap_app. split; [|split].
  - rewrite rev_app_distr. apply sublist_app; assumption.
  - intros n Hn. apply elem_of_app in Hn as [Hn|Hn].
    + destruct (B2 n Hn) as (u & Hu & Hc). exists u.
      split; [apply elem_of_app; auto|exact Hc].
    + destruct (B1 n Hn) as (u & Hu & Hc). exists u.
      split; [apply elem_of_app; auto|exact Hc].
  - rewrite C1, C2. reflexivity.
Qed.

Lemma piece_step_trace w p st o st' :
  piece_step w p st o st' ->
  exists evs, trace st' = evs ++ trace st
              /\ image_log (omap piece_src [p]) evs.
Proof.
  destruct p as [c|tag]; simpl.
  { intros [_ ->]. exists []. split; [reflexivity|apply image_log_nil]. }
  destruct (img_src tag) as [v|] eqn:Hv; simpl.
  2:{ intros [_ ->]. exists []. split; [reflexivity|apply image_log_nil]. }
  intros Hstep.
  assert (Hst : st' = (download_image w v st).2).
  { destruct Hstep as [[H _]|(name & _ & H & _)]; rewrite H; reflexivity. }
  subst st'.
  destruct (download_image_trace w v st) as (evs & Ht & Hc).
  exists evs. split; [exact Ht|].
  destruct Hc as [->|[->|(name & Hn & ->)]].
  - apply image_log_nil.
  - split; [reflexivity|]. split; [|reflexivity].
    intros n Hn. inversion Hn.
  - split; [reflexivity|]. split; [|reflexivity].
    intros n Hin. apply list_elem_of_singleton in Hin. subst n.
    exists v. split; [|exact Hn]. apply list_elem_of_singleton. reflexivity.
Qed.

Lemma chain_trace w l st outs st' :
  chain (piece_step w) l st outs st' ->
  exists evs, trace st' = evs ++ trace st
              /\ image_log (omap piece_src l) evs.
Proof.
  induction 1 as [st|p l o outs st st1 st2 Hp Hc (e2 & Ht2 & Hl2)].
  - exists []. split; [reflexivity|apply image_log_nil].
  - apply piece_step_trace in Hp as (e1 & Ht1 & Hl1).
    exists (e2 ++ e1). split.
    + rewrite Ht2, Ht1, app_assoc. reflexivity.
    + change (p :: l) with ([p] ++ l). rewrite omap_app.
      apply image_log_app; assumption.
Qed.

Lemma process_images_trace w html st :
  exists evs,
    trace (process_images_in_html w html st).2 = evs ++ trace st
    /\ image_log (image_urls html) evs.
Proof.
  destruct (process_images_chain w html st) as (outs & st' & Hp & Hc).
  rewrite Hp. simpl. apply chain_trace in Hc. exact Hc.
Qed.

(** X3. The image stage asks the network only for what the markup names:
    the URLs requested, in the order of the requests, are a subsequence of
    the sources of the image tags that start with [http] (so there is at
    most one request for each tag, and every URL requested starts with
    [http]); a file is written only under the cache name of a URL that was
    requested; and no page is navigated to. *)
Theorem image_requests_from_markup (w : World) (html : Py.str) (st : State) :
  exists evs,
    trace (process_images_in_html w html st).2 = evs ++ trace st
    /\ rev (requests evs) `sublist_of` image_urls html
    /\ (forall n, n ∈ writes evs ->
          exists u, u ∈ requests evs /\ cache_name u = Some n)
    /\ navigations evs = []
    /\ Forall (fun u => Py.startswith (Py.lit "http") u = true)
              (requests evs).
Proof.
  destruct (process_images_trace w html st) as (evs & Ht & Hs & Hw & Hn).
  exists evs. repeat (split; [assumption|]).
  apply Forall_forall. intros u Hu.
  assert (Hin : u ∈ image_urls html).
  { eapply elem_of_sublist; [|exact Hs].
    apply list_elem_of_In, in_rev. rewrite rev_involutive.
    apply list_elem_of_In. exact Hu. }
  unfold image_urls in Hin. apply list_elem_of_omap in Hin as (p & _ & Hp).
  destruct p as [c|tag]; [discriminate|].
  apply img_src_Some in Hp as [_ H]. exact H.
Qed.

Lemma render_trace w i u st :
  trace (render w i u st).2 = PageGoto u :: trace st.
Proof.
  unfold render, render_legacy, render_modern, bind, outside.
  destruct (i <=? ARTICLE_VERSION_THRESHOLD)%Z.
  - destruct (page_goto w (now st) u 30000); reflexivity.
  - destruct (page_goto w (now st) u 60000) as [pg|e]; [|reflexivity].
    simpl. destruct (page_evaluate w (S (now st)) AutoScroll pg) as [pg'|e];
      [|reflexivity].
    simpl.
    destruct (page_evaluate w (S (S (now st))) RevealHidden pg');
      reflexivity.
Qed.

(** The log of the body of the [with] block: nothing, or the navigation
    followed by what the image stage did. *)
Lemma scrape_page_trace w i u st :
  exists imgs gotos,
    trace (scrape_page w i u st).2 = imgs ++ gotos ++ trace st
    /\ (gotos = [] \/ gotos = [PageGoto u])
    /\ (gotos = [] -> imgs = [])
    /\ exists srcs, image_log srcs imgs
                    /\ Forall (fun v => Py.startswith (Py.lit "http") v = true)
                              srcs.
Proof.
  assert (Hnil : exists srcs, image_log srcs []
                   /\ Forall (fun v => Py.startswith (Py.lit "http") v = true)
                             srcs).
  { exists []. split; [apply image_log_nil|constructor]. }
  unfold scrape_page, bind, outside.
  destruct (chromium_launch w (now st)) as [[]|e].
  2:{ exists [], []. simpl. auto. }
  pose proof (render_trace w i u (tick [] st)) as Hr.
  destruct (render w i u (tick [] st)) as [[[[[t a] c] h]|e] s2].
  2:{ exists [], [PageGoto u]. simpl in *. split; [exact Hr|].
      split; [auto|]. split; [discriminate|exact Hnil]. }
  simpl in Hr. simpl.
  destruct (browser_close w (now s2)) as [[]|e] eqn:E3; simpl.
  2:{ exists [], [PageGoto u]. simpl. split; [exact Hr|].
      split; [auto|]. split; [discriminate|exact Hnil]. }
  destruct (is_empty_article t i).
  { exists [], [PageGoto u]. simpl. split; [exact Hr|].
    split; [auto|]. split; [discriminate|exact Hnil]. }
  destruct (process_images_trace w h (tick [] s2)) as (evs & Ht & Hl).
  exists evs, [PageGoto u].
  destruct (process_images_in_html w h (tick [] s2)) as [[h'|e] s4];
    simpl in *; rewrite Ht, Hr.
  - split; [reflexivity|]. split; [auto|]. split; [discriminate|].
    exists (image_urls h). split; [exact Hl|].
    apply Forall_forall. intros v Hin. unfold image_urls in Hin.
    apply list_elem_of_omap in Hin as (p & _ & Hp).
    destruct p as [c0|tag]; [discriminate|].
    apply img_src_Some in Hp as [_ H]. exact H.
  - split; [reflexivity|]. split; [auto|]. split; [discriminate|].
    exists (image_urls h). split; [exact Hl|].
    apply Forall_forall. intros v Hin. unfold image_urls in Hin.
    apply list_elem_of_omap in Hin as (p & _ & Hp).
    destruct p as [c0|tag]; [discriminate|].
    apply img_src_Some in Hp as [_ H]. exact H.
Qed.

Lemma with_playwright_trace {A} w (body : M A) st :
  trace (with_playwright w body st).2 = trace st
  \/ trace (with_playwright w body st).2 = trace (body (tick [] st)).2.
Proof.
  unfold with_playwright, bind, outside.
  destruct (playwright_start w (now st)); [|left; reflexivity].
  right. destruct (body (tick [] st)) as [r s1]. simpl.
  destruct (playwright_stop w (now s1)); reflexivity.
Qed.

(** X4. What a task does outside, whatever it returns or raises: at most
    one navigation, and only to the URL of its own identifier; image
    requests and file writes only after that navigation; every image URL
    requested starts with [http]; and a file is written only under the
    cache name of a URL that was requested. *)
Theorem task_network_activity (w : World) (article_id : Z) (st : State) :
  exists imgs gotos,
    trace (scrape_single_article w article_id st).2
    = imgs ++ gotos ++ trace st
    /\ (gotos = [] \/ gotos = [PageGoto (article_url article_id)])
    /\ (gotos = [] -> imgs = [])
    /\ navigations imgs = []
    /\ Forall (fun u => Py.startswith (Py.lit "http") u = true)
              (requests imgs)
    /\ (forall n, n ∈ writes imgs ->
          exists u, u ∈ requests imgs /\ cache_name u = Some n).
Proof.
  assert (Hnone : trace (scrape_single_article w article_id st).2 = trace st
                  -> exists imgs gotos,
                       trace (scrape_single_article w article_id st).2
                       = imgs ++ gotos ++ trace st
                       /\ (gotos = [] \/ gotos = [PageGoto (article_url article_id)])
                       /\ (gotos = [] -> imgs = [])
                       /\ navigations imgs = []
                       /\ Forall (fun u => Py.startswith (Py.lit "http") u = true)
                                 (requests imgs)
                       /\ (forall n, n ∈ writes imgs ->
                             exists u, u ∈ requests imgs /\ cache_name u = Some n)).
  { intros H. exists [], []. rewrite H. simpl.
    repeat split; auto. intros n Hn. inversion Hn. }
  pose proof (article_exists_pure article_id st) as Hp.
  remember (scrape_single_article w article_id st) as out eqn:Hout.
  unfold scrape_single_article, bind, try_except in Hout.
  destruct (article_exists article_id st) as [[found|e] sx]; simpl in Hp;
    subst sx.
  2:{ apply Hnone. rewrite Hout. reflexivity. }
  destruct found.
  { apply Hnone. rewrite Hout. reflexivity. }
  set (body := scrape_page w article_id (article_url article_id)) in *.
  assert (Ht : trace out.2 = trace (with_playwright w body st).2).
  { rewrite Hout. destruct (with_playwright w body st) as [[r|e] s1];
      reflexivity. }
  destruct (with_playwright_trace w body st) as [H|H].
  { apply Hnone. congruence. }
  destruct (scrape_page_trace w article_id (article_url article_id)
              (tick [] st))
    as (imgs & gotos & Hs & Hg & Hi & srcs & (Hsub & Hw & Hn) & Hh).
  exists imgs, gotos. split; [rewrite Ht, H; exact Hs|].
  split; [exact Hg|]. split; [exact Hi|]. split; [exact Hn|].
  split; [|exact Hw].
  apply Forall_forall. intros u Hu. rewrite Forall_forall in Hh. apply Hh.
  eapply elem_of_sublist; [|exact Hsub].
  apply list_elem_of_In, in_rev. rewrite rev_involutive.
  apply list_elem_of_In. exact Hu.
Qed.

(** ** Edge cases of [main] *)

Lemma range_empty a b : (b <= a)%Z -> range a b = [].
Proof.
  intros H. unfold range. replace (Z.to_nat (b - a)) with 0 by lia.
  reflexivity.
Qed.

(** X5. The edges of [main]: over an empty range ([end_id < start_id])
    no task is created, the four counters stay at zero and nothing in the
    world changes; with a worker count below one the executor refuses to
    start and [main] raises before any task is submitted. *)
Theorem main_empty_range (w : World) (start_id end_id max_workers : Z)
    (st : State) :
  ((end_id < start_id)%Z -> (1 <= max_workers)%Z ->
   main w start_id end_id max_workers [] st = Some (Ok no_counts, st)
   /\ forall sched r st',
       main w start_id end_id max_workers sched st = Some (r, st') ->
       sched = [] /\ r = Ok no_counts /\ st' = st)
  /\ ((max_workers <= 0)%Z ->
      forall sched,
        main w start_id end_id max_workers sched st
        = Some (Raise (Py.lit "max_workers must be greater than 0"), st)).
Proof.
  split.
  - intros Hr HN.
    assert (E : (max_workers <=? 0)%Z = false) by (apply Z.leb_gt; lia).
    assert (Hs : submitted start_id end_id
                 = {| queued := []; running := []; finished := [];
                      collected := []; counts := no_counts |}).
    { unfold submitted. rewrite range_empty by lia. reflexivity. }
    unfold main. rewrite E, Hs. split; [reflexivity|].
    intros sched r st'. destruct sched as [|s sched].
    + simpl. intros [= <- <-]. auto.
    + cbn [run]. destruct s as [|i|i]; simpl; discriminate.
  - intros HN sched. unfold main.
    assert (E : (max_workers <=? 0)%Z = true) by (apply Z.leb_le; lia).
    rewrite E. reflexivity.
Qed.

Lemma main_empty_range_witness :
  main (sample_world (sample_page None None) 200) 10 9 3 [] (fresh NoTable)
  = Some (Ok no_counts, fresh NoTable)
  /\ main (sample_world (sample_page None None) 200) 1 10 0
          [Start] (fresh NoTable)
     = Some (Raise (Py.lit "max_workers must be greater than 0"),
             fresh NoTable).
Proof.
  split.
  - apply (proj1 (main_empty_range
             (sample_world (sample_page None None) 200) 10 9 3
             (fresh NoTable))); lia.
  - apply (proj2 (main_empty_range
             (sample_world (sample_page None None) 200) 1 10 0
             (fresh NoTable))); lia.
Defined.

(** ** What [strip] returns *)

Lemma lstrip_fixed (s : Py.str) c r :
  s = c :: r -> Py.isspace c = false -> Py.lstrip s = s.
Proof. intros -> H. simpl. rewrite H. reflexivity. Qed.

Lemma lstrip_lstrip (s : Py.str) : Py.lstrip (Py.lstrip s) = Py.lstrip s.
Proof.
  destruct (Py.lstrip s) as [|c r] eqn:E; [reflexivity|].
  eapply lstrip_fixed; [reflexivity|]. eapply lstrip_head, E.
Qed.

(** [s.strip()] is [s] without a run of white space at each end, and
    neither starts nor ends with white space. *)
Lemma strip_parts (s : Py.str) :
  exists p q,
    s = p ++ Py.strip s ++ q
    /\ Forall (fun c => Py.isspace c = true) p
    /\ Forall (fun c => Py.isspace c = true) q
    /\ (forall c r, Py.strip s = c :: r -> Py.isspace c = false)
    /\ (forall r c, Py.strip s = r ++ [c] -> Py.isspace c = false).
Proof.
  unfold Py.strip, Py.rstrip.
  destruct (lstrip_suffix s) as (p & Hp & Fp).
  destruct (lstrip_suffix (rev (Py.lstrip s))) as (q & Hq & Fq).
  set (t := Py.lstrip s) in *. set (r := Py.lstrip (rev t)) in *.
  assert (Ht : t = rev r ++ rev q).
  { rewrite <- (rev_involutive t), Hq, rev_app_distr. reflexivity. }
  exists p, (rev q). split; [rewrite <- Ht; exact Hp|].
  split; [exact Fp|]. split; [apply Forall_rev; exact Fq|].
  split.
  - intros c r' Hc.
    destruct (rev r) as [|c0 r0] eqn:Er; [discriminate|].
    injection Hc as -> ->.
    assert (Hl : Py.lstrip s = c :: r' ++ rev q) by exact Ht.
    eapply lstrip_head, Hl.
  - intros r' c Hc. apply (f_equal (@rev N)) in Hc.
    rewrite rev_involutive, rev_app_distr in Hc. simpl in Hc.
    eapply lstrip_head. exact Hc.
Qed.

Lemma strip_fixed (s : Py.str) :
  (forall c r, s = c :: r -> Py.isspace c = false) ->
  (forall r c, s = r ++ [c] -> Py.isspace c = false) ->
  Py.strip s = s.
Proof.
  intros Hh Hl. unfold Py.strip, Py.rstrip.
  assert (H1 : Py.lstrip s = s).
  { destruct s as [|c r]; [reflexivity|].
    eapply lstrip_fixed; [reflexivity|]. eapply Hh. reflexivity. }
  rewrite H1.
  assert (H2 : Py.lstrip (rev s) = rev s).
  { destruct (rev s) as [|c r] eqn:E; [reflexivity|].
    eapply lstrip_fixed; [reflexivity|]. apply (Hl (rev r)).
    rewrite <- (rev_involutive s), E. reflexivity. }
  rewrite H2. apply rev_involutive.
Qed.

Lemma strip_strip (s : Py.str) : Py.strip (Py.strip s) = Py.strip s.
Proof.
  destruct (strip_parts s) as (p & q & _ & _ & _ & Hh & Hl).
  apply strip_fixed; assumption.
Qed.

(** ** What a success carries *)

Lemma extract_header_trimmed page article_id :
  let '(t, a, c) := extract_header page article_id in
  (t = title_placeholder article_id \/ Py.strip t = t)
  /\ Py.strip a = a /\ Py.strip c = c.
Proof.
  unfold extract_header.
  split; [|split].
  - destruct (query_selector page sel_title); [right; apply strip_strip|auto].
  - destruct (query_selector page sel_author);
      [apply strip_strip|vm_compute; reflexivity].
  - destruct (query_selector page sel_category);
      [apply strip_strip|reflexivity].
Qed.

Lemma render_fields w article_id u st f st' :
  render w article_id u st = (Ok f, st') ->
  exists page, f.1 = extract_header page article_id.
Proof.
  unfold render, render_legacy, render_modern, bind, outside.
  destruct (article_id <=? ARTICLE_VERSION_THRESHOLD)%Z.
  - destruct (page_goto w (now st) u 30000) as [pg|e]; [|discriminate].
    intros [= <- _]. exists pg. reflexivity.
  - destruct (page_goto w (now st) u 60000) as [pg|e]; [|discriminate].
    simpl.
    destruct (page_evaluate w (S (now st)) AutoScroll pg) as [pg1|e];
      [|discriminate].
    simpl.
    destruct (page_evaluate w (S (S (now st))) RevealHidden pg1) as [pg2|e];
      [|discriminate].
    intros [= <- _]. exists pg2. reflexivity.
Qed.

Lemma scrape_page_success w article_id u st a st' :
  scrape_page w article_id u st = (Ok (R_success a), st') ->
  art_id a = article_id
  /\ url a = u
  /\ is_empty_article (title a) article_id = false
  /\ Py.strip (title a) = title a
  /\ Py.strip (author a) = author a
  /\ Py.strip (category a) = category a.
Proof.
  unfold scrape_page, bind.
  destruct (outside (chromium_launch w) [] st) as [[u0|e] s1]; [|discriminate].
  destruct (render w article_id u s1) as [[f|e] s2] eqn:Er; [|discriminate].
  apply render_fields in Er as (page & Hf).
  pose proof (extract_header_trimmed page article_id) as Hh.
  rewrite <- Hf in Hh. destruct f as [[[t au] c] h]. simpl in Hh.
  destruct Hh as (Ht & Ha & Hc).
  destruct (outside (browser_close w) [] s2) as [[u'|e] s3]; [|discriminate].
  destruct (is_empty_article t article_id) eqn:Ee; [discriminate|].
  destruct (process_images_in_html w h s3) as [[h'|e] s4]; [|discriminate].
  intros [= <- _]. simpl. repeat split; auto.
  destruct Ht as [->|Ht]; [|exact Ht].
  exfalso. assert (He : is_empty_article (title_placeholder article_id)
                          article_id = true).
  { apply is_empty_article_iff. auto. }
  congruence.
Qed.

(** X6. A success result is well formed: it carries the identifier of
    the task and the URL built from it; its title is not empty, is not the
    placeholder that stands for a missing title element, and has no white
    space at either end; author and category have none either; and the
    identifier was not in the table when the task looked. *)
Theorem success_result_well_formed (w : World) (article_id : Z)
    (st st' : State) (a : Article) :
  scrape_single_article w article_id st = (Ok (R_success a), st') ->
  art_id a = article_id
  /\ url a = article_url article_id
  /\ title a <> []
  /\ title a <> title_placeholder article_id
  /\ Py.strip (title a) = title a
  /\ Py.strip (author a) = author a
  /\ Py.strip (category a) = category a
  /\ exists rows, db st = Table rows /\ rows !! article_id = None.
Proof.
  intros H.
  assert (Hx : exists rows, db st = Table rows /\ rows !! article_id = None
                            /\ article_exists article_id st = (Ok false, st)).
  { pose proof (article_exists_pure article_id st) as Hp.
    unfold scrape_single_article, bind in H.
    destruct (article_exists article_id st) as [[found|e] sx] eqn:Ex;
      simpl in Hp; subst sx; [|discriminate].
    destruct found; [discriminate|].
    unfold article_exists, bind, sqlite3_connect, select_one in Ex.
    destruct (db st) as [| |rows] eqn:Hdb; simpl in Ex;
      try rewrite Hdb in Ex; try discriminate.
    injection Ex as Ex.
    apply bool_decide_eq_false in Ex.
    exists rows. split; [reflexivity|]. split; [|reflexivity].
    destruct (rows !! article_id); [exfalso; apply Ex; eauto|reflexivity]. }
  destruct Hx as (rows & Hdb & Hrow & Hx).
  unfold scrape_single_article, bind, try_except in H. rewrite Hx in H.
  destruct (with_playwright w
              (scrape_page w article_id (article_url article_id)) st)
    as [[r|e] s1] eqn:E; [|discriminate].
  injection H as -> ->.
  apply with_playwright_ok in E as (s0 & s2 & E).
  apply scrape_page_success in E as (H1 & H2 & H3 & H4 & H5 & H6).
  split; [exact H1|]. split; [exact H2|].
  split.
  { intros Hnil. rewrite Hnil in H3. discriminate. }
  split.
  { intros Hp. rewrite Hp in H3.
    assert (He : is_empty_article (title_placeholder article_id)
                   article_id = true) by (apply is_empty_article_iff; auto).
    congruence. }
  repeat (split; [assumption|]). eauto.
Qed.

Lemma success_result_well_formed_witness :
  exists a st',
    scrape_single_article
      (sample_world (sample_page (Some (Py.lit " T ")) None) 200) 5
      (fresh (Table ∅))
    = (Ok (R_success a), st')
    /\ title a = Py.lit "T" /\ url a = article_url 5.
Proof.
  assert (Hs : exists a st',
             scrape_single_article
               (sample_world (sample_page (Some (Py.lit " T ")) None) 200) 5
               (fresh (Table ∅))
             = (Ok (R_success a), st') /\ title a = Py.lit "T")
    by (eexists _, _; vm_compute; split; reflexivity).
  destruct Hs as (a & st' & Hs & Ht). exists a, st'.
  split; [exact Hs|]. split; [exact Ht|].
  exact (proj1 (proj2 (success_result_well_formed _ _ _ _ _ Hs))).
Defined.

(** ** The table after a run *)

(** X7. On a table whose rows carry the URLs of their identifiers, a run
    of [main] changes no stored row: every row of the table is still there
    afterwards, [created_at] included, so [INSERT OR REPLACE] never
    replaces; and a row that was not there before is for an identifier of
    the range and carries the URL of that identifier. *)
Theorem main_keeps_stored_rows (w : World)
    (start_id end_id max_workers : Z) (sched : list Step) (st st' : State)
    (rows : gmap Z Row) (r : res Counters) :
  db st = Table rows ->
  consistent rows ->
  (1 <= max_workers)%Z ->
  main w start_id end_id max_workers sched st = Some (r, st') ->
  exists rows',
    db st' = Table rows'
    /\ (forall j row, rows !! j = Some row -> rows' !! j = Some row)
    /\ (forall j row,
          rows' !! j = Some row -> rows !! j = None ->
          (start_id <= j <= end_id)%Z /\ row_url row = article_url j).
Proof.
  intros Hdb Hcons HN Hm.
  destruct (main_ledger w _ _ _ _ _ _ _ _ Hdb Hcons HN Hm)
    as (c & rows' & _ & Hdb' & Hcons' & Hsub & _ & Hdom).
  exists rows'. split; [exact Hdb'|]. split.
  - intros j row Hj. eapply lookup_weaken; eassumption.
  - intros j row Hj Hnone. split; [|apply Hcons', Hj].
    destruct (Hdom j) as [[x Hx]|H]; [eauto|congruence|exact H].
Qed.

(** X8. On such a table the success counter of [main] is exactly the
    number of rows the run added to the table. *)
Theorem success_count_is_rows_added (w : World)
    (start_id end_id max_workers : Z) (sched : list Step) (st st' : State)
    (rows : gmap Z Row) (r : res Counters) :
  db st = Table rows ->
  consistent rows ->
  (1 <= max_workers)%Z ->
  main w start_id end_id max_workers sched st = Some (r, st') ->
  exists c rows',
    r = Ok c
    /\ db st' = Table rows'
    /\ size rows' = size rows + success_count c.
Proof.
  intros Hdb Hcons HN Hm.
  destruct (main_ledger w _ _ _ _ _ _ _ _ Hdb Hcons HN Hm)
    as (c & rows' & Hr & Hdb' & _ & _ & Hsize & _).
  eauto.
Qed.

Lemma consistent_empty : consistent ∅.
Proof. intros j r Hr. rewrite lookup_empty in Hr. discriminate. Qed.

Lemma main_keeps_stored_rows_witness :
  let w := sample_world (sample_page (Some (Py.lit "T")) None) 200 in
  let old := row_of (sample_article 1 []) 0 in
  let st := {| db := Table {[ 1%Z := old ]}; images := ∅; now := 7;
               trace := [] |} in
  exists st' rows',
    main w 1 2 2 [Start; Start; Finish 2; Finish 1; Collect 1; Collect 2] st
    = Some (Ok {| success_count := 1; skip_count := 0; fail_count := 0;
                  exists_count := 1 |}, st')
    /\ db st' = Table rows'
    /\ rows' !! 1%Z = Some old.
Proof.
  intros w old st.
  assert (Hm : exists st',
             main w 1 2 2
               [Start; Start; Finish 2; Finish 1; Collect 1; Collect 2] st
             = Some (Ok {| success_count := 1; skip_count := 0;
                           fail_count := 0; exists_count := 1 |}, st'))
    by (eexists; vm_compute; reflexivity).
  destruct Hm as (st' & Hm). exists st'.
  assert (Hc : consistent ({[ 1%Z := old ]} : gmap Z Row)).
  { intros j r Hr. apply lookup_singleton_Some in Hr as [<- <-].
    reflexivity. }
  assert (HN : (1 <= 2)%Z) by lia.
  destruct (main_keeps_stored_rows w 1 2 2 _ st st' _ _ eq_refl Hc HN Hm)
    as (rows' & Hdb & Hold & _).
  exists rows'. split; [exact Hm|]. split; [exact Hdb|].
  apply Hold. apply lookup_singleton_eq.
Defined.

Lemma success_count_is_rows_added_witness :
  exists st' rows',
    main (sample_world (sample_page (Some (Py.lit "T")) None) 200) 5 6 2
         [Start; Start; Finish 6; Finish 5; Collect 6; Collect 5]
         (fresh (Table ∅))
    = Some (Ok {| success_count := 2; skip_count := 0; fail_count := 0;
                  exists_count := 0 |}, st')
    /\ db st' = Table rows'
    /\ size rows' = 2.
Proof.
  assert (Hm : exists st',
             main (sample_world (sample_page (Some (Py.lit "T")) None) 200)
               5 6 2
               [Start; Start; Finish 6; Finish 5; Collect 6; Collect 5]
               (fresh (Table ∅))
             = Some (Ok {| success_count := 2; skip_count := 0;
                           fail_count := 0; exists_count := 0 |}, st'))
    by (eexists; vm_compute; reflexivity).
  destruct Hm as (st' & Hm). exists st'.
  assert (HN : (1 <= 2)%Z) by lia.
  destruct (success_count_is_rows_added _ 5 6 2 _ (fresh (Table ∅)) st' ∅ _
              eq_refl consistent_empty HN Hm)
    as (c & rows' & Hc & Hdb & Hsize).
  injection Hc as <-. exists rows'. split; [exact Hm|]. split; [exact Hdb|].
  rewrite Hsize, map_size_empty. reflexivity.
Defined.

(** ** The exists counter of a run *)

(** X20. On a table whose rows carry the URLs of their identifiers, the
    exists counter of [main] is exactly the number of identifiers of the
    range that were in the table when the run started, whatever the
    schedule: an article stored by the run itself is never counted as
    existing, and a stored one is never fetched. *)
Theorem exists_count_is_stored_before (w : World)
    (start_id end_id max_workers : Z) (sched : list Step) (st st' : State)
    (rows : gmap Z Row) (r : res Counters) :
  db st = Table rows ->
  consistent rows ->
  (1 <= max_workers)%Z ->
  main w start_id end_id max_workers sched st = Some (r, st') ->
  exists c,
    r = Ok c
    /\ exists_count c = stored_in rows (range start_id (end_id + 1))
    /\ success_count c + skip_count c + fail_count c
       = length (range start_id (end_id + 1))
         - stored_in rows (range start_id (end_id + 1)).
Proof.
  intros Hdb Hcons HN Hm.
  destruct (main_returns w _ _ _ _ _ _ _ HN Hm) as (p & Hrun & Hd & ->).
  assert (Hnd : NoDup (tracked (submitted start_id end_id))).
  { rewrite submitted_tracked. apply range_NoDup. }
  assert (Hinv : ledger rows (submitted start_id end_id) st).
  { exists rows. simpl. split; [exact Hdb|]. split; [exact Hcons|].
    split; [reflexivity|]. split; [lia|]. split; [auto|].
    split; [constructor|exact Hnd]. }
  assert (Hcen : census rows (submitted start_id end_id)).
  { split; [reflexivity|constructor]. }
  destruct (run_census w _ _ _ _ _ _ _ Hinv Hcen Hrun) as [Hcount _].
  destruct (run_keeps w _ _ _ _ _ _ Hnd Hrun)
    as (p1 & [= <-] & Hperm & Htot & _).
  rewrite submitted_tracked, (drained_tracked p Hd) in Hperm.
  exists (counts p). split; [reflexivity|].
  rewrite <- (stored_in_perm rows _ _ Hperm).
  split; [exact Hcount|].
  simpl in Htot. unfold total in Htot. simpl in Htot.
  apply Permutation_length in Hperm. rewrite <- Hperm.
  lia.
Qed.

Lemma exists_count_is_stored_before_witness :
  let w := sample_world (sample_page (Some (Py.lit "T")) None) 200 in
  let old := row_of (sample_article 1 []) 0 in
  let st := {| db := Table {[ 1%Z := old ]}; images := ∅; now := 7;
               trace := [] |} in
  exists c st',
    main w 1 2 2 [Start; Start; Finish 2; Finish 1; Collect 1; Collect 2] st
    = Some (Ok c, st')
    /\ exists_count c = 1.
Proof.
  intros w old st.
  assert (Hm : exists c st',
             main w 1 2 2
               [Start; Start; Finish 2; Finish 1; Collect 1; Collect 2] st
             = Some (Ok c, st'))
    by (eexists _, _; vm_compute; reflexivity).
  destruct Hm as (c & st' & Hm). exists c, st'. split; [exact Hm|].
  assert (Hc : consistent ({[ 1%Z := old ]} : gmap Z Row)).
  { intros j r Hr. apply lookup_singleton_Some in Hr as [<- <-].
    reflexivity. }
  assert (HN : (1 <= 2)%Z) by lia.
  destruct (exists_count_is_stored_before w 1 2 2 _ st st' _ _
              eq_refl Hc HN Hm) as (c' & Hc' & He & _).
  injection Hc' as <-. rewrite He. vm_compute. reflexivity.
Defined.

(** ** Creating the table *)

Lemma init_database_unfold w st :
  init_database w st
  = match db st with
    | Unopenable => (Raise (Py.lit "unable to open database file"), st)
    | _ =>
        (let* _ := create_table_if_not_exists w in
         let* _ := create_index_if_not_exists w in
         let* _ := create_index_if_not_exists w in
         let* _ := create_index_if_not_exists w in
         ret tt) st
    end.
Proof.
  unfold init_database, bind at 1, sqlite3_connect.
  destruct (db st); reflexivity.
Qed.

(** What is left of the file whatever way [init_database] ends. *)
Lemma init_database_db w st :
  images (init_database w st).2 = images st
  /\ trace (init_database w st).2 = trace st
  /\ match db st with
     | Unopenable => init_database w st
                     = (Raise (Py.lit "unable to open database file"), st)
     | NoTable =>
         db (init_database w st).2 = NoTable
         /\ (exists e, (init_database w st).1 = Raise e)
         \/ db (init_database w st).2 = Table ∅
     | Table rows => db (init_database w st).2 = Table rows
     end.
Proof.
  rewrite init_database_unfold.
  unfold bind, create_table_if_not_exists, create_index_if_not_exists,
    outside, ret.
  destruct (db st) as [| |rows] eqn:Hdb; simpl.
  - auto.
  - destruct (sqlite_write w (now st)) as [u|e]; simpl.
    + destruct (sqlite_write w (S (now st))); simpl; [|auto].
      destruct (sqlite_write w (S (S (now st)))); simpl; [|auto].
      destruct (sqlite_write w (S (S (S (now st))))); simpl; auto.
    + split; [reflexivity|]. split; [reflexivity|]. left.
      try rewrite Hdb. eauto.
  - destruct (sqlite_write w (now st)) as [u|e]; simpl.
    + destruct (sqlite_write w (S (now st))); simpl; [|auto].
      destruct (sqlite_write w (S (S (now st)))); simpl; [|auto].
      destruct (sqlite_write w (S (S (S (now st))))); simpl; auto.
    + try rewrite Hdb. auto.
Qed.

Lemma init_database_returns w st st' :
  init_database w st = (Ok tt, st') ->
  exists rows,
    db st' = Table rows
    /\ match db st with
       | Table rows0 => rows = rows0
       | _ => rows = ∅
       end.
Proof.
  intros H. destruct (init_database_db w st) as (_ & _ & Hd).
  rewrite H in Hd. simpl in Hd.
  destruct (db st) as [| |rows0].
  - discriminate.
  - destruct Hd as [[_ [e He]]|Hd]; [discriminate|]. eauto.
  - eauto.
Qed.

Lemma init_database_accepts w st :
  db st <> Unopenable ->
  (forall t, sqlite_write w t = Ok tt) ->
  exists st', init_database w st = (Ok tt, st').
Proof.
  intros Hdb Hw. rewrite init_database_unfold.
  unfold bind, create_table_if_not_exists, create_index_if_not_exists,
    outside, ret.
  destruct (db st) as [| |rows] eqn:E; [contradiction| |];
    try rewrite E; rewrite Hw; simpl; rewrite !Hw; eauto.
Qed.

(** X9. [init_database] never loses a row: on a file that has the table
    it leaves every row as it is, whether it ends normally or with an
    exception ([CREATE TABLE IF NOT EXISTS]); on a file that cannot be
    opened it raises and changes nothing; when it returns on a file without
    the table, the table is there and empty; when it returns, the image
    cache is as it was and running it again leaves the table as it is;
    and it does return when the file can be opened and the engine accepts
    its statements. *)
Theorem init_database_keeps_rows (w : World) (st : State) :
  (forall rows, db st = Table rows -> db (init_database w st).2 = Table rows)
  /\ (db st = Unopenable ->
      init_database w st
      = (Raise (Py.lit "unable to open database file"), st))
  /\ (forall st',
        init_database w st = (Ok tt, st') ->
        (db st = NoTable -> db st' = Table ∅)
        /\ images st' = images st
        /\ forall st'',
            init_database w st' = (Ok tt, st'') -> db st'' = db st')
  /\ (db st <> Unopenable ->
      (forall t, sqlite_write w t = Ok tt) ->
      exists st', init_database w st = (Ok tt, st')).
Proof.
  destruct (init_database_db w st) as (Hi & _ & Hd).
  split; [|split; [|split]].
  - intros rows Hdb. rewrite Hdb in Hd. exact Hd.
  - intros Hdb. rewrite Hdb in Hd. exact Hd.
  - intros st' H. split; [|split].
    + intros Hdb. destruct (init_database_returns w st st' H) as (rows & -> & Hr).
      rewrite Hdb in Hr. congruence.
    + rewrite H in Hi. exact Hi.
    + intros st'' H'.
      destruct (init_database_returns w st st' H) as (rows & Hdb' & _).
      destruct (init_database_returns w st' st'' H') as (rows' & Hdb'' & Hr).
      rewrite Hdb' in Hr. congruence.
  - apply init_database_accepts.
Qed.

Lemma init_database_keeps_rows_witness :
  let w := sample_world (sample_page None None) 200 in
  let old := row_of (sample_article 1 []) 0 in
  let st := fresh (Table {[ 1%Z := old ]}) in
  db (init_database w st).2 = Table {[ 1%Z := old ]}
  /\ exists st', init_database w (fresh NoTable) = (Ok tt, st')
                 /\ db st' = Table ∅.
Proof.
  intros w old st. split.
  - apply (proj1 (init_database_keeps_rows w st)). reflexivity.
  - assert (Hw : forall t, sqlite_write w t = Ok tt) by reflexivity.
    assert (Hdb : db (fresh NoTable) <> Unopenable) by discriminate.
    destruct (proj2 (proj2 (proj2 (init_database_keeps_rows w (fresh NoTable))))
                Hdb Hw) as (st' & H).
    exists st'. split; [exact H|].
    apply (proj1 (proj2 (proj2 (init_database_keeps_rows w (fresh NoTable))))
                 st' H).
    reflexivity.
Defined.

(** ** A database file that has the table *)

(** X10. On a database file that has the [articles] table, and for the
    identifiers that SQLite can bind, the existence probe answers, with
    true exactly for the identifiers that have a row; no task raises:
    each returns a result for its own identifier and leaves the table
    as it is; and a record that the engine accepts is saved and found by
    the next probe. *)
Theorem table_present_no_task_raises (w : World) (st : State)
    (rows : gmap Z Row) :
  db st = Table rows ->
  (forall article_id,
      sqlite_int article_id ->
      article_exists article_id st
      = (Ok (bool_decide (is_Some (rows !! article_id))), st))
  /\ (forall article_id,
        sqlite_int article_id ->
        exists r st2,
          scrape_single_article w article_id st = (Ok r, st2)
          /\ result_id r = article_id
          /\ db st2 = Table rows)
  /\ (forall a,
        sqlite_int (art_id a) ->
        sqlite_write w (now st) = Ok tt ->
        exists st2,
          save_article w a st = (Ok true, st2)
          /\ article_exists (art_id a) st2 = (Ok true, st2)).
Proof.
  intros Hdb.
  assert (Hex : forall article_id,
             article_exists article_id st
             = (Ok (bool_decide (is_Some (rows !! article_id))), st)).
  { intros i. unfold article_exists, bind, sqlite3_connect, select_one.
    rewrite Hdb. simpl. rewrite Hdb. reflexivity. }
  split; [intros i _; apply Hex|split].
  - intros i _.
    destruct (scrape_returns w i st (bool_decide (is_Some (rows !! i))))
      as (r & st2 & Hs & Hid & _).
    { rewrite (Hex i). reflexivity. }
    exists r, st2. split; [exact Hs|]. split; [exact Hid|].
    pose proof (stable_scrape_db w i st) as Hst. rewrite Hs in Hst.
    simpl in Hst. congruence.
  - intros a _ Hw.
    assert (Hs : save_article w a st
                 = (Ok true,
                    {| db := Table (replace_row a (now st) rows);
                       images := images st; now := S (now st);
                       trace := trace st |})).
    { unfold save_article, bind, try_except, sqlite3_connect,
        insert_or_replace.
      rewrite Hdb. simpl. rewrite Hdb, Hw. reflexivity. }
    eexists. split; [exact Hs|].
    eapply article_exists_stored; [reflexivity|].
    rewrite replace_row_lookup_eq. eauto.
Qed.

Lemma table_present_no_task_raises_witness :
  let w := sample_world (sample_page (Some (Py.lit "T")) None) 200 in
  exists r st2,
    scrape_single_article w 5 (fresh (Table ∅)) = (Ok r, st2)
    /\ result_id r = 5%Z
    /\ db st2 = Table ∅.
Proof.
  intros w.
  assert (Hi : sqlite_int 5) by (unfold sqlite_int; lia).
  exact (proj1 (proj2 (table_present_no_task_raises w (fresh (Table ∅)) ∅
                         eq_refl)) 5%Z Hi).
Defined.

(** ** The style cleanup of the modern path *)

Lemma sub_sublist m :
  shrinking m -> deleting m -> forall s, Re.sub m s `sublist_of` s.
Proof.
  intros Hs Hd s. remember (length s) as n eqn:Hn. revert s Hn.
  induction n as [n IH] using lt_wf_ind. intros s Hn.
  destruct s as [|c s].
  - rewrite (proj1 (sub_eqn m Hs)). constructor.
  - rewrite (proj2 (sub_eqn m Hs)).
    destruct (m (c :: s)) as [[out rest]|] eqn:E.
    + pose proof (Hs _ _ _ E) as Hlt.
      destruct (Hd _ _ _ E) as (used & Hu & Hsub). rewrite Hu.
      apply sublist_app; [exact Hsub|].
      eapply (IH (length rest)); [lia|reflexivity].
    + apply sublist_skip. eapply (IH (length s)); [simpl in Hn; lia|].
      reflexivity.
Qed.

Lemma sub_absent m :
  shrinking m -> forall s, (forall j, m (drop j s) = None) -> Re.sub m s = s.
Proof.
  intros Hs s. induction s as [|c s IH]; intros H.
  - apply (proj1 (sub_eqn m Hs)).
  - rewrite (proj2 (sub_eqn m Hs)). pose proof (H 0) as H0. simpl in H0.
    rewrite H0. f_equal. apply IH.
    intros j. apply (H (S j)).
Qed.

Lemma replace_from_sublist (old s : Py.str) : forall skip,
  Py.replace_from old [] s skip `sublist_of` s.
Proof.
  induction s as [|c s IH]; intros skip; simpl; [constructor|].
  destruct skip as [|k].
  - destruct (Py.startswith old (c :: s)).
    + apply sublist_cons, IH.
    + apply sublist_skip, IH.
  - apply sublist_cons, IH.
Qed.

Lemma replace_nil_sublist (old s : Py.str) :
  old <> [] -> Py.replace old [] s `sublist_of` s.
Proof.
  intros H. destruct old as [|c old]; [contradiction|].
  unfold Py.replace. apply replace_from_sublist.
Qed.

Lemma match_display_none_suffix v g2 :
  Re.match_display_none v = Some g2 -> exists mid, v = mid ++ g2.
Proof.
  unfold Re.match_display_none.
  destruct (Re.strip_prefix (Py.lit "display:") v) as [r|] eqn:E1;
    [|discriminate].
  destruct (Re.strip_prefix (Py.lit "none") (Py.lstrip r)) as [r'|] eqn:E2;
    [|discriminate].
  apply strip_prefix_app in E1, E2.
  destruct (lstrip_suffix r) as (p & Hp & _).
  intros H.
  assert (Hg : exists x, r' = x ++ g2).
  { destruct r' as [|c r'']; [injection H as <-; exists []; reflexivity|].
    destruct (N.eq_dec c 59%N) as [->|Hc].
    - injection H as <-. exists [59%N]. reflexivity.
    - assert (Hx : Some (c :: r'') = Some g2).
      { destruct c as [|c]; [exact H|].
        do 6 (destruct c as [c|c|]; try exact H).
        all: try (exfalso; apply Hc; reflexivity). }
      injection Hx as <-. exists []. reflexivity. }
  destruct Hg as (x & Hx).
  exists (Py.lit "display:" ++ p ++ Py.lit "none" ++ x).
  rewrite E1, Hp, E2, Hx, <- !app_assoc. reflexivity.
Qed.

Lemma find_display_none_sublist v g1 g2 :
  Re.find_display_none v = Some (g1, g2) -> g1 ++ g2 `sublist_of` v.
Proof.
  revert g1. induction v as [|c v IH]; intros g1; simpl.
  - discriminate.
  - destruct (Re.match_display_none (c :: v)) as [g|] eqn:E.
    + intros [= <- <-]. apply match_display_none_suffix in E as (mid & ->).
      apply sublist_inserts_l. reflexivity.
    + destruct (Re.find_display_none v) as [[g1' g2']|]; [|discriminate].
      intros [= <- <-]. simpl. apply sublist_skip, IH. reflexivity.
Qed.

Lemma match_hidden_style_deleting : deleting Re.match_hidden_style.
Proof.
  intros s out rest. unfold Re.match_hidden_style.
  destruct (Re.strip_prefix (Py.lit "style=" ++ [Re.quote]) s) as [r|] eqn:Ep;
    [|discriminate].
  destruct (Re.span (fun c => negb (c =? Re.quote)%N) r) as [v b] eqn:Es.
  destruct b as [|q b]; [discriminate|].
  destruct (Re.find_display_none v) as [[g1 g2]|] eqn:Ef; [|discriminate].
  intros H.
  replace out
    with (Py.replace Re.empty_style []
            (Py.lit "style=" ++ [Re.quote] ++ g1 ++ g2 ++ [Re.quote]))
    by congruence.
  replace rest with b by congruence. clear H.
  apply strip_prefix_app in Ep. apply span_app in Es as (Hr & _ & Hq).
  apply negb_false_iff, N.eqb_eq in Hq. subst q.
  exists (Py.lit "style=" ++ [Re.quote] ++ v ++ [Re.quote]).
  split.
  - rewrite Ep, Hr, <- !app_assoc. reflexivity.
  - etrans; [apply replace_nil_sublist; discriminate|].
    apply sublist_app; [reflexivity|].
    apply sublist_app; [reflexivity|].
    rewrite app_assoc. apply sublist_app; [|reflexivity].
    apply find_display_none_sublist, Ef.
Qed.

Lemma match_empty_style_deleting : deleting Re.match_empty_style.
Proof.
  intros s out rest. unfold Re.match_empty_style.
  destruct (Re.strip_prefix Re.empty_style (Py.lstrip s)) as [r|] eqn:Ep;
    [|discriminate].
  intros [= <- <-]. apply strip_prefix_app in Ep.
  destruct (lstrip_suffix s) as (p & Hs & _).
  exists (p ++ Re.empty_style). split.
  - rewrite <- app_assoc, <- Ep. exact Hs.
  - apply sublist_nil_l.
Qed.

Lemma startswith_prefix (a b s : Py.str) :
  Py.startswith (a ++ b) s = true -> Py.startswith a s = true.
Proof.
  revert s. induction a as [|x a IH]; intros s; [reflexivity|].
  destruct s as [|y s]; simpl; [discriminate|].
  intros H. apply andb_true_iff in H as [H1 H2].
  rewrite H1. simpl. apply IH, H2.
Qed.

Lemma drop_lstrip (s : Py.str) j :
  exists k, Py.lstrip (drop j s) = drop k s.
Proof.
  destruct (lstrip_suffix (drop j s)) as (p & Hp & _).
  exists (j + length p).
  transitivity (drop (length p) (p ++ Py.lstrip (drop j s))).
  - rewrite drop_app_length. reflexivity.
  - rewrite <- Hp, drop_drop. reflexivity.
Qed.

(** X11. The two substitutions that end the modern path only delete:
    what they return is the markup with some characters left out, in the
    same order (hence never longer); markup in which [style=] followed by
    a double quote occurs nowhere is returned as it is; and the body
    field of the modern path is these substitutions applied to the inner
    HTML of the content element (or to the no-content paragraph). *)
Theorem style_cleanup_only_deletes (content_html : Py.str) :
  style_cleanup content_html `sublist_of` content_html
  /\ length (style_cleanup content_html) <= length content_html
  /\ (absent (Py.lit "style=" ++ [Re.quote]) content_html ->
      style_cleanup content_html = content_html)
  /\ forall page article_id,
       f_body (extract_modern page article_id)
       = style_cleanup (modern_body page).
Proof.
  assert (Hsub : style_cleanup content_html `sublist_of` content_html).
  { unfold style_cleanup. etrans.
    - apply sub_sublist;
        [apply match_empty_style_shrinking|apply match_empty_style_deleting].
    - apply sub_sublist;
        [apply match_hidden_style_shrinking|apply match_hidden_style_deleting]. }
  split; [exact Hsub|]. split; [apply sublist_length, Hsub|].
  split.
  - intros Habs. unfold style_cleanup.
    rewrite (sub_absent _ match_hidden_style_shrinking content_html).
    + apply sub_absent; [apply match_empty_style_shrinking|].
      intros j. unfold Re.match_empty_style, Re.strip_prefix.
      destruct (drop_lstrip content_html j) as (k & ->).
      destruct (Py.startswith Re.empty_style (drop k content_html)) eqn:E;
        [|reflexivity].
      change Re.empty_style
        with ((Py.lit "style=" ++ [Re.quote]) ++ [Re.quote]) in E.
      apply startswith_prefix in E. rewrite (Habs k) in E. discriminate.
    + intros j. unfold Re.match_hidden_style, Re.strip_prefix.
      rewrite (Habs j). reflexivity.
  - intros page article_id. unfold extract_modern, f_body, style_cleanup,
      modern_body. simpl.
    destruct (query_selector page sel_modern_body); [reflexivity|].
    destruct (query_selector page sel_legacy_body); reflexivity.
Qed.

Lemma style_cleanup_only_deletes_witness :
  style_cleanup (Py.lit "<p class='a'>x</p>") = Py.lit "<p class='a'>x</p>".
Proof.
  apply (proj1 (proj2 (proj2 (style_cleanup_only_deletes _)))).
  intros j.
  do 19 (destruct j as [|j]; [reflexivity|]). reflexivity.
Defined.

(** ** [extract_text_from_html] *)

Lemma span_intro (p : N -> bool) (a b : Py.str) :
  Forall (fun c => p c = true) a ->
  match b with c :: _ => p c = false | [] => True end ->
  Re.span p (a ++ b) = (a, b).
Proof.
  intros Ha Hb. induction Ha as [|c a Hc _ IH].
  - destruct b as [|c b]; [reflexivity|]. simpl. rewrite Hb. reflexivity.
  - simpl. rewrite Hc, IH. reflexivity.
Qed.

Lemma match_tag_shrinking : shrinking App.match_tag.
Proof.
  intros s out rest. unfold App.match_tag.
  destruct s as [|c s]; [discriminate|].
  destruct (N.eq_dec c 60%N) as [->|Hc].
  2:{ destruct c as [|c]; [discriminate|].
      do 6 (destruct c as [c|c|]; try discriminate).
      exfalso. apply Hc. reflexivity. }
  destruct (Re.span (fun c => negb (c =? 62)%N) s) as [a b] eqn:Es.
  destruct a as [|x a]; [discriminate|]. destruct b as [|y b]; [discriminate|].
  intros [= _ <-]. apply span_app in Es as (-> & _ & _).
  simpl. rewrite length_app. simpl. lia.
Qed.

Lemma match_tag_head c s out rest :
  App.match_tag (c :: s) = Some (out, rest) -> c = 60%N.
Proof.
  intros H. destruct (N.eq_dec c 60%N) as [->|Hc]; [reflexivity|].
  exfalso. revert H. unfold App.match_tag.
  destruct c as [|c]; [discriminate|].
  do 6 (destruct c as [c|c|]; try discriminate).
  exfalso. apply Hc. reflexivity.
Qed.

Lemma match_tag_None (c : N) (r : Py.str) :
  App.match_tag (c :: r) = None
  <-> (c = 60%N -> (exists r', r = 62%N :: r') \/ 62%N ∉ r).
Proof.
  split.
  - intros H ->. simpl in H.
    destruct (Re.span (fun c => negb (c =? 62)%N) r) as [a b] eqn:Es.
    apply span_app in Es as (-> & Ha & Hb).
    destruct a as [|x a].
    + destruct b as [|y b]; [right; apply not_elem_of_nil|].
      left. apply negb_false_iff, N.eqb_eq in Hb. subst y. eauto.
    + destruct b as [|y b]; [|discriminate].
      right. rewrite app_nil_r. intros Hin.
      rewrite Forall_forall in Ha. specialize (Ha _ Hin). discriminate.
  - intros H. destruct (App.match_tag (c :: r)) as [[out rest]|] eqn:E;
      [|reflexivity].
    exfalso. pose proof (match_tag_head _ _ _ _ E) as ->.
    simpl in E.
    destruct (Re.span (fun c => negb (c =? 62)%N) r) as [a b] eqn:Es.
    apply span_app in Es as (-> & Ha & Hb).
    destruct a as [|x a]; [discriminate|].
    destruct b as [|y b]; [discriminate|].
    apply negb_false_iff, N.eqb_eq in Hb. subst y.
    destruct (H eq_refl) as [(r' & Hr)|Hn].
    + injection Hr as -> _. inversion Ha as [|? ? Hx _]. discriminate.
    + apply Hn. apply elem_of_app. right. left.
Qed.

Lemma no_tag_tagless (s : Py.str) : no_tag s <-> tagless s.
Proof.
  unfold tagless. induction s as [|c s IH]; simpl.
  - split; [|auto]. intros _ j. rewrite drop_nil. reflexivity.
  - rewrite <- match_tag_None, IH. split.
    + intros [H0 H] [|j]; [exact H0|apply H].
    + intros H. split; [apply (H 0)|]. intros j. apply (H (S j)).
Qed.

Lemma no_tag_app (a b : Py.str) : no_tag (a ++ b) -> no_tag a /\ no_tag b.
Proof.
  induction a as [|c a IH]; simpl; [auto|].
  intros [Hc H]. destruct (IH H) as [Ha Hb]. split; [|exact Hb].
  split; [|exact Ha]. intros E. destruct (Hc E) as [(r' & Hr)|Hn].
  - destruct a as [|x a]; [right; apply not_elem_of_nil|].
    injection Hr as -> _. eauto.
  - right. intros Hin. apply Hn. apply elem_of_app. auto.
Qed.

Lemma match_tag_deleting : deleting App.match_tag.
Proof.
  intros s out rest H. destruct s as [|c s]; [discriminate|].
  pose proof (match_tag_head _ _ _ _ H) as ->. simpl in H.
  destruct (Re.span (fun c => negb (c =? 62)%N) s) as [a b] eqn:Es.
  destruct a as [|x a]; [discriminate|]. destruct b as [|y b]; [discriminate|].
  injection H as <- <-. apply span_app in Es as (-> & _ & _).
  exists (60%N :: (x :: a) ++ [y]). split.
  - simpl. rewrite <- app_assoc. reflexivity.
  - apply sublist_nil_l.
Qed.

Lemma sub_match_tag_no_tag (s : Py.str) : no_tag (Re.sub App.match_tag s).
Proof.
  remember (length s) as n eqn:Hn. revert s Hn.
  induction n as [n IH] using lt_wf_ind. intros s Hn.
  destruct s as [|c s].
  - rewrite (proj1 (sub_eqn _ match_tag_shrinking)). exact I.
  - rewrite (proj2 (sub_eqn _ match_tag_shrinking)).
    destruct (App.match_tag (c :: s)) as [[out rest]|] eqn:E.
    + pose proof (match_tag_shrinking _ _ _ E) as Hlt.
      assert (out = []) as ->.
      { pose proof (match_tag_head _ _ _ _ E) as ->. simpl in E.
        destruct (Re.span (fun c => negb (c =? 62)%N) s) as [[|x a] [|y b]];
          try discriminate.
        injection E as <- _. reflexivity. }
      simpl. eapply (IH (length rest)); [lia|reflexivity].
    + simpl. split.
      * intros ->.
        destruct (proj1 (match_tag_None _ _) E eq_refl) as [(r' & ->)|Hn'].
        -- left. rewrite (proj2 (sub_eqn _ match_tag_shrinking)).
           simpl. eauto.
        -- right. intros Hin. apply Hn'.
           eapply elem_of_sublist; [exact Hin|].
           apply sub_sublist;
             [apply match_tag_shrinking|apply match_tag_deleting].
      * eapply (IH (length s)); [simpl in Hn; lia|reflexivity].
Qed.

Lemma match_spaces_shrinking : shrinking App.match_spaces.
Proof.
  intros s out rest. unfold App.match_spaces.
  destruct (Re.span Py.isspace s) as [a b] eqn:Es.
  destruct a as [|x a]; [discriminate|].
  intros [= _ <-]. apply span_app in Es as (-> & _ & _).
  simpl. rewrite length_app. lia.
Qed.

Lemma match_spaces_contracting : contracting App.match_spaces.
Proof.
  intros s out rest. unfold App.match_spaces.
  destruct (Re.span Py.isspace s) as [a b] eqn:Es.
  destruct a as [|x a]; [discriminate|].
  intros [= <- <-]. apply span_app in Es as (-> & _ & _).
  simpl. rewrite length_app. lia.
Qed.

Lemma match_tag_contracting : contracting App.match_tag.
Proof.
  intros s out rest H. destruct (match_tag_deleting s out rest H)
    as (used & -> & Hsub).
  apply sublist_length in Hsub. rewrite length_app. lia.
Qed.

Lemma sub_length m :
  shrinking m -> contracting m -> forall s, length (Re.sub m s) <= length s.
Proof.
  intros Hs Hc s. remember (length s) as n eqn:Hn. revert s Hn.
  induction n as [n IH] using lt_wf_ind. intros s Hn.
  destruct s as [|c s].
  - rewrite (proj1 (sub_eqn m Hs)). simpl. lia.
  - rewrite (proj2 (sub_eqn m Hs)).
    destruct (m (c :: s)) as [[out rest]|] eqn:E.
    + pose proof (Hs _ _ _ E) as Hlt. pose proof (Hc _ _ _ E) as Hle.
      rewrite length_app.
      pose proof (IH (length rest) ltac:(lia) rest eq_refl). lia.
    + simpl. pose proof (IH (length s) ltac:(simpl in Hn; lia) s eq_refl).
      subst n. simpl. lia.
Qed.

(** What [re.sub(r'\s+', ' ', t)] is at each position. *)
Lemma sub_spaces_cases (t : Py.str) :
  match t with
  | [] => Re.sub App.match_spaces t = []
  | c :: t' =>
      if Py.isspace c then
        exists rest,
          Re.sub App.match_spaces t = 32%N :: Re.sub App.match_spaces rest
          /\ (exists j, rest = drop j t')
          /\ match rest with x :: _ => Py.isspace x = false | [] => True end
      else Re.sub App.match_spaces t = c :: Re.sub App.match_spaces t'
  end.
Proof.
  destruct t as [|c t']; [reflexivity|].
  rewrite (proj2 (sub_eqn _ match_spaces_shrinking)).
  unfold App.match_spaces.
  destruct (Re.span Py.isspace (c :: t')) as [a b] eqn:Es.
  pose proof Es as Es'. simpl in Es'.
  destruct (Py.isspace c) eqn:Hc.
  - destruct (Re.span Py.isspace t') as [a' b'] eqn:Et.
    injection Es' as <- <-.
    apply span_app in Et as (-> & _ & Hb).
    exists b'. split; [reflexivity|]. split; [|exact Hb].
    exists (length a'). rewrite drop_app_length. reflexivity.
  - injection Es' as <- <-. reflexivity.
Qed.

Lemma sub_spaces_head (t : Py.str) x t' :
  t = x :: t' -> Py.isspace x = false ->
  exists r, Re.sub App.match_spaces t = x :: r.
Proof.
  intros -> Hx. pose proof (sub_spaces_cases (x :: t')) as H.
  simpl in H. rewrite Hx in H. eauto.
Qed.

Lemma sub_spaces_elem (t : Py.str) :
  forall x, x ∈ Re.sub App.match_spaces t -> x = 32%N \/ x ∈ t.
Proof.
  remember (length t) as n eqn:Hn. revert t Hn.
  induction n as [n IH] using lt_wf_ind. intros t Hn x.
  pose proof (sub_spaces_cases t) as H. destruct t as [|c t'].
  - rewrite H. intros Hin. inversion Hin.
  - destruct (Py.isspace c).
    + destruct H as (rest & -> & (j & Hj) & _).
      intros Hin. apply elem_of_cons in Hin as [->|Hin]; [auto|].
      assert (Hl : length rest < n).
      { subst rest n. rewrite length_drop. simpl. lia. }
      destruct (IH _ Hl rest eq_refl x Hin) as [->|Hx]; [auto|].
      right. right. subst rest.
      rewrite <- (drop_0 t'). eapply (elem_of_drop_le _ 0); [|exact Hx]. lia.
    + rewrite H. intros Hin. apply elem_of_cons in Hin as [->|Hin].
      * right. left.
      * assert (Hl : length t' < n) by (subst n; simpl; lia).
        destruct (IH _ Hl t' eq_refl x Hin) as [->|Hx]; [auto|].
        right. right. exact Hx.
Qed.

Lemma no_tag_drop (s : Py.str) j : no_tag s -> no_tag (drop j s).
Proof.
  intros H. rewrite <- (take_drop j s) in H. apply no_tag_app in H as [_ H].
  exact H.
Qed.

Lemma sub_spaces_no_tag (t : Py.str) :
  no_tag t -> no_tag (Re.sub App.match_spaces t).
Proof.
  remember (length t) as n eqn:Hn. revert t Hn.
  induction n as [n IH] using lt_wf_ind. intros t Hn Ht.
  pose proof (sub_spaces_cases t) as H. destruct t as [|c t'].
  - rewrite H. exact I.
  - destruct (Py.isspace c) eqn:Hc.
    + destruct H as (rest & -> & (j & Hj) & _). simpl. split.
      * discriminate.
      * assert (Hl : length rest < n).
        { subst rest n. rewrite length_drop. simpl. lia. }
        apply (IH _ Hl rest eq_refl). subst rest.
        apply no_tag_drop. apply Ht.
    + rewrite H. simpl. destruct Ht as [Hh Ht]. split.
      * intros E. destruct (Hh E) as [(r' & ->)|Hno].
        -- left. destruct (sub_spaces_head (62%N :: r') 62%N r' eq_refl)
             as (r & ->); [reflexivity|]. eauto.
        -- right. intros Hin. apply sub_spaces_elem in Hin as [Hx|Hx];
             [discriminate|contradiction].
      * assert (Hl : length t' < n) by (subst n; simpl; lia).
        apply (IH _ Hl t' eq_refl Ht).
Qed.

Lemma slice_to_take (s : Py.str) m : exists n, App.slice_to s m = take n s.
Proof. unfold App.slice_to. eauto. Qed.

Lemma no_tag_take (s : Py.str) n : no_tag s -> no_tag (take n s).
Proof.
  intros H. rewrite <- (take_drop n s) in H. apply no_tag_app in H as [H _].
  exact H.
Qed.

Lemma no_tag_strip (s : Py.str) : no_tag s -> no_tag (Py.strip s).
Proof.
  intros H. destruct (strip_parts s) as (p & q & Hs & _).
  rewrite Hs in H. apply no_tag_app in H as [_ H].
  apply no_tag_app in H as [H _]. exact H.
Qed.

(** X12. The text [extract_text_from_html] returns holds no tag: the tag
    pattern matches nowhere in it, that is, every [<] left in it is
    followed at once by [>] or by no [>] at all.  One pass of the
    substitution is enough, and collapsing the white space, stripping and
    cutting do not bring a tag back. *)
Theorem extract_text_has_no_tag (html_content : Py.str) (max_length : Z) :
  tagless (App.extract_text_from_html html_content max_length)
  /\ forall j r,
       drop j (App.extract_text_from_html html_content max_length)
       = 60%N :: r ->
       (exists r', r = 62%N :: r') \/ 62%N ∉ r.
Proof.
  assert (H : no_tag (App.extract_text_from_html html_content max_length)).
  { unfold App.extract_text_from_html.
    destruct (slice_to_take
                (Py.strip (Re.sub App.match_spaces
                             (Re.sub App.match_tag html_content)))
                max_length) as (n & ->).
    apply no_tag_take, no_tag_strip, sub_spaces_no_tag, sub_match_tag_no_tag. }
  apply no_tag_tagless in H. split; [exact H|].
  intros j r Hj. specialize (H j). rewrite Hj in H.
  apply (proj1 (match_tag_None _ _) H). reflexivity.
Qed.

Lemma single_spaced_cons (c : N) (s : Py.str) :
  (Py.isspace c = true ->
   c = 32%N /\ match s with d :: _ => Py.isspace d = false | [] => True end) ->
  single_spaced s -> single_spaced (c :: s).
Proof.
  intros Hc Hs [|i] x; simpl.
  - intros [= <-] Hx. destruct (Hc Hx) as [-> Hd]. split; [reflexivity|].
    intros d Hd'. destruct s as [|d' s]; [discriminate|].
    injection Hd' as <-. exact Hd.
  - apply Hs.
Qed.

Lemma single_spaced_app (a b : Py.str) :
  single_spaced (a ++ b) -> single_spaced a /\ single_spaced b.
Proof.
  intros H. split.
  - intros i c Hi Hc.
    destruct (H i c) as [H1 H2]; [apply lookup_app_l_Some, Hi|exact Hc|].
    split; [exact H1|]. intros d Hd. apply H2. apply lookup_app_l_Some, Hd.
  - intros i c Hi Hc.
    destruct (H (length a + i) c) as [H1 H2].
    { apply lookup_app_Some. right. split; [lia|].
      replace (length a + i - length a) with i by lia. exact Hi. }
    { exact Hc. }
    split; [exact H1|]. intros d Hd. apply H2.
    apply lookup_app_Some. right. split; [lia|].
    replace (S (length a + i) - length a) with (S i) by lia. exact Hd.
Qed.

Lemma sub_spaces_single_spaced (t : Py.str) :
  single_spaced (Re.sub App.match_spaces t).
Proof.
  remember (length t) as n eqn:Hn. revert t Hn.
  induction n as [n IH] using lt_wf_ind. intros t Hn.
  pose proof (sub_spaces_cases t) as H. destruct t as [|c t'].
  - rewrite H. intros i c Hi. destruct i; discriminate.
  - destruct (Py.isspace c) eqn:Hc.
    + destruct H as (rest & -> & (j & Hj) & Hr).
      assert (Hl : length rest < n).
      { subst rest n. rewrite length_drop. simpl. lia. }
      apply single_spaced_cons; [|apply (IH _ Hl rest eq_refl)].
      intros _. split; [reflexivity|].
      destruct rest as [|x rest'];
        [rewrite (proj1 (sub_eqn _ match_spaces_shrinking)); exact I|].
      destruct (sub_spaces_head (x :: rest') x rest' eq_refl Hr) as (r & ->).
      exact Hr.
    + rewrite H. assert (Hl : length t' < n) by (subst n; simpl; lia).
      apply single_spaced_cons; [|apply (IH _ Hl t' eq_refl)].
      intros E. congruence.
Qed.

(** X13. The text [extract_text_from_html] returns is normalised: every
    white-space character in it is a single space that no white space
    follows, it does not start with white space, it is never longer than
    the markup, and for a non-negative [max_length] it has at most
    [max_length] characters. *)
Theorem extract_text_is_normalised (html_content : Py.str) (max_length : Z) :
  let text := App.extract_text_from_html html_content max_length in
  single_spaced text
  /\ (forall c r, text = c :: r -> Py.isspace c = false)
  /\ length text <= length html_content
  /\ ((0 <= max_length)%Z -> length text <= Z.to_nat max_length).
Proof.
  unfold App.extract_text_from_html.
  set (full := Py.strip (Re.sub App.match_spaces
                           (Re.sub App.match_tag html_content))).
  destruct (strip_parts (Re.sub App.match_spaces
                           (Re.sub App.match_tag html_content)))
    as (p & q & Hs & _ & _ & Hh & _).
  fold full in Hs, Hh.
  assert (Hss : single_spaced full).
  { pose proof (sub_spaces_single_spaced (Re.sub App.match_tag html_content))
      as H.
    rewrite Hs in H. apply single_spaced_app in H as [_ H].
    apply single_spaced_app in H as [H _]. exact H. }
  assert (Hlen : length full <= length html_content).
  { pose proof (sub_length _ match_tag_shrinking match_tag_contracting
                  html_content) as H1.
    pose proof (sub_length _ match_spaces_shrinking match_spaces_contracting
                  (Re.sub App.match_tag html_content)) as H2.
    rewrite Hs in H2. rewrite !length_app in H2. lia. }
  destruct (slice_to_take full max_length) as (n & Hn).
  simpl. split; [|split; [|split]].
  - rewrite Hn. rewrite <- (take_drop n full) in Hss.
    apply single_spaced_app in Hss as [H _]. exact H.
  - intros c r Hc. rewrite Hn in Hc. destruct full as [|x full'].
    + rewrite take_nil in Hc. discriminate.
    + destruct n as [|n]; [discriminate|]. simpl in Hc. injection Hc as <- _.
      eapply Hh. reflexivity.
  - rewrite Hn, length_take. lia.
  - intros Hm. unfold App.slice_to.
    assert (E : (max_length <? 0)%Z = false) by (apply Z.ltb_ge; lia).
    rewrite E, length_take. lia.
Qed.

Lemma extract_text_is_normalised_witness :
  length (App.extract_text_from_html
            (Py.lit "<p>a  <b>long</b> text</p>") 5) <= 5.
Proof.
  apply (proj2 (proj2 (proj2 (extract_text_is_normalised
                                (Py.lit "<p>a  <b>long</b> text</p>") 5)))).
  lia.
Defined.

(** ** [article_detail] *)

Lemma article_of_row (a : Article) t :
  {| art_id := art_id a;
     title := row_title (row_of a t);
     author := row_author (row_of a t);
     url := row_url (row_of a t);
     category := row_category (row_of a t);
     content_html := row_content_html (row_of a t) |} = a.
Proof. destruct a. reflexivity. Qed.

Lemma article_detail_stored (article_id : Z) (v : option Py.str) st rows r :
  db st = Table rows ->
  rows !! article_id = Some r ->
  exists template,
    App.article_detail article_id v st
    = (Ok (App.Rendered template
             {| art_id := article_id; title := row_title r;
                author := row_author r; url := row_url r;
                category := row_category r;
                content_html := row_content_html r |}), st)
    /\ (template = App.article_v2_html
        <-> match v with
            | Some x => x = Py.lit "2"
            | None => (ARTICLE_VERSION_THRESHOLD < article_id)%Z
            end).
Proof.
  intros Hdb Hr.
  unfold App.article_detail, bind, sqlite3_connect, App.select_article.
  rewrite Hdb. simpl. rewrite Hdb, Hr.
  destruct v as [x|].
  - destruct (Py.eqb x (Py.lit "2")) eqn:E.
    + eexists. split; [reflexivity|]. apply eqb_true in E. tauto.
    + eexists. split; [reflexivity|]. split; [discriminate|].
      intros Hx. apply eqb_true in Hx. congruence.
  - unfold ARTICLE_VERSION_THRESHOLD.
    destruct (article_id <=? 16567)%Z eqn:E.
    + apply Z.leb_le in E. eexists. split; [reflexivity|].
      split; [discriminate|lia].
    + apply Z.leb_gt in E. eexists. split; [reflexivity|].
      split; [lia|reflexivity].
Qed.

(** X14. What [save_article] stored, [article_detail] shows: after a
    save that returned [True], the view of the identifier renders a
    template on exactly the six fields that were saved, whatever the
    [v] parameter; and an identifier that is not in the table gets the 404
    reply.  The view changes nothing.  This is for the identifiers that
    SQLite can bind, the signed 64-bit integers. *)
Theorem article_detail_shows_saved_article (w : World) (a : Article)
    (st st' : State) (v : option Py.str) :
  sqlite_int (art_id a) ->
  save_article w a st = (Ok true, st') ->
  (exists template,
      App.article_detail (art_id a) v st' = (Ok (App.Rendered template a), st'))
  /\ (forall article_id rows,
        sqlite_int article_id ->
        db st' = Table rows -> rows !! article_id = None ->
        App.article_detail article_id v st' = (Ok App.NotFound, st')).
Proof.
  intros _ Hs.
  assert (Hdb : exists rows, db st = Table rows).
  { revert Hs. unfold save_article, bind, try_except, sqlite3_connect,
      insert_or_replace.
    destruct (db st) as [| |rows] eqn:E; simpl; try rewrite E;
      try discriminate.
    eauto. }
  destruct Hdb as (rows & Hdb).
  pose proof (save_article_true w a st st' rows Hdb Hs) as Hdb'.
  split.
  - destruct (article_detail_stored (art_id a) v st' _ _ Hdb'
                (replace_row_lookup_eq a (now st) rows))
      as (template & H & _).
    exists template. rewrite H, article_of_row. reflexivity.
  - intros i rows' _ Hd Hn.
    unfold App.article_detail, bind, sqlite3_connect, App.select_article.
    rewrite Hd. simpl. rewrite Hd, Hn. reflexivity.
Qed.

Lemma article_detail_shows_saved_article_witness :
  let w := sample_world (sample_page None None) 200 in
  exists st' template,
    save_article w (sample_article 7 (Py.lit "<p>x</p>")) (fresh (Table ∅))
    = (Ok true, st')
    /\ App.article_detail 7 None st'
       = (Ok (App.Rendered template
                (sample_article 7 (Py.lit "<p>x</p>"))), st').
Proof.
  intros w.
  assert (Hs : exists st',
             save_article w (sample_article 7 (Py.lit "<p>x</p>"))
               (fresh (Table ∅)) = (Ok true, st'))
    by (eexists; vm_compute; reflexivity).
  destruct Hs as (st' & Hs).
  assert (Hi : sqlite_int (art_id (sample_article 7 (Py.lit "<p>x</p>"))))
    by (unfold sqlite_int; simpl; lia).
  destruct (proj1 (article_detail_shows_saved_article w _ _ st' None Hi Hs))
    as (template & H).
  exists st', template. split; [exact Hs|exact H].
Defined.

(** X15. Without a [v] parameter [article_detail] picks the template by
    the same threshold as the scraper picks the extraction path: the old
    template for the identifiers scraped on the legacy path, the second
    template for those scraped on the modern path.  With [v=2] it is the
    second template and with any other [v] the old one, whatever the
    identifier. *)
Theorem article_detail_template_follows_scraper (w : World)
    (article_id : Z) (st : State) (rows : gmap Z Row) (r : Row) :
  db st = Table rows ->
  rows !! article_id = Some r ->
  let article :=
    {| art_id := article_id; title := row_title r; author := row_author r;
       url := row_url r; category := row_category r;
       content_html := row_content_html r |} in
  ((article_id <= ARTICLE_VERSION_THRESHOLD)%Z ->
   App.article_detail article_id None st
   = (Ok (App.Rendered App.article_html article), st)
   /\ forall u, render w article_id u = render_legacy w article_id u)
  /\ ((ARTICLE_VERSION_THRESHOLD < article_id)%Z ->
      App.article_detail article_id None st
      = (Ok (App.Rendered App.article_v2_html article), st)
      /\ forall u, render w article_id u = render_modern w article_id u)
  /\ App.article_detail article_id (Some (Py.lit "2")) st
     = (Ok (App.Rendered App.article_v2_html article), st)
  /\ (forall x, x <> Py.lit "2" ->
        App.article_detail article_id (Some x) st
        = (Ok (App.Rendered App.article_html article), st)).
Proof.
  intros Hdb Hr article.
  assert (Hcase : forall v,
             exists template,
               App.article_detail article_id v st
               = (Ok (App.Rendered template article), st)
               /\ (template = App.article_v2_html
                   <-> match v with
                       | Some x => x = Py.lit "2"
                       | None => (ARTICLE_VERSION_THRESHOLD < article_id)%Z
                       end)).
  { intros v. eapply article_detail_stored; eassumption. }
  split; [|split; [|split]].
  - intros Hle. split.
    + destruct (Hcase None) as (t & -> & Ht).
      destruct t; [reflexivity|]. exfalso.
      pose proof (proj1 Ht eq_refl). lia.
    + intros u. unfold render.
      rewrite (proj2 (Z.leb_le _ _) Hle). reflexivity.
  - intros Hgt. split.
    + destruct (Hcase None) as (t & -> & Ht).
      rewrite (proj2 Ht Hgt). reflexivity.
    + intros u. unfold render.
      rewrite (proj2 (Z.leb_gt _ _) Hgt). reflexivity.
  - destruct (Hcase (Some (Py.lit "2"))) as (t & -> & Ht).
    rewrite (proj2 Ht eq_refl). reflexivity.
  - intros x Hx. destruct (Hcase (Some x)) as (t & -> & Ht).
    destruct t; [reflexivity|]. exfalso. apply Hx, Ht. reflexivity.
Qed.

Lemma article_detail_template_follows_scraper_witness :
  let r := row_of (sample_article 20000 []) 0 in
  App.article_detail 20000 None (fresh (Table {[ 20000%Z := r ]}))
  = (Ok (App.Rendered App.article_v2_html (sample_article 20000 [])),
     fresh (Table {[ 20000%Z := r ]})).
Proof.
  intros r.
  refine (proj1 (proj1 (proj2 (article_detail_template_follows_scraper
            (sample_world (sample_page None None) 200) 20000
            (fresh (Table {[ 20000%Z := r ]})) {[ 20000%Z := r ]} r
            eq_refl _)) _)).
  - apply lookup_singleton_eq.
  - unfold ARTICLE_VERSION_THRESHOLD. lia.
Defined.

(** ** The query of [search_articles] *)

Lemma split_from_keywords (s cur : Py.str) :
  Forall (fun c => Py.isspace c = false) cur ->
  Forall is_keyword (App.split_from cur s).
Proof.
  revert cur. induction s as [|c s IH]; intros cur Hcur; simpl.
  - destruct cur as [|x cur]; [constructor|].
    constructor; [|constructor]. split.
    + intros E. apply (f_equal (@length N)) in E.
      rewrite length_rev in E. discriminate.
    + apply Forall_rev. exact Hcur.
  - destruct (Py.isspace c) eqn:Hc.
    + destruct cur as [|x cur]; [apply IH; constructor|].
      constructor; [|apply IH; constructor]. split.
      * intros E. apply (f_equal (@length N)) in E.
        rewrite length_rev in E. discriminate.
      * apply Forall_rev. exact Hcur.
    + apply IH. constructor; assumption.
Qed.

Lemma strip_keyword (kw : Py.str) : is_keyword kw -> Py.strip kw = kw.
Proof.
  intros [_ Hk]. rewrite Forall_forall in Hk. apply strip_fixed.
  - intros c r ->. apply Hk. left.
  - intros r c ->. apply Hk. apply elem_of_app. right. left.
Qed.

Lemma keywords_of_split (keyword : Py.str) :
  App.keywords_of keyword = App.split keyword.
Proof.
  unfold App.keywords_of, App.split.
  pose proof (split_from_keywords keyword [] (Forall_nil_2 _)) as H.
  induction H as [|kw l Hk _ IH]; [reflexivity|].
  rewrite filter_cons_True.
  - simpl. rewrite (strip_keyword kw Hk). f_equal. exact IH.
  - rewrite (strip_keyword kw Hk). apply Hk.
Qed.

Lemma placeholders_app (a b : Py.str) :
  placeholders (a ++ b) = placeholders a + placeholders b.
Proof. apply count_occ_app. Qed.

Lemma placeholders_join (sep : Py.str) (l : list Py.str) :
  placeholders sep = 0 ->
  placeholders (App.join sep l) = list_sum (map placeholders l).
Proof.
  intros Hs. destruct l as [|x l]; [reflexivity|]. simpl.
  rewrite placeholders_app. f_equal.
  induction l as [|y l IH]; [reflexivity|]. simpl.
  rewrite !placeholders_app, Hs, IH. reflexivity.
Qed.

Lemma placeholders_absent (f : Py.str) : 63%N ∉ f -> placeholders f = 0.
Proof.
  intros H. apply count_occ_not_In. intros Hin. apply H.
  apply list_elem_of_In. exact Hin.
Qed.

Lemma placeholders_field (f : Py.str) :
  63%N ∉ f ->
  placeholders (App.dict_get App.field_mapping f f ++ Py.lit " LIKE ?") = 1.
Proof.
  intros H. rewrite placeholders_app.
  replace (placeholders (Py.lit " LIKE ?")) with 1 by reflexivity.
  assert (E : placeholders (App.dict_get App.field_mapping f f) = 0);
    [|rewrite E; reflexivity].
  unfold App.field_mapping, App.dict_get.
  repeat (match goal with
          | |- context [Py.eqb ?a ?b] => destruct (Py.eqb a b)
          end; [reflexivity|]).
  apply placeholders_absent, H.
Qed.

Lemma placeholders_fields (search_fields : list Py.str) :
  Forall (fun f => 63%N ∉ f) search_fields ->
  list_sum (map placeholders (App.field_conditions search_fields))
  = length search_fields.
Proof.
  induction 1 as [|f l Hf _ IH]; [reflexivity|].
  change (list_sum (map placeholders (App.field_conditions (f :: l))))
    with (placeholders (App.dict_get App.field_mapping f f ++ Py.lit " LIKE ?")
          + list_sum (map placeholders (App.field_conditions l))).
  rewrite (placeholders_field f Hf), IH. reflexivity.
Qed.

Lemma flat_map_const_length {A B} (l : list A) (f : A -> list B) n :
  (forall a, length (f a) = n) -> length (flat_map f l) = length l * n.
Proof.
  intros H. induction l as [|a l IH]; [reflexivity|]. simpl.
  rewrite length_app, H, IH. reflexivity.
Qed.

Lemma flat_map_const_sum {A} (l : list A) (f : A -> list Py.str) n :
  (forall a, list_sum (map placeholders (f a)) = n) ->
  list_sum (map placeholders (flat_map f l)) = length l * n.
Proof.
  intros H. induction l as [|a l IH]; [reflexivity|]. simpl.
  rewrite map_app, list_sum_app, H, IH. reflexivity.
Qed.

Lemma placeholders_where (keywords search_fields : list Py.str) :
  Forall (fun f => 63%N ∉ f) search_fields ->
  placeholders
    (Py.lit "WHERE " ++ App.join (Py.lit " AND ")
       [Py.lit "(" ++ App.join (Py.lit " AND ")
          (flat_map
             (fun kw =>
                [Py.lit "(" ++ App.join (Py.lit " OR ")
                   (App.field_conditions search_fields)
                 ++ Py.lit ")"])
             keywords)
        ++ Py.lit ")"])
  = length keywords * length search_fields.
Proof.
  intros Hf.
  rewrite placeholders_app.
  replace (placeholders (Py.lit "WHERE ")) with 0 by reflexivity.
  rewrite placeholders_join by reflexivity.
  cbn [map list_sum fold_right].
  rewrite !placeholders_app.
  replace (placeholders (Py.lit "(")) with 0 by reflexivity.
  replace (placeholders (Py.lit ")")) with 0 by reflexivity.
  rewrite placeholders_join by reflexivity.
  rewrite (flat_map_const_sum _ _ (length search_fields)).
  - lia.
  - intros a. cbn [map list_sum fold_right]. rewrite !placeholders_app.
    replace (placeholders (Py.lit "(")) with 0 by reflexivity.
    replace (placeholders (Py.lit ")")) with 0 by reflexivity.
    rewrite placeholders_join by reflexivity.
    rewrite placeholders_fields by exact Hf. lia.
Qed.

(** X16. The query [search_articles] builds: the keywords are the
    white-space separated words of the input (the filter and the strip of
    the comprehension change nothing); there is one parameter, the
    keyword between two percent signs, for each keyword and each field,
    keyword by keyword; the [WHERE] clause is empty exactly when there is
    no parameter (no keyword, or an empty list of fields, in which case
    the keyword is ignored); and when no field name holds a question mark,
    the clause has exactly as many placeholders as there are
    parameters. *)
Theorem where_clause_matches_params (keyword : Py.str)
    (search_fields : list Py.str) :
  let where_clause := (App.where_clause_of keyword search_fields).1 in
  let params := (App.where_clause_of keyword search_fields).2 in
  let keywords := App.split keyword in
  Forall is_keyword keywords
  /\ params
     = flat_map (fun kw => map (fun _ => [37%N] ++ kw ++ [37%N]) search_fields)
                keywords
  /\ length params = length keywords * length search_fields
  /\ (where_clause = [] <-> params = [])
  /\ (Forall (fun f => 63%N ∉ f) search_fields ->
      placeholders where_clause = length params).
Proof.
  intros where_clause params keywords.
  assert (Hk : Forall is_keyword keywords)
    by apply (split_from_keywords keyword [] (Forall_nil_2 _)).
  assert (Hp : params
               = flat_map (fun kw => App.field_params kw search_fields)
                          keywords).
  { unfold params, keywords, App.where_clause_of.
    destruct keyword as [|c keyword]; [reflexivity|].
    rewrite keywords_of_split.
    destruct (App.split (c :: keyword)) as [|kw kws]; [reflexivity|].
    destruct (flat_map _ (kw :: kws)); reflexivity. }
  assert (Hl : length params = length keywords * length search_fields).
  { rewrite Hp. apply flat_map_const_length. intros kw.
    unfold App.field_params. apply length_map. }
  assert (Hw : where_clause
               = match keywords, search_fields with
                 | _ :: _, _ :: _ =>
                     Py.lit "WHERE " ++ App.join (Py.lit " AND ")
                       [Py.lit "(" ++ App.join (Py.lit " AND ")
                          (flat_map
                             (fun kw =>
                                [Py.lit "(" ++ App.join (Py.lit " OR ")
                                   (App.field_conditions search_fields)
                                 ++ Py.lit ")"])
                             keywords)
                        ++ Py.lit ")"]
                 | _, _ => []
                 end).
  { unfold where_clause, keywords, App.where_clause_of.
    destruct keyword as [|c keyword]; [reflexivity|].
    rewrite keywords_of_split.
    destruct (App.split (c :: keyword)) as [|kw kws]; [reflexivity|].
    destruct search_fields as [|f fs].
    - assert (E : forall l : list Py.str,
                 flat_map (fun _ : Py.str => @nil Py.str) l = [])
        by (induction l; auto).
      cbn [App.field_conditions map]. rewrite E.
      destruct (flat_map _ (kw :: kws)); reflexivity.
    - reflexivity. }
  split; [exact Hk|]. split; [exact Hp|]. split; [exact Hl|].
  clear Hp Hk. clearbody where_clause params keywords. split.
  - rewrite Hw. split.
    + intros H. apply length_zero_iff_nil. rewrite Hl.
      destruct keywords as [|kw kws]; [reflexivity|].
      destruct search_fields as [|f fs]; [simpl; lia|discriminate].
    + intros H. apply (f_equal (@length _)) in H. rewrite Hl in H. simpl in H.
      destruct keywords as [|kw kws]; [reflexivity|].
      destruct search_fields as [|f fs]; [reflexivity|]. simpl in H. lia.
  - intros Hf. rewrite Hl, Hw.
    destruct keywords as [|kw kws]; [reflexivity|].
    destruct search_fields as [|f fs];
      [rewrite Nat.mul_0_r; reflexivity|].
    apply placeholders_where. exact Hf.
Qed.

Lemma where_clause_matches_params_witness :
  placeholders
    (App.where_clause_of (Py.lit " sql  injection ")
       [Py.lit "title"; Py.lit "content"]).1
  = 4.
Proof.
  assert (Hf : Forall (fun f => 63%N ∉ f) [Py.lit "title"; Py.lit "content"]).
  { repeat constructor; vm_compute; set_solver. }
  rewrite (proj2 (proj2 (proj2 (proj2 (where_clause_matches_params
             (Py.lit " sql  injection ")
             [Py.lit "title"; Py.lit "content"])))) Hf).
  reflexivity.
Defined.

(** ** Local paths and the files behind them *)

Lemma download_image_path w v st p st' :
  download_image w v st = (Ok (Some p), st') ->
  exists name,
    cache_name v = Some name
    /\ p = static_path name
    /\ is_Some (images st' !! name).
Proof.
  intros H. destruct (download_image_cases w v st) as (r & s1 & Hd & Hc).
  rewrite H in Hd. injection Hd as <- <-.
  destruct Hc as [[Hr _]|[(name & _ & _ & Hr & _)|[(name & Hn & Hi & Hr & ->)
                 |(name & resp & Hn & _ & _ & _ & Hr & Hi)]]];
    try discriminate.
  - injection Hr as ->. eauto.
  - injection Hr as ->. exists name. split; [exact Hn|]. split; [reflexivity|].
    rewrite Hi, lookup_insert_eq. eauto.
Qed.

Lemma localised_grows (a b : gmap Py.str (list N)) p o :
  a ⊆ b -> localised a p o -> localised b p o.
Proof.
  intros Hab [->|(v & name & Hv & Hn & [x Hx] & ->)]; [left; reflexivity|].
  right. exists v, name. repeat (split; [assumption|]).
  split; [|reflexivity]. exists x. eapply lookup_weaken; eassumption.
Qed.

Lemma piece_step_localised w p st o st' :
  piece_step w p st o st' -> localised (images st') p o.
Proof.
  destruct p as [c|tag]; simpl.
  - intros [-> _]. left. reflexivity.
  - destruct (img_src tag) as [v|] eqn:Hv.
    + intros [[_ ->]|(name & Hn & Hd & ->)]; [left; reflexivity|].
      apply download_image_path in Hd as (name' & Hn' & Hp & Hi).
      assert (name' = name) as -> by congruence.
      right. exists v, name. auto.
    + intros [-> _]. left. reflexivity.
Qed.

Lemma piece_step_cache_kept w p st o st' :
  piece_step w p st o st' -> images st ⊆ images st'.
Proof.
  destruct p as [c|tag]; simpl.
  - intros [_ ->]. reflexivity.
  - destruct (img_src tag) as [v|] eqn:Hv.
    + intros H. assert (Hs : st' = (download_image w v st).2).
      { destruct H as [[H _]|(name & _ & H & _)]; rewrite H; reflexivity. }
      subst st'. apply cache_kept_download.
    + intros [_ ->]. reflexivity.
Qed.

Lemma chain_localised w l st outs st' :
  chain (piece_step w) l st outs st' ->
  images st ⊆ images st' /\ Forall2 (localised (images st')) l outs.
Proof.
  induction 1 as [st|p l o outs st st1 st2 Hp Hc [IH1 IH2]].
  - split; [reflexivity|constructor].
  - split.
    + etrans; [eapply piece_step_cache_kept, Hp|exact IH1].
    + constructor; [|exact IH2].
      eapply localised_grows; [exact IH1|].
      eapply piece_step_localised, Hp.
Qed.

(** X17. No dangling local path: a path that [download_image] returns is
    the static path of the cache name of the URL, and the file of that
    name is in the cache; and when [process_images_in_html] returns, every
    piece of the markup stands as it was or is a tag whose source was
    replaced by the path of a file that is in the cache at that moment. *)
Theorem local_paths_point_to_cache_files (w : World) :
  (forall img_url st p st',
      download_image w img_url st = (Ok (Some p), st') ->
      exists name,
        cache_name img_url = Some name
        /\ p = static_path name
        /\ is_Some (images st' !! name))
  /\ (forall html st,
        exists outs st',
          process_images_in_html w html st = (Ok (concat outs), st')
          /\ Forall2 (localised (images st')) (pieces html) outs).
Proof.
  split.
  - intros v st p st'. apply download_image_path.
  - intros html st.
    destruct (process_images_chain w html st) as (outs & st' & Hp & Hc).
    exists outs, st'. split; [exact Hp|].
    apply chain_localised in Hc as [_ H]. exact H.
Qed.

Lemma local_paths_point_to_cache_files_witness :
  exists p st' name,
    download_image (sample_world (sample_page None None) 200)
      (Py.lit "http://a/b.png") (fresh NoTable)
    = (Ok (Some p), st')
    /\ p = static_path name
    /\ is_Some (images st' !! name).
Proof.
  assert (H : exists p st',
             download_image (sample_world (sample_page None None) 200)
               (Py.lit "http://a/b.png") (fresh NoTable)
             = (Ok (Some p), st'))
    by (eexists _, _; vm_compute; reflexivity).
  destruct H as (p & st' & H).
  destruct (proj1 (local_paths_point_to_cache_files
                     (sample_world (sample_page None None) 200))
              _ _ _ _ H) as (name & _ & Hp & Hi).
  exists p, st', name. auto.
Defined.

(** X18. A write that fails poisons the cache: when the image was
    fetched and the cache file opened but the write raised,
    [download_image] returns [None] and leaves the file behind; from then
    on the URL is served from the cache, with no request, as if the image
    had been stored. *)
Theorem failed_write_is_served_from_cache (w : World) (img_url : Py.str)
    (st : State) (name : Py.str) (resp : Response) (e : Py.str) :
  cache_name img_url = Some name ->
  images st !! name = None ->
  requests_get w (now st) img_url = Ok resp ->
  status_code resp = 200%Z ->
  open_wb w (S (now st)) name = Ok tt ->
  file_write w (S (S (now st))) name = Raise e ->
  exists st',
    download_image w img_url st = (Ok None, st')
    /\ is_Some (images st' !! name)
    /\ forall w2 st2,
         is_Some (images st2 !! name) ->
         download_image w2 img_url st2
         = (Ok (Some (static_path name)), st2).
Proof.
  intros Hn Hc Hg Hs Ho Hw.
  eexists. split;
    [apply (download_image_truncated w img_url st name resp e
              Hn Hc Hg Hs Ho Hw)|].
  split; [simpl; rewrite lookup_insert_eq; eauto|].
  intros w2 st2 H2. apply download_image_cached; assumption.
Qed.

Lemma failed_write_is_served_from_cache_witness :
  exists name st',
    download_image disk_full_world (Py.lit "http://a/b.png") (fresh NoTable)
    = (Ok None, st')
    /\ download_image (sample_world (sample_page None None) 200)
         (Py.lit "http://a/b.png") st'
       = (Ok (Some (static_path name)), st').
Proof.
  let n := eval vm_compute in (cache_name (Py.lit "http://a/b.png")) in
  match n with
  | Some ?name =>
      exists name;
      assert (Hn : cache_name (Py.lit "http://a/b.png") = Some name)
        by (vm_compute; reflexivity);
      destruct (failed_write_is_served_from_cache disk_full_world
                  (Py.lit "http://a/b.png") (fresh NoTable) name
                  {| status_code := 200; content := [1; 2; 3]%N |}
                  (Py.lit "No space left on device")
                  Hn (lookup_empty _) eq_refl eq_refl eq_refl eq_refl)
        as (st' & H1 & H2 & H3);
      exists st'; split; [exact H1|apply H3; exact H2]
  end.
Defined.

(** ** A driver that fails to stop *)

(** X19. A driver that fails to stop masks the result: when the body of
    the [with] block has returned or raised, whatever it was, and leaving
    the block raises, the task returns the error result with the message
    of that last exception; what the body did to the image cache stays. *)
Theorem driver_stop_failure_masks_result (w : World) (article_id : Z)
    (st s0 s1 : State) (r : res Result) (e : Py.str) :
  article_exists article_id st = (Ok false, st) ->
  outside (playwright_start w) [] st = (Ok tt, s0) ->
  scrape_page w article_id (article_url article_id) s0 = (r, s1) ->
  playwright_stop w (now s1) = Raise e ->
  scrape_single_article w article_id st
  = (Ok (R_error article_id e), tick [] s1)
  /\ images (tick [] s1) = images s1.
Proof.
  intros Hx Hstart Hbody Hstop.
  unfold scrape_single_article, bind, try_except. rewrite Hx.
  unfold with_playwright, bind. rewrite Hstart, Hbody, Hstop.
  split; reflexivity.
Qed.

Lemma driver_stop_failure_masks_result_witness :
  exists st',
    scrape_single_article
      (stuck_driver_world
         (sample_page (Some (Py.lit "T"))
                      (Some (Py.lit "<img src='http://a/b.png'>")))) 5
      (fresh (Table ∅))
    = (Ok (R_error 5 (Py.lit "Connection closed")), st')
    /\ size (images st') = 1.
Proof.
  set (w := stuck_driver_world
              (sample_page (Some (Py.lit "T"))
                           (Some (Py.lit "<img src='http://a/b.png'>")))).
  assert (Hb : exists r s1,
             scrape_page w 5 (article_url 5) (tick [] (fresh (Table ∅)))
             = (r, s1) /\ size (images s1) = 1)
    by (eexists _, _; vm_compute; split; reflexivity).
  destruct Hb as (r & s1 & Hb & Hsz).
  exists (tick [] s1).
  assert (Hx : article_exists 5 (fresh (Table ∅))
               = (Ok false, fresh (Table ∅))) by (vm_compute; reflexivity).
  destruct (driver_stop_failure_masks_result w 5 (fresh (Table ∅))
              (tick [] (fresh (Table ∅))) s1 r (Py.lit "Connection closed")
              Hx eq_refl Hb eq_refl) as [H1 H2].
  split; [exact H1|]. rewrite H2. exact Hsz.
Defined.
